(** * Graph synchronisation, event derivation and node placement

    A shallow embedding of the server routes and layout helpers of the
    investigation-graph application:

    - [saveGraph]        POST /api/dag/[id]       (src/app/api/dag/[id]/route.ts)
    - [createEvent]      POST /api/events         (unnamed/part_002)
    - [updateEvent]      PUT /api/events/[id]     (unnamed/part_003)
    - [reorderEvents]    POST /api/events/reorder (src/app/api/dag/[id]/route.ts, third document)
    - [createEntity]     POST /api/entities       (src/app/api/entities/route.ts)
    - [calculateSmartPosition], [hasPositionConflict],
      [findNonConflictingPosition]                (unnamed/part_006, nodePositioning)

    The database is a record of tables, each a finite map from the primary
    key to the row.  Route handlers are functions from the database to the
    new database and the HTTP response.  JavaScript numbers are IEEE-754
    binary64 values ([float]); strings are sequences of code units below
    256. *)

From Stdlib Require Import ZArith Ascii String List Bool Lia.
From Stdlib Require Import Floats.PrimFloat Floats.SpecFloat Floats.FloatOps.
From Stdlib Require Import Floats.FloatAxioms.
From Stdlib Require Uint63.
From stdpp Require Import gmap strings list fin_maps.

Local Open Scope Z_scope.

(** ** JavaScript values used by the routes *)

Module Js.

(** [ToBoolean] of an optional string: [undefined], [null] and the empty
    string are falsy. *)
Definition truthy (v : option string) : bool :=
  match v with
  | Some s => negb (String.eqb s "")
  | None => false
  end.

(** [v || null] *)
Definition orNull (v : option string) : option string :=
  if truthy v then v else None.

(** White space and line terminators stripped by [String.prototype.trim]:
    TAB, LF, VT, FF, CR, SP and NBSP. *)
Definition isWhiteSpace (c : ascii) : bool :=
  match c with
  | "009" | "010" | "011" | "012" | "013" | " " | "160" => true
  | _ => false
  end%char.

Fixpoint trimStart (s : string) : string :=
  match s with
  | EmptyString => EmptyString
  | String c s' => if isWhiteSpace c then trimStart s' else s
  end.

Fixpoint trimEnd (s : string) : string :=
  match s with
  | EmptyString => EmptyString
  | String c s' =>
      let t := trimEnd s' in
      if isWhiteSpace c && String.eqb t "" then EmptyString else String c t
  end.

Definition trim (s : string) : string := trimEnd (trimStart s).

(** [String.prototype.toLowerCase] on one code unit: A-Z, and the
    Latin-1 capitals 0xC0-0xDE except the multiplication sign 0xD7. *)
Definition lowerChar (c : ascii) : ascii :=
  let n := N_of_ascii c in
  if ((65 <=? n) && (n <=? 90))%N then ascii_of_N (n + 32)
  else if ((192 <=? n) && (n <=? 222) && negb (n =? 215))%N
       then ascii_of_N (n + 32)
       else c.

Fixpoint toLowerCase (s : string) : string :=
  match s with
  | EmptyString => EmptyString
  | String c s' => String (lowerChar c) (toLowerCase s')
  end.

(** [hay.includes(needle)] *)
Fixpoint includes (hay needle : string) : bool :=
  String.prefix needle hay ||
  match hay with
  | EmptyString => false
  | String _ hay' => includes hay' needle
  end.

End Js.

(** ** Persisted rows

    One module per table; the primary key [id] is the key of the table's
    map and is not repeated in the row. *)

Module Role.
Record t := mk { name : string; category : string; isSystem : bool }.
End Role.

Module Entity.
Record t := mk {
  name : string;
  roleId : string;
  entityType : string;
  description : option string;
  avatar : option string
}.
End Entity.

Module Dag.
Record t := mk { name : string; description : option string }.
End Dag.

Module Node.
Record t := mk {
  dagId : string;
  entityId : string;
  x : float;
  y : float;
  category : option string;
  type : option string
}.
End Node.

Module Edge.
Record t := mk {
  dagId : string;
  sourceId : string;
  targetId : string;
  relationshipTypeId : option string;
  label : option string;
  sourceHandle : option string;
  targetHandle : option string;
  createdFromEventId : option string
}.
End Edge.

Module EventType.
Record t := mk { name : string; icon : option string; color : option string }.
End EventType.

Module Event.
Record t := mk {
  title : string;
  description : option string;
  date : option Z;
  seriesDay : option Z;
  sortOrder : Z;
  eventTypeId : string;
  dagId : string;
  sourceDagId : option string;
  sourceNodeId : option string;
  targetNodeId : option string;
  participantNodes : list string;
  tags : list string;
  createdEdgeId : option string
}.
End Event.

Record DB := mkDB {
  roles : gmap string Role.t;
  entities : gmap string Entity.t;
  relationshipTypes : gset string;
  eventTypes : gmap string EventType.t;
  tags : gset string;
  dags : gmap string Dag.t;
  nodes : gmap string Node.t;
  edges : gmap string Edge.t;
  events : gmap string Event.t
}.

Definition set_nodes (f : gmap string Node.t → gmap string Node.t) (db : DB) : DB :=
  mkDB (roles db) (entities db) (relationshipTypes db) (eventTypes db) (tags db)
       (dags db) (f (nodes db)) (edges db) (events db).

Definition set_edges (f : gmap string Edge.t → gmap string Edge.t) (db : DB) : DB :=
  mkDB (roles db) (entities db) (relationshipTypes db) (eventTypes db) (tags db)
       (dags db) (nodes db) (f (edges db)) (events db).

Definition set_events (f : gmap string Event.t → gmap string Event.t) (db : DB) : DB :=
  mkDB (roles db) (entities db) (relationshipTypes db) (eventTypes db) (tags db)
       (dags db) (nodes db) (edges db) (f (events db)).

Definition set_eventTypes (f : gmap string EventType.t → gmap string EventType.t)
    (db : DB) : DB :=
  mkDB (roles db) (entities db) (relationshipTypes db) (f (eventTypes db)) (tags db)
       (dags db) (nodes db) (edges db) (events db).

Definition set_entities (f : gmap string Entity.t → gmap string Entity.t) (db : DB) : DB :=
  mkDB (roles db) (f (entities db)) (relationshipTypes db) (eventTypes db) (tags db)
       (dags db) (nodes db) (edges db) (events db).

(** ** Responses *)

(** [NextResponse.json(body)] or [NextResponse.json({ error }, { status })]. *)
Inductive Response (A : Type) : Type :=
| Json (body : A)
| Failure (status : Z) (error : string).
Arguments Json {A} body.
Arguments Failure {A} status error.

Definition isJson {A} (r : Response A) : bool :=
  match r with Json _ => true | Failure _ _ => false end.

(** ** POST /api/dag/[id]: save the graph *)

Module ClientNode.
(** A node of the request body: [node.id], [node.type], [node.position]
    ([None] when the position is missing or when [x] or [y] is not of
    type number), [node.data?.entityId] and [node.data?.category]. *)
Record t := mk {
  id : option string;
  type : option string;
  position : option (float * float);
  entityId : option string;
  category : option string
}.
End ClientNode.

Module ClientEdge.
Record t := mk {
  id : option string;
  source : option string;
  target : option string;
  relationshipTypeId : option string;
  label : option string;
  sourceHandle : option string;
  targetHandle : option string
}.
End ClientEdge.

(** The request body; [None] stands for a value that is not an array. *)
Record SaveBody := mkSaveBody {
  body_nodes : option (list ClientNode.t);
  body_edges : option (list ClientEdge.t)
}.

(** Pre-validation of the nodes: the message of the first violation. *)
Fixpoint validateNodes (ns : list ClientNode.t) : option string :=
  match ns with
  | [] => None
  | node :: ns' =>
      if negb (Js.truthy (ClientNode.id node)) then
        Some "Invalid node structure: missing id"
      else if negb (Js.truthy (ClientNode.entityId node)) then
        Some ("Node " +:+ default "" (ClientNode.id node)
              +:+ " is missing required entityId")
      else if negb (bool_decide (is_Some (ClientNode.position node))) then
        Some ("Node " +:+ default "" (ClientNode.id node)
              +:+ " has invalid position data")
      else validateNodes ns'
  end.

Definition edgeShapeError (edge : ClientEdge.t) : option string :=
  if negb (Js.truthy (ClientEdge.id edge)) then
    Some "Invalid edge structure: missing id"
  else if negb (Js.truthy (ClientEdge.source edge))
          || negb (Js.truthy (ClientEdge.target edge)) then
    Some ("Edge " +:+ default "" (ClientEdge.id edge)
          +:+ " is missing required source or target")
  else None.

Fixpoint validateEdges (es : list ClientEdge.t) : option string :=
  match es with
  | [] => None
  | edge :: es' =>
      match edgeShapeError edge with
      | Some msg => Some msg
      | None => validateEdges es'
      end
  end.

(** What can abort the transaction: an [Error] thrown by the handler, or
    a foreign-key violation reported by the database (Prisma code P2003). *)
Inductive TxError : Type :=
| Thrown (message : string)
| ForeignKeyViolation.

Definition TxResult (A : Type) : Type := TxError + A.

Definition tx_bind {A B} (m : TxResult A) (k : A → TxResult B) : TxResult B :=
  match m with
  | inl e => inl e
  | inr a => k a
  end.

Notation "'attempt' x := m 'in' k" := (tx_bind m (λ x, k))
  (at level 10, x name, m at level 100, k at level 200, only parsing).

(** The [where] clause of [tx.dAGNode.deleteMany]:
    [{ dagId: id, id: { notIn: sentNodeIds }, type: { not: "root" } }].
    A [not] filter on the nullable column [type] does not match NULL. *)
Definition nodeDeleteWhere (id : string) (sentNodeIds : list string)
    (k : string) (n : Node.t) : bool :=
  bool_decide (Node.dagId n = id)
  && bool_decide (k ∉ sentNodeIds)
  && (match Node.type n with
      | Some t => negb (String.eqb t "root")
      | None => false
      end).

(** [deleteMany] on the node table.  The edge table declares
    [FOREIGN KEY ("sourceId") REFERENCES "DAGNode" ("id") ON DELETE CASCADE]
    and the same for ["targetId"] (migration, unnamed/part_012), so the
    edges attached to a deleted node go with it.  (The save deletes nodes
    before edges and relies on this.)  The declaration of the event table
    is not among the sources; events are left as they are. *)
Definition deleteManyNodes (where_ : string → Node.t → bool) (db : DB) : DB :=
  let gone := dom (filter (λ kn, where_ kn.1 kn.2 = true) (nodes db)) in
  mkDB (roles db) (entities db) (relationshipTypes db) (eventTypes db) (tags db)
       (dags db)
       (filter (λ kn, where_ kn.1 kn.2 = false) (nodes db))
       (filter (λ ke, (Edge.sourceId ke.2 ∉ gone) ∧ (Edge.targetId ke.2 ∉ gone))
               (edges db))
       (events db).

(** The node type computed at save time. *)
Definition nodeTypeOf (isRootNode : bool) (roleName : string) : string :=
  if isRootNode then "root"
  else if Js.includes roleName "evidence leader"
          || Js.includes roleName "evidenceleader"
       then "evidenceLeader"
       else "custom".

(** [entity.roleLink?.name?.toLowerCase() || ''] *)
Definition roleNameOf (db : DB) (entity : Entity.t) : string :=
  match roles db !! Entity.roleId entity with
  | Some role => Js.toLowerCase (Role.name role)
  | None => ""
  end.

(** The number a [Float] column keeps for a number written to it: the
    number itself, except that the sign of a zero does not survive the
    write, so that -0 is kept as 0. *)
Definition storedNumber (v : float) : float :=
  if PrimFloat.is_zero v then 0%float else v.

(** One iteration of the node loop: look the entity up, clamp a root to
    the origin, derive the type, [tx.dAGNode.upsert]. *)
Definition upsertNode (id : string) (node : ClientNode.t) (db : DB) : TxResult DB :=
  match ClientNode.id node, ClientNode.entityId node, ClientNode.position node with
  | Some nodeId, Some entityId, Some (px, py) =>
      match entities db !! entityId with
      | None =>
          inl (Thrown ("Entity " +:+ entityId +:+ " not found for node " +:+ nodeId))
      | Some entity =>
          let isRootNode := bool_decide (ClientNode.type node = Some "root") in
          let finalX := if isRootNode then 0%float else px in
          let finalY := if isRootNode then 0%float else py in
          let nodeType := nodeTypeOf isRootNode (roleNameOf db entity) in
          let category := Js.orNull (ClientNode.category node) in
          let row :=
            match nodes db !! nodeId with
            | Some old =>
                (* update: x, y, category, type *)
                Node.mk (Node.dagId old) (Node.entityId old)
                        (storedNumber finalX) (storedNumber finalY)
                        category (Some nodeType)
            | None =>
                (* create *)
                Node.mk id entityId (storedNumber finalX) (storedNumber finalY)
                        category (Some nodeType)
            end in
          inr (set_nodes (insert nodeId row) db)
      end
  | _, _, _ => inl (Thrown "Invalid node")
  end.

Fixpoint upsertNodes (id : string) (ns : list ClientNode.t) (db : DB) : TxResult DB :=
  match ns with
  | [] => inr db
  | node :: ns' => attempt db' := upsertNode id node db in upsertNodes id ns' db'
  end.

(** The [where] clause of [tx.dAGEdge.deleteMany]:
    [{ dagId: id, id: { notIn: sentEdgeIds } }]. *)
Definition edgeDeleteWhere (id : string) (sentEdgeIds : list string)
    (k : string) (e : Edge.t) : bool :=
  bool_decide (Edge.dagId e = id) && bool_decide (k ∉ sentEdgeIds).

(** The reference of an optional foreign key resolves. *)
Definition refOk (table : gset string) (ref : option string) : bool :=
  match ref with
  | Some k => bool_decide (k ∈ table)
  | None => true
  end.

(** One iteration of the edge loop. *)
Definition upsertEdge (id : string) (edge : ClientEdge.t) (db : DB) : TxResult DB :=
  match edgeShapeError edge with
  | Some msg => inl (Thrown msg)
  | None =>
      match ClientEdge.id edge, ClientEdge.source edge, ClientEdge.target edge with
      | Some edgeId, Some source, Some target =>
          let relationshipTypeId := Js.orNull (ClientEdge.relationshipTypeId edge) in
          let label :=
            if Js.truthy relationshipTypeId then None
            else Js.orNull (ClientEdge.label edge) in
          let sourceHandle := Js.orNull (ClientEdge.sourceHandle edge) in
          let targetHandle := Js.orNull (ClientEdge.targetHandle edge) in
          if negb (refOk (relationshipTypes db) relationshipTypeId) then
            inl ForeignKeyViolation
          else
            match edges db !! edgeId with
            | Some old =>
                (* update: relationshipTypeId, label, sourceHandle, targetHandle *)
                inr (set_edges (insert edgeId
                       (Edge.mk (Edge.dagId old) (Edge.sourceId old) (Edge.targetId old)
                                relationshipTypeId label sourceHandle targetHandle
                                (Edge.createdFromEventId old))) db)
            | None =>
                (* create *)
                if bool_decide (source ∈ dom (nodes db))
                   && bool_decide (target ∈ dom (nodes db)) then
                  inr (set_edges (insert edgeId
                         (Edge.mk id source target
                                  relationshipTypeId label sourceHandle targetHandle
                                  None)) db)
                else inl ForeignKeyViolation
            end
      | _, _, _ => inl (Thrown "Invalid edge")
      end
  end.

Fixpoint upsertEdges (id : string) (es : list ClientEdge.t) (db : DB) : TxResult DB :=
  match es with
  | [] => inr db
  | edge :: es' => attempt db' := upsertEdge id edge db in upsertEdges id es' db'
  end.

(** The body of [prisma.$transaction]. *)
Definition saveTransaction (id : string) (ns : list ClientNode.t)
    (es : list ClientEdge.t) (db : DB) : TxResult DB :=
  let sentNodeIds := omap ClientNode.id ns in
  let db1 :=
    if (0 <? Z.of_nat (length sentNodeIds))
    then deleteManyNodes (nodeDeleteWhere id sentNodeIds) db
    else db in
  attempt db2 := upsertNodes id ns db1 in
  let sentEdgeIds := omap ClientEdge.id es in
  let db3 :=
    if (0 <? Z.of_nat (length sentEdgeIds))
    then set_edges (filter (λ ke, edgeDeleteWhere id sentEdgeIds ke.1 ke.2 = false)) db2
    else db2 in
  upsertEdges id es db3.

(** The [catch] of the handler: every failure is a 500. *)
Definition saveFailure (e : TxError) : Response unit :=
  match e with
  | ForeignKeyViolation => Failure 500 "Database error occurred"
  | Thrown _ => Failure 500 "Failed to save DAG"
  end.

(** The handler.  A failed transaction leaves the database as it was. *)
Definition saveGraph (id : string) (body : SaveBody) (db : DB) : DB * Response unit :=
  match body_nodes body with
  | None => (db, Failure 400 "Invalid nodes data")
  | Some ns =>
      match body_edges body with
      | None => (db, Failure 400 "Invalid edges data")
      | Some es =>
          match dags db !! id with
          | None => (db, Failure 404 "DAG not found")
          | Some _ =>
              match validateNodes ns with
              | Some msg => (db, Failure 400 msg)
              | None =>
                  match validateEdges es with
                  | Some msg => (db, Failure 400 msg)
                  | None =>
                      match saveTransaction id ns es db with
                      | inr db' => (db', Json tt)
                      | inl e => (db, saveFailure e)
                      end
                  end
              end
          end
      end
  end.

(** A sequence of saves of one graph. *)
Definition saveGraphs (id : string) (bodies : list SaveBody) (db : DB) : DB :=
  foldl (λ d body, (saveGraph id body d).1) db bodies.

(** ** Dates

    [new Date(s)] and the local-midnight constructors
    [new Date(d.getFullYear(), d.getMonth(), d.getDate())] and
    [new Date(d.getFullYear(), d.getMonth(), d.getDate() + 1)] belong to the
    JavaScript runtime (and its time zone).  Times are milliseconds since
    the epoch. *)
Class DateImpl := {
  (** [new Date(s).getTime()], [None] when it is NaN *)
  parseDate : string → option Z;
  (** local midnight of the day of [t] *)
  startOfDay : Z → Z;
  (** local midnight of the following day *)
  startOfNextDay : Z → Z
}.

(** The filter [date: { gte: startOfDay d, lt: startOfNextDay d }];
    a NULL date matches no range. *)
Definition onDayOf `{DateImpl} (eventDate : Z) (date : option Z) : bool :=
  match date with
  | Some t => (startOfDay eventDate <=? t) && (t <? startOfNextDay eventDate)
  | None => false
  end.

(** ** POST /api/events: create an event *)

Module EventBody.
Record t := mk {
  title : option string;
  description : option string;
  date : option string;
  seriesDay : option Z;
  tagIds : option (list string);
  sourceDagId : option string;
  customTypeName : option string;
  eventTypeId : option string;
  sourceNodeId : option string;
  targetNodeId : option string;
  participantNodeIds : option (list string);
  createEdge : bool;
  dagId : option string
}.
End EventBody.

(** [!title || !title.trim()] *)
Definition titleMissing (title : option string) : bool :=
  negb (Js.truthy title) || negb (Js.truthy (Js.trim <$> title)).

(** [!seriesDay]: [undefined], [null] and [0] are falsy. *)
Definition seriesDayTruthy (seriesDay : option Z) : bool :=
  match seriesDay with
  | Some d => negb (d =? 0)
  | None => false
  end.

(** [!participantNodeIds || participantNodeIds.length === 0] *)
Definition noParticipants (ids : option (list string)) : bool :=
  match ids with
  | Some (_ :: _) => false
  | _ => true
  end.

(** [prisma.dAGNode.findFirst({ where: { id, dagId } })] *)
Definition findNodeInDag (db : DB) (nodeId dagId : string) : option Node.t :=
  match nodes db !! nodeId with
  | Some n => if bool_decide (Node.dagId n = dagId) then Some n else None
  | None => None
  end.

(** [prisma.eventType.findUnique({ where: { name } })] *)
Definition findEventTypeByName (db : DB) (name : string)
    : option (string * EventType.t) :=
  head (map_to_list (filter (λ kt, EventType.name kt.2 = name) (eventTypes db))).

(** The custom-type step: reuse the type of that name, or register it under
    the trimmed name.  The column [name] is unique, so registering a
    trimmed name that is taken is refused by the database. *)
Definition resolveEventType (db : DB) (eventTypeId customTypeName : option string)
    : option (DB * option string) :=
  if Js.truthy customTypeName && negb (Js.truthy eventTypeId) then
    let name := default "" customTypeName in
    match findEventTypeByName db name with
    | Some (k, _) => Some (db, Some k)
    | None =>
        match findEventTypeByName db (Js.trim name) with
        | Some _ => None
        | None =>
            let k := fresh (dom (eventTypes db)) in
            Some (set_eventTypes
                    (insert k (EventType.mk (Js.trim name) (Some "HelpCircle")
                                            (Some "#6366f1"))) db,
                  Some k)
        end
    end
  else Some (db, eventTypeId).

(** The greatest [sortOrder] of a result set, as
    [orderBy: { sortOrder: 'desc' }, take: 1] selects it. *)
Fixpoint maxSortOrderOf (sortOrders : list Z) : option Z :=
  match sortOrders with
  | [] => None
  | s :: rest =>
      match maxSortOrderOf rest with
      | Some m => Some (Z.max s m)
      | None => Some s
      end
  end.

(** Events of the graph on the day of [eventDate]. *)
Definition sameDayEvents `{DateImpl} (db : DB) (dagId : string) (eventDate : Z)
    : gmap string Event.t :=
  filter (λ ke, Event.dagId ke.2 = dagId
                ∧ onDayOf eventDate (Event.date ke.2) = true) (events db).

(** Events of the graph with that series day. *)
Definition sameSeriesDayEvents (db : DB) (dagId : string) (seriesDay : Z)
    : gmap string Event.t :=
  filter (λ ke, Event.dagId ke.2 = dagId
                ∧ Event.seriesDay ke.2 = Some seriesDay) (events db).

Definition sortOrdersOf (evs : gmap string Event.t) : list Z :=
  (λ ke, Event.sortOrder ke.2) <$> map_to_list evs.

(** [sameDayEvents.length > 0 ? sameDayEvents[0].sortOrder : -1], plus 1. *)
Definition nextSortOrder (evs : gmap string Event.t) : Z :=
  default (-1) (maxSortOrderOf (sortOrdersOf evs)) + 1.

Definition newSortOrder `{DateImpl} (db : DB) (dagId : string)
    (eventDate : option Z) (seriesDay : option Z) : Z :=
  match eventDate with
  | Some d => nextSortOrder (sameDayEvents db dagId d)
  | None =>
      match seriesDay with
      | Some sd => nextSortOrder (sameSeriesDayEvents db dagId sd)
      | None => 0
      end
  end.

(** [ids.filter(id => id && id.trim().length > 0)], for an absent or empty
    array no ids. *)
Definition validIds (ids : option (list string)) : list string :=
  List.filter (λ id, Js.truthy (Some id) && Js.truthy (Some (Js.trim id)))
              (default [] ids).

(** [{ connect: ids.map(id => ({ id })) }] and [{ set: ... }]: the ids the
    relation holds afterwards.  A relation holds an id once; the ids are
    kept in the order of the request, the order in which the database
    answers is not part of the model. *)
Definition connected (ids : list string) : list string := remove_dups ids.

(** The foreign keys and relation connects [prisma.event.create] checks. *)
Definition eventRefsOk (db : DB) (e : Event.t) : bool :=
  bool_decide (Event.eventTypeId e ∈ dom (eventTypes db))
  && bool_decide (Event.dagId e ∈ dom (dags db))
  && refOk (dom (dags db)) (Event.sourceDagId e)
  && refOk (dom (nodes db)) (Event.sourceNodeId e)
  && refOk (dom (nodes db)) (Event.targetNodeId e)
  && forallb (λ k, bool_decide (k ∈ dom (nodes db))) (Event.participantNodes e)
  && forallb (λ k, bool_decide (k ∈ tags db)) (Event.tags e).

(** [prisma.dAGEdge.findFirst({ where: { dagId, sourceId, targetId } })] *)
Definition edgesBetween (db : DB) (dagId sourceId targetId : string)
    : gmap string Edge.t :=
  filter (λ ke, Edge.dagId ke.2 = dagId ∧ Edge.sourceId ke.2 = sourceId
                ∧ Edge.targetId ke.2 = targetId) (edges db).

Definition findEdgeBetween (db : DB) (dagId sourceId targetId : string)
    : option (string * Edge.t) :=
  head (map_to_list (edgesBetween db dagId sourceId targetId)).

(** The optional edge of an event: nothing when an edge of that ordered
    pair exists; otherwise a new edge labelled with the trimmed title and
    tagged with the event, and the event's [createdEdgeId] filled in. *)
Definition deriveEdge (db : DB) (dagId sourceId targetId title eventId : string)
    : DB * option (string * Edge.t) :=
  match findEdgeBetween db dagId sourceId targetId with
  | Some _ => (db, None)
  | None =>
      let edgeId := fresh (dom (edges db)) in
      let edge := Edge.mk dagId sourceId targetId None (Some (Js.trim title))
                          None None (Some eventId) in
      let db1 := set_edges (insert edgeId edge) db in
      let db2 :=
        set_events (alter (λ e,
          Event.mk (Event.title e) (Event.description e) (Event.date e)
                   (Event.seriesDay e) (Event.sortOrder e) (Event.eventTypeId e)
                   (Event.dagId e) (Event.sourceDagId e) (Event.sourceNodeId e)
                   (Event.targetNodeId e) (Event.participantNodes e)
                   (Event.tags e) (Some edgeId)) eventId) db1 in
      (db2, Some (edgeId, edge))
  end.

(** The body of a successful response: the event as it was created (before
    [createdEdgeId] is filled in) and the created edge, if any. *)
Record EventCreated := mkEventCreated {
  event_id : string;
  event : Event.t;
  createdEdge : option (string * Edge.t)
}.

(** The [eventData] object handed to [prisma.event.create]. *)
Definition eventDataOf `{DateImpl} (body : EventBody.t) (db : DB)
    (eventTypeId : option string) (eventDate : option Z) : Event.t :=
  let dagId := default "" (EventBody.dagId body) in
  Event.mk (Js.trim (default "" (EventBody.title body)))
           (Js.orNull (Js.trim <$> EventBody.description body))
           eventDate
           (EventBody.seriesDay body)
           (newSortOrder db dagId eventDate (EventBody.seriesDay body))
           (default "" eventTypeId)
           dagId
           (Js.orNull (EventBody.sourceDagId body))
           (Js.orNull (EventBody.sourceNodeId body))
           (Js.orNull (EventBody.targetNodeId body))
           (connected (validIds (EventBody.participantNodeIds body)))
           (connected (validIds (EventBody.tagIds body)))
           None.

(** [createEdge && sourceNodeId && targetNodeId] *)
Definition edgeRequested (body : EventBody.t) : bool :=
  EventBody.createEdge body && Js.truthy (EventBody.sourceNodeId body)
  && Js.truthy (EventBody.targetNodeId body).

(** [prisma.event.create] and the optional edge. *)
Definition storeEvent (body : EventBody.t) (eventData : Event.t) (db : DB)
    : DB * EventCreated :=
  let eventId := fresh (dom (events db)) in
  let db2 := set_events (insert eventId eventData) db in
  if edgeRequested body then
    let '(db3, created) :=
      deriveEdge db2 (default "" (EventBody.dagId body))
                 (default "" (EventBody.sourceNodeId body))
                 (default "" (EventBody.targetNodeId body))
                 (default "" (EventBody.title body)) eventId in
    (db3, mkEventCreated eventId eventData created)
  else (db2, mkEventCreated eventId eventData None).

(** [new Date(date)] when a date is given: [Some None] is an invalid
    date. *)
Definition eventDateOf `{DateImpl} (body : EventBody.t) : option (option Z) :=
  if Js.truthy (EventBody.date body)
  then Some (parseDate (default "" (EventBody.date body)))
  else None.

(** The checks that come before any database access. *)
Definition shapeError (body : EventBody.t) : option string :=
  if titleMissing (EventBody.title body) then
    Some "Event title is required"
  else if negb (Js.truthy (EventBody.date body))
          && negb (seriesDayTruthy (EventBody.seriesDay body))
          && negb (Js.truthy (EventBody.sourceDagId body)) then
    Some "Event date or series day is required"
  else if negb (Js.truthy (EventBody.eventTypeId body))
          && negb (Js.truthy (EventBody.customTypeName body)) then
    Some "Event type is required"
  else if negb (Js.truthy (EventBody.dagId body)) then
    Some "DAG ID is required"
  else if negb (Js.truthy (EventBody.sourceNodeId body))
          && negb (Js.truthy (EventBody.targetNodeId body))
          && noParticipants (EventBody.participantNodeIds body) then
    Some "At least one node must be linked to the event"
  else None.

(** [nodeId] is given and is not the id of a node of the graph. *)
Definition nodeMissing (db : DB) (nodeId dagId : option string) : bool :=
  Js.truthy nodeId
  && negb (bool_decide (is_Some (findNodeInDag db (default "" nodeId)
                                               (default "" dagId)))).

Definition createEvent `{DateImpl} (body : EventBody.t) (db : DB)
    : DB * Response EventCreated :=
  match shapeError body with
  | Some msg => (db, Failure 400 msg)
  | None =>
      if nodeMissing db (EventBody.sourceNodeId body) (EventBody.dagId body) then
        (db, Failure 400 "Source node not found in this DAG")
      else if nodeMissing db (EventBody.targetNodeId body) (EventBody.dagId body) then
        (db, Failure 400 "Target node not found in this DAG")
      else
        match resolveEventType db (EventBody.eventTypeId body)
                               (EventBody.customTypeName body) with
        | None => (db, Failure 500 "Failed to create event")
        | Some (db1, eventTypeId) =>
            match eventDateOf body with
            | Some None => (db1, Failure 400 "Invalid date format")
            | parsed =>
                let eventData := eventDataOf body db1 eventTypeId (parsed ≫= id) in
                if negb (eventRefsOk db1 eventData) then
                  (db1, Failure 500 "Failed to create event")
                else
                  let '(db', created) := storeEvent body eventData db1 in
                  (db', Json created)
            end
        end
  end.

(** *** The earlier version of the route

    The first document of unnamed/part_002: a date is required, and series
    days, tags and source graphs are not read.  The steps it shares with
    the later version are the definitions above. *)



(** ** PUT /api/events/[id]: update an event

    unnamed/part_003.  The request carries the fields of [EventBody.t]
    except [dagId], [seriesDay], [tagIds] and [sourceDagId], which the
    handler does not read; [participantNodeIds] is [None] when absent. *)

(** The checks before the event is looked up. *)
Definition updateShapeError (body : EventBody.t) : option string :=
  if titleMissing (EventBody.title body) then
    Some "Event title is required"
  else if negb (Js.truthy (EventBody.date body)) then
    Some "Event date is required"
  else if negb (Js.truthy (EventBody.eventTypeId body))
          && negb (Js.truthy (EventBody.customTypeName body)) then
    Some "Event type is required"
  else None.

(** The [updateData] applied to the stored event. *)
Definition updatedEvent (body : EventBody.t) (eventTypeId : option string)
    (eventDate : Z) (old : Event.t) : Event.t :=
  Event.mk (Js.trim (default "" (EventBody.title body)))
           (Js.orNull (Js.trim <$> EventBody.description body))
           (Some eventDate)
           (Event.seriesDay old)
           (Event.sortOrder old)
           (default "" eventTypeId)
           (Event.dagId old)
           (Event.sourceDagId old)
           (Js.orNull (EventBody.sourceNodeId body))
           (Js.orNull (EventBody.targetNodeId body))
           (match EventBody.participantNodeIds body with
            | Some ids => connected (validIds (Some ids))
            | None => Event.participantNodes old
            end)
           (Event.tags old)
           (Event.createdEdgeId old).

(** The references [prisma.event.update] checks. *)
Definition updateRefsOk (db : DB) (e : Event.t) : bool :=
  bool_decide (Event.eventTypeId e ∈ dom (eventTypes db))
  && refOk (dom (nodes db)) (Event.sourceNodeId e)
  && refOk (dom (nodes db)) (Event.targetNodeId e)
  && forallb (λ k, bool_decide (k ∈ dom (nodes db))) (Event.participantNodes e).

Definition withLabel (label : option string) (e : Edge.t) : Edge.t :=
  Edge.mk (Edge.dagId e) (Edge.sourceId e) (Edge.targetId e)
          (Edge.relationshipTypeId e) label (Edge.sourceHandle e)
          (Edge.targetHandle e) (Edge.createdFromEventId e).

(** The edge step of an update: the event's own edge gets the new title
    as its label; an event without an edge of its own gets one unless the
    pair has one.  [None] when the event's edge is no longer there (the
    update of the edge rejects). *)
Definition updateEdge (db : DB) (old : Event.t) (body : EventBody.t)
    (eventId : string) : option DB :=
  let title := default "" (EventBody.title body) in
  match Event.createdEdgeId old with
  | Some edgeId =>
      match edges db !! edgeId with
      | Some _ =>
          Some (set_edges (alter (withLabel (Some (Js.trim title))) edgeId) db)
      | None => None
      end
  | None =>
      Some (deriveEdge db (Event.dagId old)
                       (default "" (EventBody.sourceNodeId body))
                       (default "" (EventBody.targetNodeId body))
                       title eventId).1
  end.

Definition updateEvent `{DateImpl} (id : string) (body : EventBody.t) (db : DB)
    : DB * Response Event.t :=
  match updateShapeError body with
  | Some msg => (db, Failure 400 msg)
  | None =>
      match events db !! id with
      | None => (db, Failure 404 "Event not found")
      | Some existingEvent =>
          let dagId := Some (Event.dagId existingEvent) in
          if negb (Js.truthy (EventBody.sourceNodeId body))
             && negb (Js.truthy (EventBody.targetNodeId body))
             && noParticipants (EventBody.participantNodeIds body) then
            (db, Failure 400 "At least one node must be linked to the event")
          else if nodeMissing db (EventBody.sourceNodeId body) dagId then
            (db, Failure 400 "Source node not found in this DAG")
          else if nodeMissing db (EventBody.targetNodeId body) dagId then
            (db, Failure 400 "Target node not found in this DAG")
          else
            match resolveEventType db (EventBody.eventTypeId body)
                                   (EventBody.customTypeName body) with
            | None => (db, Failure 500 "Failed to update event")
            | Some (db1, eventTypeId) =>
                match parseDate (default "" (EventBody.date body)) with
                | None => (db1, Failure 400 "Invalid date format")
                | Some eventDate =>
                    let updated :=
                      updatedEvent body eventTypeId eventDate existingEvent in
                    if negb (updateRefsOk db1 updated) then
                      (db1, Failure 500 "Failed to update event")
                    else
                      let db2 := set_events (insert id updated) db1 in
                      if edgeRequested body then
                        match updateEdge db2 existingEvent body id with
                        | Some db3 => (db3, Json updated)
                        | None => (db2, Failure 500 "Failed to update event")
                        end
                      else (db2, Json updated)
                end
            end
      end
  end.

(** ** POST /api/events/reorder: reorder the events of one day *)

Module ReorderBody.
(** [eventIds] is [None] for a value that is not an array. *)
Record t := mk {
  dagId : option string;
  date : option string;
  eventIds : option (list string)
}.
End ReorderBody.

(** The events the handler looks for:
    [{ id: { in: eventIds }, dagId, date: { gte, lt } }]. *)
Definition eventsToReorder `{DateImpl} (db : DB) (dagId : string) (eventDate : Z)
    (eventIds : list string) : gmap string Event.t :=
  filter (λ ke, ke.1 ∈ eventIds ∧ Event.dagId ke.2 = dagId
                ∧ onDayOf eventDate (Event.date ke.2) = true) (events db).

Definition withSortOrder (sortOrder : Z) (e : Event.t) : Event.t :=
  Event.mk (Event.title e) (Event.description e) (Event.date e)
           (Event.seriesDay e) sortOrder (Event.eventTypeId e)
           (Event.dagId e) (Event.sourceDagId e) (Event.sourceNodeId e)
           (Event.targetNodeId e) (Event.participantNodes e)
           (Event.tags e) (Event.createdEdgeId e).

(** [prisma.event.update({ where: { id }, data: { sortOrder: index } })]
    for the ids from position [index] on, as [Promise.all] runs them: each
    update is applied; the second component is [false] when some id is not
    found (that update rejects, the others still run). *)
Fixpoint updateSortOrders (index : Z) (eventIds : list string) (db : DB)
    : DB * bool :=
  match eventIds with
  | [] => (db, true)
  | eventId :: rest =>
      match events db !! eventId with
      | Some e =>
          updateSortOrders (index + 1) rest
            (set_events (insert eventId (withSortOrder index e)) db)
      | None => ((updateSortOrders (index + 1) rest db).1, false)
      end
  end.

Definition reorderEvents `{DateImpl} (body : ReorderBody.t) (db : DB)
    : DB * Response unit :=
  match ReorderBody.eventIds body with
  | Some eventIds =>
      if negb (Js.truthy (ReorderBody.dagId body))
         || negb (Js.truthy (ReorderBody.date body)) then
        (db, Failure 400 "dagId, date, and eventIds array are required")
      else
        let dagId := default "" (ReorderBody.dagId body) in
        match parseDate (default "" (ReorderBody.date body)) with
        | None => (db, Failure 400 "Invalid date format")
        | Some eventDate =>
            let found := eventsToReorder db dagId eventDate eventIds in
            if negb (size found =? length eventIds)%nat then
              (db, Failure 400 "Some events not found or not on the specified date")
            else
              match updateSortOrders 0 eventIds db with
              | (db', true) => (db', Json tt)
              | (db', false) => (db', Failure 500 "Failed to reorder events")
              end
        end
  | None => (db, Failure 400 "dagId, date, and eventIds array are required")
  end.

(** ** POST /api/entities: create an entity *)

Module EntityBody.
(** The fields of the body, for a body whose fields are strings when they
    are present: a field is [None] when it is absent. *)
Record t := mk {
  name : option string;
  roleId : option string;
  entityType : option string;
  description : option string
}.
End EntityBody.

Module Uri.

Definition hexDigit (n : N) : ascii :=
  if (n <? 10)%N then ascii_of_N (48 + n) else ascii_of_N (55 + n).

Definition percent (byte : N) : string :=
  String "%" (String (hexDigit (byte / 16)) (String (hexDigit (byte mod 16)) "")).

(** The characters [encodeURIComponent] leaves alone: letters, digits and
    [- _ . ! ~ * ' ( )]. *)
Definition unreserved (c : ascii) : bool :=
  let n := N_of_ascii c in
  ((65 <=? n) && (n <=? 90) || (97 <=? n) && (n <=? 122)
   || (48 <=? n) && (n <=? 57))%N
  || match c with
     | "-" | "_" | "." | "!" | "~" | "*" | "'" | "(" | ")" => true
     | _ => false
     end%char.

(** One code unit: kept, or the percent-escapes of its UTF-8 bytes (one
    byte below 128, two from 128 to 255). *)
Definition encodeChar (c : ascii) : string :=
  let n := N_of_ascii c in
  if unreserved c then String c ""
  else if (n <? 128)%N then percent n
  else percent (192 + n / 64) +:+ percent (128 + n mod 64).

Fixpoint encodeURIComponent (s : string) : string :=
  match s with
  | EmptyString => EmptyString
  | String c s' => encodeChar c +:+ encodeURIComponent s'
  end.

End Uri.

(** [CreateEntitySchema.parse(body)]: the parsed data, or [None] when zod
    throws.  [name] is a string of at least 2 code units, [roleId] a string,
    [entityType] one of the three kinds and ["human"] when absent. *)
Definition parseCreateEntity (body : EntityBody.t)
    : option (string * string * string * option string) :=
  match EntityBody.name body, EntityBody.roleId body with
  | Some name, Some roleId =>
      if (String.length name <? 2)%nat then None
      else
        match EntityBody.entityType body with
        | None => Some (name, roleId, "human", EntityBody.description body)
        | Some entityType =>
            if bool_decide (entityType ∈ ["human"; "company"; "organization"])
            then Some (name, roleId, entityType, EntityBody.description body)
            else None
        end
  | _, _ => None
  end.

Definition avatarUrl (name : string) : string :=
  "https://ui-avatars.com/api/?name=" +:+ Uri.encodeURIComponent name
  +:+ "&background=random".

Definition createEntity (body : EntityBody.t) (db : DB)
    : DB * Response (string * Entity.t) :=
  match parseCreateEntity body with
  | None => (db, Failure 400 "Invalid data")
  | Some (name, roleId, entityType, description) =>
      match roles db !! roleId with
      | None => (db, Failure 400 "Invalid role ID")
      | Some _ =>
          let entity :=
            Entity.mk name roleId
                      (if Js.truthy (Some entityType) then entityType else "human")
                      description (Some (avatarUrl name)) in
          let entityId := fresh (dom (entities db)) in
          (set_entities (insert entityId entity) db,
           Json (entityId,
                 Entity.mk (Entity.name entity) (Entity.roleId entity)
                           (Entity.entityType entity)
                           (Js.orNull (Entity.description entity))
                           (Js.orNull (Entity.avatar entity))))
      end
  end.

(** ** Node placement (nodePositioning) *)

(** [Math.cos] and [Math.sin] are approximations the JavaScript engine
    chooses; the other operations used are the IEEE-754 ones. *)
Class MathImpl := {
  Math_cos : float → float;
  Math_sin : float → float
}.

Module Positioning.

Local Open Scope float_scope.

Record Position := mkPosition { x : float; y : float }.

(** The part of a [NetworkNode] placement reads. *)
Record NetworkNode := mkNode { id : string; position : Position }.

Record Viewport := mkViewport { vx : float; vy : float; zoom : float }.

(** [window.innerWidth] and [window.innerHeight] *)
Record Window := mkWindow { innerWidth : float; innerHeight : float }.

(** One step of [Math.min]: NaN wins, then the smaller number, and -0 is
    below +0. *)
Definition minStep (lowest number : float) : float :=
  if is_nan lowest || is_nan number then nan
  else if is_zero number && get_sign number && is_zero lowest
          && negb (get_sign lowest) then number
  else if number <? lowest then number
  else lowest.

Definition maxStep (highest number : float) : float :=
  if is_nan highest || is_nan number then nan
  else if is_zero number && negb (get_sign number) && is_zero highest
          && get_sign highest then number
  else if highest <? number then number
  else highest.

(** [Math.min(...values)] and [Math.max(...values)] *)
Definition Math_min (values : list float) : float :=
  foldl minStep infinity values.

Definition Math_max (values : list float) : float :=
  foldl maxStep neg_infinity values.

Definition calculateSmartPosition (window : Window)
    (relatedNodes : list NetworkNode) (_allNodes : list NetworkNode)
    (viewport : option Viewport) : Position :=
  match relatedNodes with
  | [] =>
      match viewport with
      | Some viewport =>
          {| x := - vx viewport / zoom viewport
                  + (innerWidth window / 2) / zoom viewport;
             y := - vy viewport / zoom viewport
                  + (innerHeight window / 2) / zoom viewport |}
      | None => {| x := 0; y := 0 |}
      end
  | [relatedNode] =>
      let offset := 300 in
      {| x := x (position relatedNode) + offset;
         y := y (position relatedNode) + offset * 0.5 |}
  | _ =>
      let positions := position <$> relatedNodes in
      let minX := Math_min (x <$> positions) in
      let maxX := Math_max (x <$> positions) in
      let minY := Math_min (y <$> positions) in
      let maxY := Math_max (y <$> positions) in
      let centerX := (minX + maxX) / 2 in
      let centerY := (minY + maxY) / 2 in
      let offset := 250 in
      {| x := centerX + offset; y := centerY + offset |}
  end.

Definition hasPositionConflictWithin (minDistance : float)
    (position' : Position) (allNodes : list NetworkNode) : bool :=
  existsb (λ node,
    let dx := x (position node) - x position' in
    let dy := y (position node) - y position' in
    let distance := sqrt (dx * dx + dy * dy) in
    distance <? minDistance) allNodes.

(** [hasPositionConflict(position, allNodes)], with the default
    [minDistance = 200]. *)
Definition hasPositionConflict (position' : Position)
    (allNodes : list NetworkNode) : bool :=
  hasPositionConflictWithin 200 position' allNodes.

(** [Math.floor]: the greatest whole number that is not above the
    argument.  NaN, the infinities and the zeros are their own floor, and so
    is a number whose exponent is not negative, a whole number.  Otherwise
    the mantissa is cut at the binary point; the quotient is below 2^53 and
    is a JavaScript number as it stands. *)
Definition Math_floor (v : float) : float :=
  match Prim2SF v with
  | S754_finite sign mantissa exponent =>
      if (0 <=? exponent)%Z then v
      else
        let whole := (Z.pos mantissa / 2 ^ (- exponent))%Z in
        if sign then
          if (Z.pos mantissa mod 2 ^ (- exponent) =? 0)%Z
          then - of_uint63 (Uint63.of_Z whole)
          else - of_uint63 (Uint63.of_Z (whole + 1))
        else of_uint63 (Uint63.of_Z whole)
  | _ => v
  end.

Definition PI : float := 0x1.921fb54442d18p+1.

Definition step : float := 150.

(** [step * (1 + Math.floor(attempts / 8))] *)
Definition radiusOf (attempts : float) : float :=
  step * (1 + Math_floor (attempts / 8)).

(** [(attempts * 45) * (Math.PI / 180)] *)
Definition angleOf (attempts : float) : float :=
  (attempts * 45) * (PI / 180).

(** The candidate tried in the iteration that starts with the counter at
    [attempts]. *)
Definition candidate `{MathImpl} (desiredPosition : Position) (attempts : float)
    : Position :=
  {| x := x desiredPosition + radiusOf attempts * Math_cos (angleOf attempts);
     y := y desiredPosition + radiusOf attempts * Math_sin (angleOf attempts) |}.

(** The [while] loop, given [fuel] iterations: the position and the
    counter at exit, or [None] when the fuel is used up with the loop
    condition still true.  The counter [attempts] and the bound
    [maxAttempts] are JavaScript numbers: [attempts < maxAttempts] is the
    comparison of two doubles (false when [maxAttempts] is NaN), and
    [attempts++] adds 1 to a double. *)
Fixpoint spiralLoop `{MathImpl} (fuel : nat) (desiredPosition : Position)
    (allNodes : list NetworkNode) (maxAttempts : float)
    (position' : Position) (attempts : float) : option (Position * float) :=
  if hasPositionConflict position' allNodes && (attempts <? maxAttempts) then
    match fuel with
    | O => None
    | S fuel' =>
        spiralLoop fuel' desiredPosition allNodes maxAttempts
                   (candidate desiredPosition attempts) (attempts + 1)
    end
  else Some (position', attempts).

(** [findNonConflictingPosition(desiredPosition, allNodes, maxAttempts)]
    run for at most [fuel] iterations of its loop, from the desired
    position and the counter 0: the position returned, or [None] when the
    loop is still running after [fuel] iterations. *)
Definition findNonConflictingPosition `{MathImpl} (fuel : nat)
    (desiredPosition : Position) (allNodes : list NetworkNode)
    (maxAttempts : float) : option Position :=
  fst <$> spiralLoop fuel desiredPosition allNodes maxAttempts
                     desiredPosition 0.

Definition defaultMaxAttempts : float := 10.

End Positioning.

(** * Specification vocabulary *)

(** ** The root invariant *)

(** The persisted nodes of the graph whose kind is root. *)
Definition rootNodes (id : string) (db : DB) : gmap string Node.t :=
  filter (λ kn, Node.dagId kn.2 = id ∧ Node.type kn.2 = Some "root") (nodes db).

(** The graph has exactly one root node, [rootId], and it is at (0,0). *)
Definition rootInvariant (id rootId : string) (db : DB) : Prop :=
  ∃ n, rootNodes id db = {[ rootId := n ]} ∧ Node.x n = 0%float ∧ Node.y n = 0%float.

(** The client node carries kind root exactly when it is the root. *)
Definition marksRoot (rootId : string) (node : ClientNode.t) : bool :=
  bool_decide (ClientNode.type node = Some "root" ↔ ClientNode.id node = Some rootId).

Definition marksRootOnly (rootId : string) (body : SaveBody) : bool :=
  forallb (marksRoot rootId) (default [] (body_nodes body)).

(** [rootInvariant], spelled out on the lookups of the node table. *)
Definition rootAt (id r : string) (ns : gmap string Node.t) : Prop :=
  (∃ n, ns !! r = Some n ∧ Node.dagId n = id ∧ Node.type n = Some "root"
        ∧ Node.x n = 0%float ∧ Node.y n = 0%float)
  ∧ (∀ k n, ns !! k = Some n → Node.dagId n = id →
            Node.type n = Some "root" → k = r).

(** ** Full-state delete semantics *)

(** No non-root node and no edge of the graph is left. *)
Definition onlyRootsLeft (id : string) (db : DB) : Prop :=
  (∀ k n, nodes db !! k = Some n → Node.dagId n = id → Node.type n = Some "root")
  ∧ (∀ k e, edges db !! k = Some e → Edge.dagId e ≠ id).

(** ** Updates in place *)

(** The ids of the nodes the deletion step of a save removes. *)
Definition deletedNodeIds (id : string) (body : SaveBody) (db : DB) : gset string :=
  let sentNodeIds := omap ClientNode.id (default [] (body_nodes body)) in
  if (0 <? Z.of_nat (length sentNodeIds))
  then dom (filter (λ kn, nodeDeleteWhere id sentNodeIds kn.1 kn.2 = true) (nodes db))
  else ∅.

(** The columns a node update does not write. *)
Definition sameNodeIdentity (n n' : Node.t) : Prop :=
  Node.dagId n' = Node.dagId n ∧ Node.entityId n' = Node.entityId n.

(** The columns an edge update does not write. *)
Definition sameEdgeIdentity (e e' : Edge.t) : Prop :=
  Edge.dagId e' = Edge.dagId e ∧ Edge.sourceId e' = Edge.sourceId e
  ∧ Edge.targetId e' = Edge.targetId e
  ∧ Edge.createdFromEventId e' = Edge.createdFromEventId e.

(** ** Events and derived edges *)

(** The number of edges of a graph for an ordered pair of nodes. *)
Definition edgeCount (db : DB) (dagId sourceId targetId : string) : nat :=
  size (edgesBetween db dagId sourceId targetId).

(** No node with that id belongs to the graph. *)
Definition notInGraph (db : DB) (nodeId dagId : string) : Prop :=
  ∀ n, nodes db !! nodeId = Some n → Node.dagId n ≠ dagId.







(** [n] is one more than the greatest sort order among the events of the
    table that satisfy [P], and 0 when no event does. *)
Definition oneMoreThanMax (db : DB) (P : Event.t → Prop) (n : Z) : Prop :=
  (∀ k e, events db !! k = Some e → P e → Event.sortOrder e < n)
  ∧ ((∀ k e, events db !! k = Some e → ¬ P e) → n = 0)
  ∧ ((∃ k e, events db !! k = Some e ∧ P e) →
     ∃ k e, events db !! k = Some e ∧ P e ∧ n = Event.sortOrder e + 1).

(** ** Reordering *)

(** Every listed id is the id of an event of the graph on the day of
    [eventDate], and no id is listed twice. *)
Definition listedOnDay `{DateImpl} (db : DB) (dagId : string) (eventDate : Z)
    (eventIds : list string) : Prop :=
  NoDup eventIds
  ∧ ∀ eventId, eventId ∈ eventIds →
      ∃ e, events db !! eventId = Some e ∧ Event.dagId e = dagId
           ∧ onDayOf eventDate (Event.date e) = true.

(** ** Entities *)

(** The value of a hexadecimal digit as [encodeURIComponent] writes it. *)
Definition hexValue (c : ascii) : option N :=
  let n := N_of_ascii c in
  if ((48 <=? n) && (n <=? 57))%N then Some (n - 48)%N
  else if ((65 <=? n) && (n <=? 70))%N then Some (n - 55)%N
  else None.

(** Reading the escapes back: one escape below 128 is a code unit, an
    escape from 192 on starts a pair. *)
Fixpoint decodeEscapes (s : string) : option string :=
  match s with
  | EmptyString => Some EmptyString
  | String "%" (String h1 (String h2 rest)) =>
      match hexValue h1, hexValue h2 with
      | Some a, Some b =>
          let byte := (a * 16 + b)%N in
          if (byte <? 128)%N then String (ascii_of_N byte) <$> decodeEscapes rest
          else
            match rest with
            | String "%" (String h3 (String h4 rest')) =>
                match hexValue h3, hexValue h4 with
                | Some c, Some d =>
                    String (ascii_of_N ((byte - 192) * 64 + (c * 16 + d - 128)))
                      <$> decodeEscapes rest'
                | _, _ => None
                end
            | _ => None
            end
      | _, _ => None
      end
  | String c rest => String c <$> decodeEscapes rest
  end.

(** ** Placement *)

(** A JavaScript number that is not NaN. *)
Definition notNaN (v : float) : Prop := is_nan v = false.

(** The place of a number in the order of the floats: its class (negative
    infinity, negative, zero, positive, positive infinity), then exponent
    and mantissa, mirrored for the negative numbers. *)
Definition orderKey (f : spec_float) : Z * Z * Z :=
  match f with
  | S754_zero _ => (0, 0, 0)
  | S754_infinity s => (if s then -2 else 2, 0, 0)
  | S754_nan => (0, 0, 0)
  | S754_finite s m e => if s then (-1, - e, Z.neg m) else (1, e, Z.pos m)
  end.

Definition keyOf (f : float) : Z * Z * Z := orderKey (Prim2SF f).

(** The lexicographic comparison of two keys, and the strict order it
    decides. *)
Definition keyCompare (k1 k2 : Z * Z * Z) : comparison :=
  match k1.1.1 ?= k2.1.1 with
  | Eq => match k1.1.2 ?= k2.1.2 with
          | Eq => k1.2 ?= k2.2
          | c => c
          end
  | c => c
  end.

Definition keyLt (k1 k2 : Z * Z * Z) : Prop :=
  k1.1.1 < k2.1.1
  ∨ (k1.1.1 = k2.1.1 ∧ (k1.1.2 < k2.1.2 ∨ (k1.1.2 = k2.1.2 ∧ k1.2 < k2.2))).

(** The coordinates of the nodes. *)
Definition xsOf (nodes : list Positioning.NetworkNode) : list float :=
  Positioning.x <$> (Positioning.position <$> nodes).

Definition ysOf (nodes : list Positioning.NetworkNode) : list float :=
  Positioning.y <$> (Positioning.position <$> nodes).

(** The position lies between the least and the greatest coordinate of the
    nodes, on both axes. *)
Definition inBoundingBox (nodes : list Positioning.NetworkNode)
    (p : Positioning.Position) : Prop :=
  (Positioning.Math_min (xsOf nodes) <=? Positioning.x p)%float = true
  ∧ (Positioning.x p <=? Positioning.Math_max (xsOf nodes))%float = true
  ∧ (Positioning.Math_min (ysOf nodes) <=? Positioning.y p)%float = true
  ∧ (Positioning.y p <=? Positioning.Math_max (ysOf nodes))%float = true.

(** The JavaScript number of a whole number, for the whole numbers from 0
    to 2^53, which are JavaScript numbers as they stand. *)
Definition numberOf (k : Z) : float := of_uint63 (Uint63.of_Z k).

(** The greatest number of iterations the statements about the loop of
    [findNonConflictingPosition] cover. *)
Definition counterBound : Z := 1024.

(** [n] counts the values of the loop counter that are below
    [maxAttempts]: the counter values 0, 1, ..., [n]-1 are below it, and
    [n] is not.  For a whole number [maxAttempts] that is [maxAttempts]
    itself, for a fraction the next whole number, and 0 when [maxAttempts]
    is NaN or not positive. *)
Definition attemptsAllowed (maxAttempts : float) (n : Z) : Prop :=
  (∀ j, 0 ≤ j < n → (numberOf j <? maxAttempts)%float = true)
  ∧ (numberOf n <? maxAttempts)%float = false.


(** * Example data *)

Module Example.

Definition db0 : DB :=
  mkDB {[ "role-root" := Role.mk "Root" "official" true;
          "role-witness" := Role.mk "Witness" "witness" true ]}
       {[ "e0" := Entity.mk "Investigation" "role-root" "organization" None None;
          "e1" := Entity.mk "Alice" "role-witness" "human" None None;
          "e2" := Entity.mk "Bob" "role-witness" "human" None None ]}
       ∅ ∅ ∅
       {[ "g" := Dag.mk "Investigation" None ]}
       {[ "r" := Node.mk "g" "e0" 0 0 None (Some "root") ]}
       ∅ ∅.

Definition clientNode (id type : string) (px py : float) (entityId : string)
    : ClientNode.t :=
  ClientNode.mk (Some id) (Some type) (Some (px, py)) (Some entityId) None.

(** The root sent with another kind and another position. *)
Definition relabelRoot : SaveBody :=
  mkSaveBody (Some [clientNode "r" "custom" 5 5 "e0"]) (Some []).

(** A second node sent with kind root. *)
Definition secondRoot : SaveBody :=
  mkSaveBody (Some [clientNode "r" "root" 0 0 "e0";
                    clientNode "n1" "root" 7 7 "e1"]) (Some []).

(** The root omitted, then sent with another position. *)
Definition omitRoot : SaveBody :=
  mkSaveBody (Some [clientNode "n1" "custom" 300 150 "e1"]) (Some []).

Definition moveRoot : SaveBody :=
  mkSaveBody (Some [clientNode "r" "root" 40 40 "e0";
                    clientNode "n1" "custom" 300 150 "e1"]) (Some []).

(** The root, two more nodes and an edge between them. *)
Definition db1 : DB :=
  mkDB (roles db0) (entities db0) ∅ ∅ ∅ (dags db0)
       {[ "r" := Node.mk "g" "e0" 0 0 None (Some "root");
          "a" := Node.mk "g" "e1" 300 150 None (Some "custom");
          "b" := Node.mk "g" "e2" 600 300 None (Some "custom") ]}
       {[ "x1" := Edge.mk "g" "a" "b" None (Some "knows") None None None ]}
       ∅.

Definition emptyBody : SaveBody := mkSaveBody (Some []) (Some []).

Definition clientEdge (id source target : string) : ClientEdge.t :=
  ClientEdge.mk (Some id) (Some source) (Some target) None (Some "met") None None.

(** Node b omitted, and the edge x1 sent with the root as its target. *)
Definition retargetEdge : SaveBody :=
  mkSaveBody (Some [clientNode "r" "root" 0 0 "e0";
                    clientNode "a" "custom" 300 150 "e1"])
             (Some [clientEdge "x1" "a" "r"]).

(** All nodes kept; node a and the edge x1 sent with other references. *)
Definition rewriteReferences : SaveBody :=
  mkSaveBody (Some [clientNode "r" "root" 0 0 "e0";
                    clientNode "a" "custom" 10 20 "e2";
                    clientNode "b" "custom" 600 300 "e2"])
             (Some [clientEdge "x1" "b" "r"]).

(** A runtime in UTC whose date parser knows two days. *)
Definition utc : DateImpl :=
  {| parseDate s :=
       if String.eqb s "2024-03-01" then Some 1709251200000
       else if String.eqb s "2024-03-02" then Some 1709337600000
       else None;
     startOfDay t := t / 86400000 * 86400000;
     startOfNextDay t := (t / 86400000 + 1) * 86400000 |}.

(** The graph of [db1] with an event type, and a second graph with a node
    of its own. *)
Definition db2 : DB :=
  mkDB (roles db0) (entities db0) ∅
       {[ "et1" := EventType.mk "Meeting" None None ]}
       ∅
       {[ "g" := Dag.mk "Investigation" None; "h" := Dag.mk "Other" None ]}
       {[ "r" := Node.mk "g" "e0" 0 0 None (Some "root");
          "a" := Node.mk "g" "e1" 300 150 None (Some "custom");
          "b" := Node.mk "g" "e2" 600 300 None (Some "custom");
          "z" := Node.mk "h" "e2" 0 0 None (Some "root") ]}
       ∅ ∅.

Definition eventBody (title date : string) (source target : option string)
    (createEdge : bool) : EventBody.t :=
  EventBody.mk (Some title) None (Some date) None None None None (Some "et1")
               source target None createEdge (Some "g").

Definition meeting : EventBody.t :=
  eventBody "Meeting" "2024-03-01" (Some "a") (Some "b") true.

(** The target is a node of the other graph. *)
Definition crossGraph : EventBody.t :=
  eventBody "Meeting" "2024-03-01" (Some "a") (Some "z") true.


(** A request with a series day and no date. *)
Definition onSeriesDay (title : string) (seriesDay : Z) : EventBody.t :=
  EventBody.mk (Some title) None None (Some seriesDay) None None None
               (Some "et1") (Some "a") None None false (Some "g").

Definition dated (title : string) (date sortOrder : Z) : Event.t :=
  Event.mk title None (Some date) None sortOrder "et1" "g" None (Some "a") None
           [] [] None.

(** Three events on 2024-03-01 and one on the next day. *)
Definition db3 : DB :=
  mkDB (roles db2) (entities db2) ∅ (eventTypes db2) ∅ (dags db2) (nodes db2) ∅
       {[ "ev1" := dated "Arrest" 1709251200000 0;
          "ev2" := dated "Hearing" 1709290800000 1;
          "ev3" := dated "Statement" 1709294400000 4;
          "ev4" := dated "Verdict" 1709337600000 9 ]}.

Definition inSeries (title : string) (seriesDay sortOrder : Z) : Event.t :=
  Event.mk title None None (Some seriesDay) sortOrder "et1" "g" None (Some "a")
           None [] [] None.

(** Two events on series day 3, one on series day 4, and a dated one. *)
Definition db4 : DB :=
  mkDB (roles db2) (entities db2) ∅ (eventTypes db2) ∅ (dags db2) (nodes db2) ∅
       {[ "s1" := inSeries "Briefing" 3 0;
          "s2" := inSeries "Search" 3 2;
          "s3" := inSeries "Report" 4 7;
          "ev1" := dated "Arrest" 1709251200000 5 ]}.

Definition reorderBody (eventIds : list string) : ReorderBody.t :=
  ReorderBody.mk (Some "g") (Some "2024-03-01") (Some eventIds).

Definition entityBody (name roleId : string) : EntityBody.t :=
  EntityBody.mk (Some name) (Some roleId) None None.

(** A runtime whose cosine and sine are short Taylor polynomials. *)
Definition taylor : MathImpl :=
  {| Math_cos a := (1 - a * a / 2 + a * a * a * a / 24)%float;
     Math_sin a := (a - a * a * a / 6 + a * a * a * a * a / 120)%float |}.

Definition placed (id : string) (px py : float) : Positioning.NetworkNode :=
  Positioning.mkNode id (Positioning.mkPosition px py).

Definition window : Positioning.Window := Positioning.mkWindow 1280 720.

End Example.


(** * Further routes and helpers *)

(** ** Saving the graph: what an upsert writes *)

(** The columns a node update writes. *)
Definition sameNodeContent (n n' : Node.t) : Prop :=
  Node.x n' = Node.x n ∧ Node.y n' = Node.y n
  ∧ Node.category n' = Node.category n ∧ Node.type n' = Node.type n.

(** The columns an edge update writes. *)
Definition sameEdgeContent (e e' : Edge.t) : Prop :=
  Edge.relationshipTypeId e' = Edge.relationshipTypeId e
  ∧ Edge.label e' = Edge.label e
  ∧ Edge.sourceHandle e' = Edge.sourceHandle e
  ∧ Edge.targetHandle e' = Edge.targetHandle e.

(** The node is out of reach of the deletion step of a save of graph
    [id]: it belongs to another graph, it is a root, or it has no type. *)
Definition exemptFromDeletion (id : string) (n : Node.t) : Prop :=
  Node.dagId n ≠ id ∨ Node.type n = Some "root" ∨ Node.type n = None.

(** Every edge of the table joins two nodes of the node table. *)
Definition edgesResolve (db : DB) : Prop :=
  ∀ k e, edges db !! k = Some e →
         Edge.sourceId e ∈ dom (nodes db) ∧ Edge.targetId e ∈ dom (nodes db).

(** ** Strings without surrounding white space *)

(** The string is what [trim] makes of itself. *)
Definition trimmed (s : string) : Prop := Js.trim s = s.

(** ** Events: the row a creation leaves *)

(** The event with the id of its edge filled in. *)
Definition withCreatedEdge (edgeId : option string) (e : Event.t) : Event.t :=
  Event.mk (Event.title e) (Event.description e) (Event.date e)
           (Event.seriesDay e) (Event.sortOrder e) (Event.eventTypeId e)
           (Event.dagId e) (Event.sourceDagId e) (Event.sourceNodeId e)
           (Event.targetNodeId e) (Event.participantNodes e)
           (Event.tags e) edgeId.

(** ** Placement: numbers that are neither NaN nor infinite *)

Definition finiteNumber (v : float) : Prop :=
  match Prim2SF v with
  | S754_zero _ | S754_finite _ _ _ => True
  | S754_infinity _ | S754_nan => False
  end.

(** ** The Root role (src/app/api/dag/[id]/route.ts, src/app/api/dags/route.ts) *)

Definition set_roles (f : gmap string Role.t → gmap string Role.t) (db : DB) : DB :=
  mkDB (f (roles db)) (entities db) (relationshipTypes db) (eventTypes db) (tags db)
       (dags db) (nodes db) (edges db) (events db).

Definition set_dags (f : gmap string Dag.t → gmap string Dag.t) (db : DB) : DB :=
  mkDB (roles db) (entities db) (relationshipTypes db) (eventTypes db) (tags db)
       (f (dags db)) (nodes db) (edges db) (events db).

(** [prisma.role.findFirst({ where: { name } })] and
    [prisma.role.findUnique({ where: { name } })]: the column [name] is
    unique. *)
Definition findRoleByName (db : DB) (name : string) : option (string * Role.t) :=
  head (map_to_list (filter (λ kr, Role.name kr.2 = name) (roles db))).

(** Get or create the Root role: the database and the id of the role. *)
Definition rootRole (db : DB) : DB * string :=
  match findRoleByName db "Root" with
  | Some (k, _) => (db, k)
  | None =>
      let k := fresh (dom (roles db)) in
      (set_roles (insert k (Role.mk "Root" "official" true)) db, k)
  end.

(** ** GET /api/dag/[id]: fetch the graph

    The first document of src/app/api/dag/[id]/route.ts.  The handler
    creates what is missing (the graph, its root node) before it answers;
    it runs outside a transaction, so what it created stays when the
    transformation of the rows throws. *)

(** [s.slice(-n)] *)
Definition sliceLast (n : nat) (s : string) : string :=
  String.substring (String.length s - n) n s.

(** The nodes of a graph: [dag.nodes]. *)
Definition nodesOfDag (db : DB) (id : string) : gmap string Node.t :=
  filter (λ kn, Node.dagId kn.2 = id) (nodes db).

(** The edges of a graph: [dag.edges]. *)
Definition edgesOfDag (db : DB) (id : string) : gmap string Edge.t :=
  filter (λ ke, Edge.dagId ke.2 = id) (edges db).

(** [dag.nodes.some(n => n.type === 'root')] *)
Definition hasRoot (ns : gmap string Node.t) : bool :=
  existsb (λ kn, bool_decide (Node.type kn.2 = Some "root")) (map_to_list ns).

(** The seed graph of an unknown id: the Root role, an entity named after
    the last six characters of the id, the graph and its root node. *)
Definition createSeedDag (id : string) (db : DB) : DB * Dag.t :=
  let '(db1, roleId) := rootRole db in
  let name := "Investigation " +:+ sliceLast 6 id in
  let entityId := fresh (dom (entities db1)) in
  let db2 :=
    set_entities (insert entityId
      (Entity.mk name roleId "organization" None None)) db1 in
  let dag := Dag.mk name None in
  let db3 := set_dags (insert id dag) db2 in
  let nodeId := fresh (dom (nodes db3)) in
  (set_nodes (insert nodeId (Node.mk id entityId 0 0 None (Some "root"))) db3,
   dag).

(** The root node of a graph that has none: an entity named after the
    graph, and a root node at the origin. *)
Definition createMissingRoot (id : string) (dag : Dag.t) (db : DB) : DB :=
  let '(db1, roleId) := rootRole db in
  let entityId := fresh (dom (entities db1)) in
  let db2 :=
    set_entities (insert entityId
      (Entity.mk (Dag.name dag) roleId "organization"
                 (Js.orNull (Dag.description dag)) None)) db1 in
  let nodeId := fresh (dom (nodes db2)) in
  set_nodes (insert nodeId (Node.mk id entityId 0 0 None (Some "root"))) db2.

(** What the handler does to the database before it answers. *)
Definition ensureGraph (id : string) (db : DB) : DB :=
  let '(db1, dag) :=
    match dags db !! id with
    | Some dag => (db, dag)
    | None => createSeedDag id db
    end in
  if hasRoot (nodesOfDag db1 id) then db1 else createMissingRoot id dag db1.

Module RootLabels.
(** The columns [rootLabelTop], [rootLabelBottom], [rootLabelLeft] and
    [rootLabelRight] of a graph. *)
Record t := mk {
  rootLabelTop : option string;
  rootLabelBottom : option string;
  rootLabelLeft : option string;
  rootLabelRight : option string
}.
Definition none : t := mk None None None None.
End RootLabels.

(** What the handler reads besides the tables of [DB]: the root labels
    of the graphs (a graph without an entry has none), and the names of the
    relationship types. *)
Record Catalog := mkCatalog {
  rootLabels : gmap string RootLabels.t;
  relationshipNames : gmap string string
}.

Module NodeView.
(** A node in the frontend format. *)
Record t := mk {
  id : string;
  type : string;
  position : float * float;
  label : string;
  roleId : string;
  role : string;
  category : string;
  description : option string;
  avatar : option string;
  entityId : string;
  directionLabels : option RootLabels.t
}.
End NodeView.

Module EdgeView.
(** An edge in the frontend format, without its constant styling. *)
Record t := mk {
  id : string;
  source : string;
  target : string;
  label : option string;
  relationshipTypeId : option string;
  sourceHandle : option string;
  targetHandle : option string
}.
End EdgeView.

(** The body of the answer: the nodes, the edges, and of [dag] its name,
    its description and its counts of nodes, edges and events. *)
Record GraphView := mkGraphView {
  view_nodes : list NodeView.t;
  view_edges : list EdgeView.t;
  view_name : string;
  view_description : option string;
  view_count : nat * nat * nat
}.

(** The direction labels of a root node, when the graph has any. *)
Definition directionLabelsOf (nodeType : string) (labels : RootLabels.t)
    : option RootLabels.t :=
  if String.eqb nodeType "root"
     && (Js.truthy (RootLabels.rootLabelTop labels)
         || Js.truthy (RootLabels.rootLabelBottom labels)
         || Js.truthy (RootLabels.rootLabelLeft labels)
         || Js.truthy (RootLabels.rootLabelRight labels))
  then Some (RootLabels.mk (Js.orNull (RootLabels.rootLabelTop labels))
                           (Js.orNull (RootLabels.rootLabelBottom labels))
                           (Js.orNull (RootLabels.rootLabelLeft labels))
                           (Js.orNull (RootLabels.rootLabelRight labels)))
  else None.

(** One node in the frontend format; [None] when the transformation
    throws: the node has no entity, or the entity has no role. *)
Definition toNetworkNode (labels : RootLabels.t) (db : DB)
    (k : string) (node : Node.t) : option NodeView.t :=
  match entities db !! Node.entityId node with
  | None => None
  | Some entity =>
      let nodeType :=
        nodeTypeOf (bool_decide (Node.type node = Some "root"))
                   (roleNameOf db entity) in
      match roles db !! Entity.roleId entity with
      | None => None
      | Some roleLink =>
          Some (NodeView.mk k nodeType (Node.x node, Node.y node)
                  (Entity.name entity) (Entity.roleId entity)
                  (Role.name roleLink)
                  (if Js.truthy (Node.category node)
                   then default "" (Node.category node)
                   else Role.category roleLink)
                  (Js.orNull (Entity.description entity))
                  (Js.orNull (Entity.avatar entity))
                  (Node.entityId node)
                  (directionLabelsOf nodeType labels))
      end
  end.

(** [edge.relationshipLink?.name || edge.label || undefined] *)
Definition edgeLabelOf (catalog : Catalog) (edge : Edge.t) : option string :=
  let name := Edge.relationshipTypeId edge ≫= (relationshipNames catalog !!.) in
  if Js.truthy name then name else Js.orNull (Edge.label edge).

Definition toFrontendEdge (catalog : Catalog) (k : string) (edge : Edge.t)
    : EdgeView.t :=
  EdgeView.mk k (Edge.sourceId edge) (Edge.targetId edge)
              (edgeLabelOf catalog edge)
              (Js.orNull (Edge.relationshipTypeId edge))
              (Js.orNull (Edge.sourceHandle edge))
              (Js.orNull (Edge.targetHandle edge)).

(** The root labels of the graph the handler answers about: those of the
    catalog for a graph that was there, none for one it has just created. *)
Definition labelsOf (catalog : Catalog) (id : string) (db : DB) : RootLabels.t :=
  match dags db !! id with
  | Some _ => default RootLabels.none (rootLabels catalog !! id)
  | None => RootLabels.none
  end.

Definition fetchGraph (catalog : Catalog) (id : string) (db : DB)
    : DB * Response GraphView :=
  let db' := ensureGraph id db in
  let labels := labelsOf catalog id db in
  match mapM (λ kn, toNetworkNode labels db' kn.1 kn.2)
             (map_to_list (nodesOfDag db' id)),
        dags db' !! id with
  | Some nodeViews, Some dag =>
      (db',
       Json (mkGraphView nodeViews
               ((λ ke, toFrontendEdge catalog ke.1 ke.2)
                  <$> map_to_list (edgesOfDag db' id))
               (Dag.name dag) (Dag.description dag)
               (size (nodesOfDag db' id), size (edgesOfDag db' id),
                size (filter (λ ke, Event.dagId ke.2 = id) (events db')))))
  | _, _ => (db', Failure 500 "Failed to fetch DAG")
  end.

(** The graph has a root node. *)
Definition rooted (id : string) (db : DB) : Prop :=
  ∃ k n, nodes db !! k = Some n ∧ Node.dagId n = id ∧ Node.type n = Some "root".

(** No node belongs to a graph that is not in the graph table (the
    foreign key of [DAGNode.dagId]). *)
Definition nodesInGraphs (db : DB) : Prop :=
  ∀ k n, nodes db !! k = Some n → is_Some (dags db !! Node.dagId n).

(** ** POST /api/dags: create a graph (src/app/api/dags/route.ts) *)

Module DagBody.
(** The fields of the body, for a body whose fields are strings: a field
    is [None] when it is absent or null. *)
Record t := mk { name : option string; description : option string }.
End DagBody.

(** The answer: the id of the graph, its row, and the id of its root
    node ([dag.nodes[0].id]). *)
Record DagCreated := mkDagCreated {
  created_id : string;
  created_dag : Dag.t;
  created_root : string
}.

Definition createDag (body : DagBody.t) (db : DB) : DB * Response DagCreated :=
  if negb (Js.truthy (DagBody.name body))
     || (String.length (Js.trim (default "" (DagBody.name body))) =? 0)%nat
  then (db, Failure 400 "DAG name is required")
  else
    let name := Js.trim (default "" (DagBody.name body)) in
    let description := Js.orNull (Js.trim <$> DagBody.description body) in
    let '(db1, roleId) := rootRole db in
    let entityId := fresh (dom (entities db1)) in
    let db2 :=
      set_entities (insert entityId
        (Entity.mk name roleId "organization" description None)) db1 in
    let dagId := fresh (dom (dags db2)) in
    let dag := Dag.mk name description in
    let db3 := set_dags (insert dagId dag) db2 in
    let nodeId := fresh (dom (nodes db3)) in
    (set_nodes (insert nodeId (Node.mk dagId entityId 0 0 None (Some "root"))) db3,
     Json (mkDagCreated dagId dag nodeId)).

(** ** POST /api/roles: create a role

    The second document of src/app/api/dag/[id]/route.ts. *)

Module RoleBody.
(** A field is [None] when it is absent or not a string. *)
Record t := mk { name : option string; category : option string }.
End RoleBody.

Definition roleCategories : list string :=
  ["official"; "law_enforcement"; "political"; "business"; "witness";
   "suspect"; "victim"; "civilian"].

(** [CreateRoleSchema.parse(body)]: the name is a string of at least one
    code unit, the category one of the eight. *)
Definition parseCreateRole (body : RoleBody.t) : option (string * string) :=
  match RoleBody.name body, RoleBody.category body with
  | Some name, Some category =>
      if (String.length name <? 1)%nat then None
      else if bool_decide (category ∈ roleCategories) then Some (name, category)
      else None
  | _, _ => None
  end.

(** The handler returns the role of that name when there is one, and
    creates the role under the trimmed name otherwise; the unique name
    refuses a trimmed name that is taken. *)
Definition createRole (body : RoleBody.t) (db : DB)
    : DB * Response (string * Role.t) :=
  match parseCreateRole body with
  | None => (db, Failure 400 "Invalid data")
  | Some (name, category) =>
      match findRoleByName db name with
      | Some (k, existingRole) => (db, Json (k, existingRole))
      | None =>
          match findRoleByName db (Js.trim name) with
          | Some _ => (db, Failure 500 "Failed to create role")
          | None =>
              let k := fresh (dom (roles db)) in
              let role := Role.mk (Js.trim name) category false in
              (set_roles (insert k role) db, Json (k, role))
          end
      end
  end.

(** No two roles have the same name. *)
Definition uniqueRoleNames (db : DB) : Prop :=
  ∀ k1 k2 r1 r2, roles db !! k1 = Some r1 → roles db !! k2 = Some r2 →
                 Role.name r1 = Role.name r2 → k1 = k2.

(** ** GET /api/roles: the roles by category

    The [reduce] of the handler.  The accumulator is a plain object: a key
    that [Object.prototype] defines is found there, is no array, and the
    [push] throws. *)

Definition inheritedKeys : list string :=
  ["constructor"; "__defineGetter__"; "__defineSetter__"; "hasOwnProperty";
   "__lookupGetter__"; "__lookupSetter__"; "isPrototypeOf";
   "propertyIsEnumerable"; "toString"; "valueOf"; "__proto__";
   "toLocaleString"].

(** One step of the [reduce]; [None] when it throws. *)
Definition groupStep (acc : gmap string (list (string * Role.t)))
    (role : string * Role.t) : option (gmap string (list (string * Role.t))) :=
  let category := Role.category role.2 in
  if bool_decide (category ∈ inheritedKeys) then None
  else Some (<[category := default [] (acc !! category) ++ [role]]> acc).

Fixpoint groupRoles (acc : gmap string (list (string * Role.t)))
    (roles : list (string * Role.t))
    : option (gmap string (list (string * Role.t))) :=
  match roles with
  | [] => Some acc
  | role :: rest =>
      match groupStep acc role with
      | Some acc' => groupRoles acc' rest
      | None => None
      end
  end.

(** [rolesByCategory] of a list of roles. *)
Definition rolesByCategory (roles : list (string * Role.t))
    : option (gmap string (list (string * Role.t))) :=
  groupRoles ∅ roles.

(** ** roleUtils: the category of a role title (unnamed/part_006) *)

(** [keys.some(k => r.includes(k))] *)
Definition includesSome (r : string) (keys : list string) : bool :=
  existsb (Js.includes r) keys.

Definition getRoleCategory (role : string) : string :=
  let r := Js.toLowerCase role in
  if includesSome r ["police"; "crime"; "hawks"; "private investigator";
                     "informant"] then "law_enforcement"
  else if includesSome r ["minister"; "parliament"; "delegate"; "fixer";
                          "gov_official"] then "political"
  else if includesSome r ["commissioner"; "chairperson"; "investigator";
                          "legal counsel"; "clerk"; "official"] then "official"
  else if includesSome r ["witness"; "whistleblower"] then "witness"
  else if includesSome r ["suspect"; "crime boss"; "associate"; "accused";
                          "enabler"] then "suspect"
  else if includesSome r ["victim"; "target"] then "victim"
  else if includesSome r ["business"; "holding"; "corp"; "company";
                          "subsidiary"] then "business"
  else "civilian".

(** ** GET /api/events: the events of a graph (unnamed/part_002)

    The [where] object of the query, and the events it selects; the order
    of the answer (by date, series day, sort order and creation time) is
    not part of this model. *)

Definition eventWhere (dagId : string) (nodeId : option string) (e : Event.t)
    : bool :=
  bool_decide (Event.dagId e = dagId)
  && (if Js.truthy nodeId then
        bool_decide (Event.sourceNodeId e = nodeId)
        || bool_decide (Event.targetNodeId e = nodeId)
        || bool_decide (default "" nodeId ∈ Event.participantNodes e)
      else true).

Definition listEvents (dagId nodeId : option string) (db : DB)
    : Response (gmap string Event.t) :=
  if negb (Js.truthy dagId) then Failure 400 "DAG ID required"
  else Json (filter (λ ke, eventWhere (default "" dagId) nodeId ke.2 = true)
                    (events db)).

(** ** PUT /api/entities/[id]: update an entity
    (src/app/api/entities/[id]/route.ts) *)

Module EntityPatch.
(** The fields of the body that are present (as strings):
    [description] is [Some None] for an explicit null. *)
Record t := mk {
  name : option string;
  roleId : option string;
  description : option (option string);
  entityType : option string
}.
End EntityPatch.

(** [UpdateEntitySchema.parse(body)] accepts the body. *)
Definition validEntityPatch (patch : EntityPatch.t) : bool :=
  match EntityPatch.name patch with
  | Some name => negb (String.length name <? 2)%nat
  | None => true
  end
  && match EntityPatch.entityType patch with
     | Some entityType =>
         bool_decide (entityType ∈ ["human"; "company"; "organization"])
     | None => true
     end.

(** The [data] of the update applied to the stored entity. *)
Definition patchedEntity (patch : EntityPatch.t) (e : Entity.t) : Entity.t :=
  Entity.mk
    (if Js.truthy (EntityPatch.name patch)
     then default "" (EntityPatch.name patch) else Entity.name e)
    (if Js.truthy (EntityPatch.roleId patch)
     then default "" (EntityPatch.roleId patch) else Entity.roleId e)
    (if Js.truthy (EntityPatch.entityType patch)
     then default "" (EntityPatch.entityType patch) else Entity.entityType e)
    (match EntityPatch.description patch with
     | Some description => description
     | None => Entity.description e
     end)
    (Entity.avatar e).

Definition updateEntity (id : string) (patch : EntityPatch.t) (db : DB)
    : DB * Response Entity.t :=
  if negb (validEntityPatch patch) then (db, Failure 400 "Invalid data")
  else
    match entities db !! id with
    | None => (db, Failure 404 "Entity not found")
    | Some existingEntity =>
        if Js.truthy (EntityPatch.roleId patch)
           && negb (bool_decide
                      (is_Some (roles db !! default "" (EntityPatch.roleId patch))))
        then (db, Failure 400 "Invalid role ID")
        else
          let updatedEntity := patchedEntity patch existingEntity in
          (set_entities (insert id updatedEntity) db,
           Json (Entity.mk (Entity.name updatedEntity)
                           (Entity.roleId updatedEntity)
                           (Entity.entityType updatedEntity)
                           (Js.orNull (Entity.description updatedEntity))
                           (Js.orNull (Entity.avatar updatedEntity))))
    end.

(** ** The characters of a URL that need no escape *)

(** The characters [encodeURIComponent] writes: the unreserved ones and
    the percent sign of its escapes. *)
Definition urlSafe (c : ascii) : bool :=
  Uri.unreserved c || Ascii.eqb c "%".

(** * More example data *)

Module Sample.

(** A request that names a custom event type. *)
Definition customBody (title date typeName : string) : EventBody.t :=
  EventBody.mk (Some title) None (Some date) None None None (Some typeName) None
               (Some "a") (Some "b") None false (Some "g").

(** The example graph after the event "Meeting" from a to b has been
    created with its edge, and the id of that event. *)
Definition withMeeting : DB :=
  (@createEvent Example.utc Example.meeting Example.db2).1.

Definition meetingId : string := fresh (dom (events Example.db2)).

(** The event moved to run from b to the root, under another title. *)
Definition retitled : EventBody.t :=
  Example.eventBody "Second meeting" "2024-03-02" (Some "b") (Some "r") true.

(** No root labels and no relationship types. *)
Definition catalog : Catalog := mkCatalog ∅ ∅.

(** Two roles of one category and one of another, in list order. *)
Definition someRoles : list (string * Role.t) :=
  [("r1", Role.mk "Witness" "witness" true);
   ("r2", Role.mk "Minister" "political" true);
   ("r3", Role.mk "Whistleblower" "witness" false)].

End Sample.

(** * The auto-save debouncer (src/lib/autoSave.ts)

    The class [AutoSave] holds a timer id and a flag, and acts on the
    timers of the runtime, on one item of localStorage and on the callbacks
    of its options.  Its methods run to completion one at a time; the two
    things that happen between them are events of their own: the runtime
    runs the callback of a timer that is due, and the promise that [onSave]
    returned settles, which resumes [save] after its [await].  The model is
    untimed: a scheduled timer can run at any later moment.  The callbacks
    are taken not to throw and not to call the object. *)

Module AutoSave.

(** The callbacks of [AutoSaveOptions], as entries of the record of calls. *)
Inductive Callback : Type :=
| OnSaveStart
| OnSave
| OnSaveSuccess
| OnSaveError.

Definition sameCallback (c c' : Callback) : bool :=
  match c, c' with
  | OnSaveStart, OnSaveStart | OnSave, OnSave
  | OnSaveSuccess, OnSaveSuccess | OnSaveError, OnSaveError => true
  | _, _ => false
  end.

(** [this.options], the callbacks apart. *)
Record Options := mkOptions {
  delay : Z;
  enableLocalStorage : bool
}.

(** The value kept under the key 'madlanga_autosave_backup'. *)
Record Backup (A : Type) := mkBackup {
  data : A;
  timestamp : string
}.
Arguments mkBackup {A} _ _.
Arguments data {A} _.
Arguments timestamp {A} _.

(** The fields of the object, [timeoutId], [isSaving] and [pendingData],
    and what the object acts on: the timers that are scheduled and have
    neither run nor been cleared, each with its delay (the callback of
    every one of them is [this.save()]); the id the runtime gives to the
    next timer; the item of localStorage; the number of calls of [onSave]
    whose promise has not settled; the callbacks called so far, the latest
    first. *)
Record State (A : Type) := mkState {
  timeoutId : option positive;
  isSaving : bool;
  pendingData : option A;
  timers : gmap positive Z;
  nextTimer : positive;
  backup : option (Backup A);
  unsettled : nat;
  calls : list Callback
}.
Arguments mkState {A} _ _ _ _ _ _ _ _.
Arguments timeoutId {A} _.
Arguments isSaving {A} _.
Arguments pendingData {A} _.
Arguments timers {A} _.
Arguments nextTimer {A} _.
Arguments backup {A} _.
Arguments unsettled {A} _.
Arguments calls {A} _.

(** [new AutoSave(options)], with the item localStorage holds. *)
Definition new {A} (stored : option (Backup A)) : State A :=
  mkState None false None ∅ 1%positive stored 0%nat [].

(** [clearTimeout(id)]: nothing happens when the timer is not scheduled. *)
Definition clearTimeout {A} (id : positive) (s : State A) : State A :=
  mkState (timeoutId s) (isSaving s) (pendingData s) (delete id (timers s))
          (nextTimer s) (backup s) (unsettled s) (calls s).

(** [this.timeoutId = setTimeout(() => this.save(), delay)]. *)
Definition scheduleSave {A} (opts : Options) (s : State A) : State A :=
  mkState (Some (nextTimer s)) (isSaving s) (pendingData s)
          (<[nextTimer s := delay opts]> (timers s))
          (Pos.succ (nextTimer s)) (backup s) (unsettled s) (calls s).

(** [trigger(data)].  A falsy argument (none, null, 0, the empty string)
    is [None].  [now] is the time stamp of the backup; [stored] tells
    whether [JSON.stringify] and [localStorage.setItem] returned: when one
    of them throws, the method warns and carries on. *)
Definition trigger {A} (opts : Options) (data : option A) (now : string)
    (stored : bool) (s : State A) : State A :=
  let s1 :=
    match timeoutId s with
    | Some id => clearTimeout id s
    | None => s
    end in
  let s2 :=
    match data with
    | Some d =>
        mkState (timeoutId s1) (isSaving s1) (Some d) (timers s1)
                (nextTimer s1) (backup s1) (unsettled s1) (calls s1)
    | None => s1
    end in
  let s3 :=
    match data with
    | Some d =>
        if enableLocalStorage opts && stored
        then mkState (timeoutId s2) (isSaving s2) (pendingData s2) (timers s2)
                     (nextTimer s2) (Some (mkBackup d now)) (unsettled s2)
                     (calls s2)
        else s2
    | None => s2
    end in
  scheduleSave opts s3.

(** [save()] up to its [await]: while a save is running it schedules
    itself again; otherwise it raises the flag and calls [onSaveStart] and
    [onSave]. *)
Definition save {A} (opts : Options) (s : State A) : State A :=
  if isSaving s then scheduleSave opts s
  else mkState (timeoutId s) true (pendingData s) (timers s) (nextTimer s)
               (backup s) (S (unsettled s)) (OnSave :: OnSaveStart :: calls s).

(** [save()] from its [await] on.  [fulfilled] tells whether the promise
    of [onSave] was fulfilled or rejected, [removed] whether
    [localStorage.removeItem] returned. *)
Definition resume {A} (opts : Options) (fulfilled removed : bool)
    (s : State A) : State A :=
  mkState None false (pendingData s) (timers s) (nextTimer s)
          (if fulfilled && enableLocalStorage opts && removed
           then None else backup s)
          (Nat.pred (unsettled s))
          ((if fulfilled then OnSaveSuccess else OnSaveError) :: calls s).

(** [saveImmediate()] up to the [await] of [save]. *)
Definition saveImmediate {A} (opts : Options) (s : State A) : State A :=
  let s1 :=
    match timeoutId s with
    | Some id =>
        let s' := clearTimeout id s in
        mkState None (isSaving s') (pendingData s') (timers s') (nextTimer s')
                (backup s') (unsettled s') (calls s')
    | None => s
    end in
  save opts s1.

(** [cancel()]. *)
Definition cancel {A} (s : State A) : State A :=
  match timeoutId s with
  | Some id =>
      let s' := clearTimeout id s in
      mkState None (isSaving s') (pendingData s') (timers s') (nextTimer s')
              (backup s') (unsettled s') (calls s')
  | None => s
  end.

(** [AutoSave.hasBackup()], [AutoSave.getBackup()] when localStorage can
    be read. *)
Definition getBackup {A} (s : State A) : option (Backup A) := backup s.

Definition hasBackup {A} (s : State A) : bool :=
  bool_decide (is_Some (backup s)).

(** What can happen to the object: a call of one of its methods, the
    runtime running a timer, and the promise of [onSave] settling. *)
Inductive Event (A : Type) : Type :=
| Trigger (data : option A) (now : string) (stored : bool)
| SaveImmediate
| Cancel
| Fire (id : positive)
| Settle (fulfilled removed : bool).
Arguments Trigger {A} _ _ _.
Arguments SaveImmediate {A}.
Arguments Cancel {A}.
Arguments Fire {A} _.
Arguments Settle {A} _ _.

(** One event.  A timer runs only while it is scheduled, and the runtime
    takes it off its list as it runs it; a promise settles only when a call
    of [onSave] is waiting for it. *)
Definition step {A} (opts : Options) (ev : Event A) (s : State A)
    : option (State A) :=
  match ev with
  | Trigger data now stored => Some (trigger opts data now stored s)
  | SaveImmediate => Some (saveImmediate opts s)
  | Cancel => Some (cancel s)
  | Fire id =>
      match timers s !! id with
      | Some _ => Some (save opts (clearTimeout id s))
      | None => None
      end
  | Settle fulfilled removed =>
      match unsettled s with
      | O => None
      | S _ => Some (resume opts fulfilled removed s)
      end
  end.

(** The events of a list, one after the other. *)
Fixpoint run {A} (opts : Options) (evs : list (Event A)) (s : State A)
    : option (State A) :=
  match evs with
  | [] => Some s
  | ev :: evs' =>
      match step opts ev s with
      | Some s' => run opts evs' s'
      | None => None
      end
  end.

(** The number of calls of a callback so far. *)
Definition called {A} (c : Callback) (s : State A) : nat :=
  length (List.filter (sameCallback c) (calls s)).

(** What ties the flag to the calls: the flag is up exactly while one call
    of [onSave] is unsettled, every call of [onSave] follows a call of
    [onSaveStart], and every settled one was answered once. *)
Definition flagCounts {A} (s : State A) : Prop :=
  unsettled s = (if isSaving s then 1 else 0)%nat
  ∧ called OnSaveStart s = called OnSave s
  ∧ called OnSave s
    = (called OnSaveSuccess s + called OnSaveError s + unsettled s)%nat.

(** Every scheduled timer is the one the object holds the id of. *)
Definition tracked {A} (s : State A) : Prop :=
  ∀ id, is_Some (timers s !! id) → timeoutId s = Some id.

(** The options the class defaults to: five seconds, with the backup. *)
Definition defaults : Options := mkOptions 5000 true.

End AutoSave.

(** * Properties *)

(** ** Saving the graph *)

Lemma rootInvariant_lookup id r db :
  rootInvariant id r db ↔
  (∃ n, nodes db !! r = Some n ∧ Node.dagId n = id ∧ Node.type n = Some "root"
        ∧ Node.x n = 0%float ∧ Node.y n = 0%float)
  ∧ (∀ k n, nodes db !! k = Some n → Node.dagId n = id →
            Node.type n = Some "root" → k = r).
Proof.
  unfold rootInvariant, rootNodes.
  set (isRoot := λ kn : string * Node.t,
         Node.dagId kn.2 = id ∧ Node.type kn.2 = Some "root").
  split.
  - intros (n & Heq & Hx & Hy). split.
    + exists n.
      assert (H : filter isRoot (nodes db) !! r = Some n)
        by (rewrite Heq; apply lookup_singleton_eq).
      apply map_lookup_filter_Some in H as (H1 & H2 & H3). done.
    + intros k m Hk Hd Ht.
      assert (H : filter isRoot (nodes db) !! k = Some m)
        by (by apply map_lookup_filter_Some).
      rewrite Heq in H. apply lookup_singleton_Some in H. by destruct H.
  - intros ((n & Hn & Hd & Ht & Hx & Hy) & Huniq).
    exists n. split; [|done].
    apply map_eq. intros k. destruct (decide (k = r)) as [->|Hne].
    + rewrite lookup_singleton_eq. by apply map_lookup_filter_Some.
    + rewrite lookup_singleton_ne by done.
      apply map_lookup_filter_None. right. intros m Hm [Hd' Ht']. simpl in *.
      apply Hne. eauto.
Qed.

(** *** Facts about the steps of the transaction *)

Lemma nodes_deleteManyNodes where_ db k :
  nodes (deleteManyNodes where_ db) !! k =
  match nodes db !! k with
  | Some n => if where_ k n then None else Some n
  | None => None
  end.
Proof.
  unfold deleteManyNodes; simpl.
  destruct (nodes db !! k) as [n|] eqn:Hk.
  - destruct (where_ k n) eqn:Hw.
    + apply map_lookup_filter_None. right. intros n' Hn'. simpl.
      rewrite Hk in Hn'. injection Hn' as <-. congruence.
    + apply map_lookup_filter_Some. done.
  - apply map_lookup_filter_None. by left.
Qed.

Lemma upsertNode_inv id node db db' :
  upsertNode id node db = inr db' →
  ∃ nodeId entityId px py entity,
    ClientNode.id node = Some nodeId
    ∧ ClientNode.entityId node = Some entityId
    ∧ ClientNode.position node = Some (px, py)
    ∧ entities db !! entityId = Some entity
    ∧ db' = set_nodes (insert nodeId
        (let isRootNode := bool_decide (ClientNode.type node = Some "root") in
         let finalX := if isRootNode then 0%float else px in
         let finalY := if isRootNode then 0%float else py in
         let nodeType := nodeTypeOf isRootNode (roleNameOf db entity) in
         let category := Js.orNull (ClientNode.category node) in
         match nodes db !! nodeId with
         | Some old => Node.mk (Node.dagId old) (Node.entityId old)
                               (storedNumber finalX) (storedNumber finalY)
                               category (Some nodeType)
         | None => Node.mk id entityId (storedNumber finalX)
                           (storedNumber finalY) category (Some nodeType)
         end)) db.
Proof.
  unfold upsertNode. intros H.
  destruct (ClientNode.id node) as [nodeId|]; [|done].
  destruct (ClientNode.entityId node) as [entityId|]; [|done].
  destruct (ClientNode.position node) as [[px py]|]; [|done].
  destruct (entities db !! entityId) as [entity|] eqn:He; [|done].
  injection H as <-. by exists nodeId, entityId, px, py, entity.
Qed.

Lemma nodeTypeOf_not_root roleName : nodeTypeOf false roleName ≠ "root".
Proof. unfold nodeTypeOf. by destruct (_ || _). Qed.

Lemma upsertNode_others id node db db' :
  upsertNode id node db = inr db' →
  edges db' = edges db ∧ entities db' = entities db ∧ roles db' = roles db
  ∧ dags db' = dags db ∧ events db' = events db
  ∧ relationshipTypes db' = relationshipTypes db.
Proof.
  intros H. apply upsertNode_inv in H as (?&?&?&?&?&_&_&_&_&->). done.
Qed.

Lemma upsertNodes_others id ns db db' :
  upsertNodes id ns db = inr db' →
  edges db' = edges db ∧ entities db' = entities db ∧ roles db' = roles db
  ∧ dags db' = dags db ∧ events db' = events db
  ∧ relationshipTypes db' = relationshipTypes db.
Proof.
  revert db. induction ns as [|node ns IH]; intros db H; simpl in H.
  - by injection H as <-.
  - destruct (upsertNode id node db) as [e|db1] eqn:H1; [done|]. simpl in H.
    apply upsertNode_others in H1. apply IH in H.
    destruct H as (?&?&?&?&?&?), H1 as (?&?&?&?&?&?).
    repeat split; congruence.
Qed.

Lemma upsertEdge_nodes id edge db db' :
  upsertEdge id edge db = inr db' → nodes db' = nodes db.
Proof.
  unfold upsertEdge. intros H.
  destruct (edgeShapeError edge); [done|].
  destruct (ClientEdge.id edge); [|done].
  destruct (ClientEdge.source edge); [|done].
  destruct (ClientEdge.target edge); [|done].
  destruct (negb _); [done|].
  destruct (edges db !! _).
  - by injection H as <-.
  - destruct (_ && _); [|done]. by injection H as <-.
Qed.

Lemma upsertEdges_nodes id es db db' :
  upsertEdges id es db = inr db' → nodes db' = nodes db.
Proof.
  revert db. induction es as [|edge es IH]; intros db H; simpl in H.
  - by injection H as <-.
  - destruct (upsertEdge id edge db) as [e|db1] eqn:H1; [done|]. simpl in H.
    apply upsertEdge_nodes in H1. apply IH in H. congruence.
Qed.

(** A successful save: the steps of its transaction. *)
Lemma saveGraph_inv id body db :
  (saveGraph id body db).1 = db
  ∨ ∃ ns es db2,
      body_nodes body = Some ns ∧ body_edges body = Some es
      ∧ validateNodes ns = None ∧ validateEdges es = None
      ∧ is_Some (dags db !! id)
      ∧ upsertNodes id ns
          (if 0 <? Z.of_nat (length (omap ClientNode.id ns))
           then deleteManyNodes (nodeDeleteWhere id (omap ClientNode.id ns)) db
           else db) = inr db2
      ∧ upsertEdges id es
          (if 0 <? Z.of_nat (length (omap ClientEdge.id es))
           then set_edges (filter (λ ke,
                  edgeDeleteWhere id (omap ClientEdge.id es) ke.1 ke.2 = false)) db2
           else db2) = inr (saveGraph id body db).1
      ∧ (saveGraph id body db).2 = Json tt.
Proof.
  unfold saveGraph.
  destruct (body_nodes body) as [ns|]; [|by left].
  destruct (body_edges body) as [es|]; [|by left].
  destruct (dags db !! id) eqn:Hd; [|by left].
  destruct (validateNodes ns) eqn:Hvn; [by left|].
  destruct (validateEdges es) eqn:Hve; [by left|].
  destruct (saveTransaction id ns es db) as [e|db'] eqn:Htx; [by left|].
  right. unfold saveTransaction in Htx.
  destruct (upsertNodes id ns _) as [e|db2] eqn:H2; [done|]. simpl in Htx.
  exists ns, es, db2. simpl. eauto 10.
Qed.

Lemma upsertNode_identity id node db db' k n :
  upsertNode id node db = inr db' →
  nodes db !! k = Some n →
  ∃ n', nodes db' !! k = Some n' ∧ sameNodeIdentity n n'.
Proof.
  intros Hup Hk.
  apply upsertNode_inv in Hup
    as (nodeId & entityId & px & py & entity & _ & _ & _ & _ & ->). simpl.
  destruct (decide (nodeId = k)) as [->|Hne].
  - rewrite Hk, lookup_insert_eq. eexists; split; [done|]. by split.
  - rewrite lookup_insert_ne by done. exists n. by split.
Qed.

Lemma upsertNodes_identity id ns db db' k n :
  upsertNodes id ns db = inr db' →
  nodes db !! k = Some n →
  ∃ n', nodes db' !! k = Some n' ∧ sameNodeIdentity n n'.
Proof.
  revert db n. induction ns as [|node ns IH]; intros db n Hup Hk; simpl in Hup.
  - injection Hup as <-. exists n. by split.
  - destruct (upsertNode id node db) as [e|db1] eqn:H1; [done|]. simpl in Hup.
    destruct (upsertNode_identity _ _ _ _ _ _ H1 Hk) as (n1 & Hk1 & [Hd1 He1]).
    destruct (IH _ _ Hup Hk1) as (n' & Hk' & [Hd' He']).
    exists n'. split; [done|]. split; congruence.
Qed.

(** *** The root invariant *)

Lemma rootAt_deleteManyNodes id r sent db :
  rootAt id r (nodes db) →
  rootAt id r (nodes (deleteManyNodes (nodeDeleteWhere id sent) db)).
Proof.
  intros [(n & Hn & Hd & Ht & Hxy) Huniq]. split.
  - exists n. rewrite nodes_deleteManyNodes, Hn.
    unfold nodeDeleteWhere. rewrite Ht. simpl.
    rewrite andb_false_r. done.
  - intros k m Hk. rewrite nodes_deleteManyNodes in Hk.
    destruct (nodes db !! k) as [m'|] eqn:Hm; [|done].
    destruct (nodeDeleteWhere id sent k m'); [done|].
    injection Hk as <-. by apply Huniq.
Qed.

Lemma rootAt_upsertNode id r node db db' :
  marksRoot r node = true →
  upsertNode id node db = inr db' →
  rootAt id r (nodes db) → rootAt id r (nodes db').
Proof.
  intros Hmark Hup [(n & Hn & Hd & Ht & Hx & Hy) Huniq].
  apply upsertNode_inv in Hup
    as (nodeId & entityId & px & py & entity & Hid & _ & _ & _ & ->).
  apply bool_decide_eq_true in Hmark. rewrite Hid in Hmark. simpl.
  destruct (decide (nodeId = r)) as [->|Hne].
  - assert (Hroot : ClientNode.type node = Some "root") by (by apply Hmark).
    rewrite Hn, (bool_decide_eq_true_2 _ Hroot). split.
    + eexists. rewrite lookup_insert_eq. done.
    + intros k m Hk Hdm Htm. destruct (decide (k = r)) as [|Hkr]; [done|].
      rewrite lookup_insert_ne in Hk by done. eauto.
  - assert (Hnr : ClientNode.type node ≠ Some "root").
    { intros Hroot. apply Hmark in Hroot. congruence. }
    rewrite (bool_decide_eq_false_2 _ Hnr). split.
    + exists n. rewrite lookup_insert_ne by done. done.
    + intros k m Hk Hdm Htm. destruct (decide (k = nodeId)) as [->|Hkn].
      * rewrite lookup_insert_eq in Hk. injection Hk as <-.
        exfalso. clear Hdm.
        destruct (nodes db !! nodeId); simpl in Htm;
          destruct (_ || _) in Htm; discriminate.
      * rewrite lookup_insert_ne in Hk by done. eauto.
Qed.

Lemma rootAt_upsertNodes id r ns db db' :
  forallb (marksRoot r) ns = true →
  upsertNodes id ns db = inr db' →
  rootAt id r (nodes db) → rootAt id r (nodes db').
Proof.
  revert db. induction ns as [|node ns IH]; intros db Hall Hup Hinv; simpl in *.
  - by injection Hup as <-.
  - apply andb_true_iff in Hall as [Hnode Hall].
    destruct (upsertNode id node db) as [e|db1] eqn:H1; [done|]. simpl in Hup.
    eapply IH; [done|done|]. eapply rootAt_upsertNode; done.
Qed.

Lemma rootAt_saveGraph id r body db :
  marksRootOnly r body = true →
  rootAt id r (nodes db) → rootAt id r (nodes (saveGraph id body db).1).
Proof.
  intros Hmark Hinv.
  destruct (saveGraph_inv id body db)
    as [->|(ns & es & db2 & Hns & Hes & _ & _ & _ & Hnodes & Hedges & _)]; [done|].
  apply upsertEdges_nodes in Hedges. rewrite Hedges.
  assert (nodes (if 0 <? Z.of_nat (length (omap ClientEdge.id es))
           then set_edges (filter (λ ke,
                  edgeDeleteWhere id (omap ClientEdge.id es) ke.1 ke.2 = false)) db2
           else db2) = nodes db2) as ->.
  { by case_match. }
  unfold marksRootOnly in Hmark. rewrite Hns in Hmark.
  eapply (rootAt_upsertNodes _ _ ns); [exact Hmark|exact Hnodes|].
  destruct (Z.ltb _ _); [|done]. by apply rootAt_deleteManyNodes.
Qed.

(** Whatever the client sends, a save deletes no node whose persisted
    kind is root. *)
Lemma saveGraph_keeps_roots id body db k n :
  nodes db !! k = Some n → Node.type n = Some "root" →
  is_Some (nodes (saveGraph id body db).1 !! k).
Proof.
  intros Hk Hroot.
  destruct (saveGraph_inv id body db)
    as [->|(ns & es & db2 & _ & _ & _ & _ & _ & Hnodes & Hedges & _)]; [eauto|].
  apply upsertEdges_nodes in Hedges. rewrite Hedges.
  assert (nodes (if 0 <? Z.of_nat (length (omap ClientEdge.id es))
           then set_edges (filter (λ ke,
                  edgeDeleteWhere id (omap ClientEdge.id es) ke.1 ke.2 = false)) db2
           else db2) = nodes db2) as -> by (by case_match).
  assert (Hkept : nodes (if 0 <? Z.of_nat (length (omap ClientNode.id ns))
                    then deleteManyNodes
                           (nodeDeleteWhere id (omap ClientNode.id ns)) db
                    else db) !! k = Some n).
  { destruct (Z.ltb _ _); [|done].
    rewrite nodes_deleteManyNodes, Hk. unfold nodeDeleteWhere.
    rewrite Hroot. simpl. by rewrite andb_false_r. }
  destruct (upsertNodes_identity _ _ _ _ _ _ Hnodes Hkept) as (n' & Hn' & _).
  eauto.
Qed.

Lemma saveGraphs_root_invariant_lists id rootId bodies db :
  rootInvariant id rootId db →
  forallb (marksRootOnly rootId) bodies = true →
  rootInvariant id rootId (saveGraphs id bodies db).
Proof.
  unfold saveGraphs. revert db.
  induction bodies as [|body bodies IH]; intros db Hinv Hall; simpl in *; [done|].
  apply andb_true_iff in Hall as [Hbody Hall].
  apply IH; [|done].
  apply rootInvariant_lookup. apply rootAt_saveGraph; [done|].
  by apply rootInvariant_lookup.
Qed.

(** C1 (as amended).  Take any sequence of saves of a graph in which every
    client node list marks kind root on the id of the graph's root and on no
    other id (lists that omit the root, and lists that give the root another
    position, are included).  If the graph starts with exactly one root
    node, at (0,0), then after the sequence it still has exactly one root
    node, the same one, at (0,0): the root is never deleted and never
    moved.  And whatever a list contains, a save deletes no node whose
    persisted kind is root. *)
Theorem saveGraphs_root_invariant id rootId bodies db :
  rootInvariant id rootId db →
  forallb (marksRootOnly rootId) bodies = true →
  rootInvariant id rootId (saveGraphs id bodies db)
  ∧ (∀ body db0 k n,
       nodes db0 !! k = Some n → Node.type n = Some "root" →
       is_Some (nodes (saveGraph id body db0).1 !! k)).
Proof.
  intros Hinv Hall. split.
  - by apply saveGraphs_root_invariant_lists.
  - intros body db0 k n. apply saveGraph_keeps_roots.
Qed.

Lemma rootInvariant_db0 : rootInvariant "g" "r" Example.db0.
Proof.
  exists (Node.mk "g" "e0" 0 0 None (Some "root")).
  split; [vm_compute; reflexivity|done].
Qed.

(** C1 as stated fails.  From a graph with one root at (0,0): a list that
    sends the root with kind custom leaves the graph without a root; a list
    that sends a second node with kind root leaves it with two; and after
    the re-labelling save, a save that omits the former root deletes it. *)
Lemma saveGraph_root_counterexample :
  rootInvariant "g" "r" Example.db0
  ∧ (¬ ∃ rootId, rootInvariant "g" rootId
                   (saveGraphs "g" [Example.relabelRoot] Example.db0))
  ∧ (¬ ∃ rootId, rootInvariant "g" rootId
                   (saveGraphs "g" [Example.secondRoot] Example.db0))
  ∧ nodes (saveGraphs "g" [Example.relabelRoot; Example.omitRoot] Example.db0)
      !! "r" = None.
Proof.
  split; [apply rootInvariant_db0|]. split; [|split; [|vm_compute; reflexivity]].
  - intros (rootId & n & Heq & _).
    assert (H : rootNodes "g" (saveGraphs "g" [Example.relabelRoot] Example.db0) = ∅)
      by (vm_compute; reflexivity).
    rewrite H in Heq. symmetry in Heq. by apply map_non_empty_singleton in Heq.
  - intros (rootId & n & Heq & _).
    assert (H : size (rootNodes "g" (saveGraphs "g" [Example.secondRoot] Example.db0)) = 2%nat)
      by (vm_compute; reflexivity).
    rewrite Heq, map_size_singleton in H. done.
Qed.

(** The invariant on a sequence that omits the root and then sends it with
    another position. *)
Lemma saveGraphs_root_invariant_witness :
  rootInvariant "g" "r"
    (saveGraphs "g" [Example.omitRoot; Example.moveRoot] Example.db0).
Proof.
  apply (proj1 (saveGraphs_root_invariant "g" "r"
    [Example.omitRoot; Example.moveRoot] Example.db0
    ltac:(exists (Node.mk "g" "e0" 0 0 None (Some "root"));
          split; [vm_compute; reflexivity|split; reflexivity])
    ltac:(vm_compute; reflexivity))).
Defined.

(** *** Nothing is deleted for an empty list *)

Lemma saveGraph_empty_nodes_keeps_nodes id es db :
  nodes (saveGraph id (mkSaveBody (Some []) es) db).1 = nodes db.
Proof.
  destruct (saveGraph_inv id (mkSaveBody (Some []) es) db)
    as [->|(ns & es' & db2 & Hns & Hes & _ & _ & _ & Hnodes & Hedges & _)]; [done|].
  simpl in Hns. injection Hns as <-. simpl in Hnodes. injection Hnodes as <-.
  apply upsertEdges_nodes in Hedges. rewrite Hedges. by destruct (Z.ltb _ _).
Qed.

Lemma saveGraph_empty_body id db :
  (saveGraph id (mkSaveBody (Some []) (Some [])) db).1 = db.
Proof.
  unfold saveGraph; simpl. destruct (dags db !! id); [|done].
  unfold saveTransaction; simpl. by destruct db.
Qed.

(** C2 (as amended).  A save with an empty client node list deletes no
    node: the deletion step is skipped when no node id is sent, so the
    node table is left as it was, root and non-root nodes alike; and a
    save with both lists empty leaves the whole database as it was, edges
    included, and succeeds when the graph exists. *)
Theorem saveGraph_empty_list_deletes_nothing id es db :
  nodes (saveGraph id (mkSaveBody (Some []) es) db).1 = nodes db
  ∧ saveGraph id (mkSaveBody (Some []) (Some [])) db
    = (db, if bool_decide (is_Some (dags db !! id))
           then Json tt else Failure 404 "DAG not found").
Proof.
  split; [apply saveGraph_empty_nodes_keeps_nodes|].
  unfold saveGraph; simpl. destruct (dags db !! id) eqn:Hdag.
  - rewrite bool_decide_eq_true_2 by eauto.
    unfold saveTransaction; simpl. by destruct db.
  - rewrite bool_decide_eq_false_2; [done|]. by intros [? ?].
Qed.

(** C2 as stated fails: the save of empty lists succeeds and leaves the
    non-root nodes a and b and the edge x1 in place. *)
Lemma saveGraph_empty_list_counterexample :
  (saveGraph "g" Example.emptyBody Example.db1).2 = Json tt
  ∧ is_Some (nodes (saveGraph "g" Example.emptyBody Example.db1).1 !! "a")
  ∧ is_Some (edges (saveGraph "g" Example.emptyBody Example.db1).1 !! "x1")
  ∧ ¬ onlyRootsLeft "g" (saveGraph "g" Example.emptyBody Example.db1).1.
Proof.
  split; [reflexivity|].
  split; [by vm_compute; eexists|].
  split; [by vm_compute; eexists|].
  intros [Hnodes _].
  specialize (Hnodes "a" (Node.mk "g" "e1" 300 150 None (Some "custom"))).
  assert (Hroot : Some "custom" = Some "root");
    [apply Hnodes; vm_compute; reflexivity|discriminate].
Qed.

(** *** Updates in place *)

Lemma upsertEdge_inv id edge db db' :
  upsertEdge id edge db = inr db' →
  ∃ edgeId row,
    ClientEdge.id edge = Some edgeId
    ∧ db' = set_edges (insert edgeId row) db
    ∧ (∀ old, edges db !! edgeId = Some old → sameEdgeIdentity old row).
Proof.
  unfold upsertEdge. intros H.
  destruct (edgeShapeError edge); [done|].
  destruct (ClientEdge.id edge) as [edgeId|]; [|done].
  destruct (ClientEdge.source edge) as [source|]; [|done].
  destruct (ClientEdge.target edge) as [target|]; [|done].
  destruct (negb _); [done|].
  destruct (edges db !! edgeId) as [old|] eqn:Hold.
  - injection H as <-. eexists _, _. split; [done|]. split; [done|].
    intros old' Hold'. rewrite Hold in Hold'. injection Hold' as <-.
    by repeat split.
  - destruct (_ && _); [|done]. injection H as <-.
    eexists _, _. split; [done|]. split; [done|].
    intros old' Hold'. by rewrite Hold in Hold'.
Qed.

Lemma upsertEdge_identity id edge db db' k e :
  upsertEdge id edge db = inr db' →
  edges db !! k = Some e →
  ∃ e', edges db' !! k = Some e' ∧ sameEdgeIdentity e e'.
Proof.
  intros Hup Hk.
  apply upsertEdge_inv in Hup as (edgeId & row & _ & -> & Hrow). simpl.
  destruct (decide (edgeId = k)) as [->|Hne].
  - rewrite lookup_insert_eq. exists row. split; [done|]. by apply Hrow.
  - rewrite lookup_insert_ne by done. exists e. by repeat split.
Qed.

Lemma upsertEdge_other id edge db db' k :
  upsertEdge id edge db = inr db' →
  ClientEdge.id edge ≠ Some k →
  edges db' !! k = edges db !! k.
Proof.
  intros Hup Hk.
  apply upsertEdge_inv in Hup as (edgeId & row & Hid & -> & _). simpl.
  apply lookup_insert_ne. congruence.
Qed.

Lemma sameEdgeIdentity_trans e1 e2 e3 :
  sameEdgeIdentity e1 e2 → sameEdgeIdentity e2 e3 → sameEdgeIdentity e1 e3.
Proof.
  intros (?&?&?&?) (?&?&?&?). repeat split; congruence.
Qed.

Lemma upsertEdges_identity id es db db' k e :
  upsertEdges id es db = inr db' →
  edges db !! k = Some e →
  ∃ e', edges db' !! k = Some e' ∧ sameEdgeIdentity e e'.
Proof.
  revert db e. induction es as [|edge es IH]; intros db e Hup Hk; simpl in Hup.
  - injection Hup as <-. exists e. by repeat split.
  - destruct (upsertEdge id edge db) as [err|db1] eqn:H1; [done|]. simpl in Hup.
    destruct (upsertEdge_identity _ _ _ _ _ _ H1 Hk) as (e1 & Hk1 & Hsame1).
    destruct (IH _ _ Hup Hk1) as (e' & Hk' & Hsame').
    exists e'. split; [done|]. by eapply sameEdgeIdentity_trans.
Qed.

Lemma upsertEdges_unlisted id es db db' k :
  upsertEdges id es db = inr db' →
  k ∉ omap ClientEdge.id es →
  edges db' !! k = edges db !! k.
Proof.
  revert db. induction es as [|edge es IH]; intros db Hup Hk; simpl in Hup.
  - by injection Hup as <-.
  - destruct (upsertEdge id edge db) as [err|db1] eqn:H1; [done|]. simpl in Hup.
    simpl in Hk. destruct (ClientEdge.id edge) as [j|] eqn:Hj; simpl in Hk.
    + apply not_elem_of_cons in Hk as [Hkj Hk].
      rewrite (IH _ Hup Hk). eapply upsertEdge_other; [done|congruence].
    + rewrite (IH _ Hup Hk). eapply upsertEdge_other; [done|congruence].
Qed.

Lemma upsertNodes_unlisted id ns db db' k :
  upsertNodes id ns db = inr db' →
  k ∉ omap ClientNode.id ns →
  nodes db' !! k = nodes db !! k.
Proof.
  revert db. induction ns as [|node ns IH]; intros db Hup Hk; simpl in Hup.
  - by injection Hup as <-.
  - destruct (upsertNode id node db) as [err|db1] eqn:H1; [done|]. simpl in Hup.
    apply upsertNode_inv in H1
      as (nodeId & entityId & px & py & entity & Hid & _ & _ & _ & ->).
    simpl in Hk. rewrite Hid in Hk. simpl in Hk.
    apply not_elem_of_cons in Hk as [Hkj Hk].
    rewrite (IH _ Hup Hk). simpl. by apply lookup_insert_ne.
Qed.

Lemma edges_deleteManyNodes_kept where_ db k e :
  edges db !! k = Some e →
  Edge.sourceId e ∉ dom (filter (λ kn, where_ kn.1 kn.2 = true) (nodes db)) →
  Edge.targetId e ∉ dom (filter (λ kn, where_ kn.1 kn.2 = true) (nodes db)) →
  edges (deleteManyNodes where_ db) !! k = Some e.
Proof.
  intros Hk Hs Ht. unfold deleteManyNodes; simpl.
  apply map_lookup_filter_Some. done.
Qed.

Lemma saveGraph_node_identity id body db k n n' :
  nodes db !! k = Some n →
  nodes (saveGraph id body db).1 !! k = Some n' →
  sameNodeIdentity n n'.
Proof.
  intros Hk Hk'.
  destruct (saveGraph_inv id body db)
    as [Heq|(ns & es & db2 & Hns & Hes & _ & _ & _ & Hnodes & Hedges & _)].
  { rewrite Heq, Hk in Hk'. injection Hk' as <-. by split. }
  apply upsertEdges_nodes in Hedges. rewrite Hedges in Hk'.
  assert (Hk2 : nodes db2 !! k = Some n') by (by destruct (Z.ltb _ _)).
  clear Hk' Hedges.
  destruct (Z.ltb _ _).
  - destruct (decide (k ∈ omap ClientNode.id ns)) as [Hin|Hout].
    + assert (Hk1 : nodes (deleteManyNodes
                (nodeDeleteWhere id (omap ClientNode.id ns)) db) !! k = Some n).
      { rewrite nodes_deleteManyNodes, Hk. unfold nodeDeleteWhere.
        rewrite (bool_decide_eq_false_2 (k ∉ _)) by (by intros ?).
        by rewrite andb_false_r. }
      destruct (upsertNodes_identity _ _ _ _ _ _ Hnodes Hk1) as (m & Hm & Hsame).
      congruence.
    + rewrite (upsertNodes_unlisted _ _ _ _ _ Hnodes Hout) in Hk2.
      rewrite nodes_deleteManyNodes, Hk in Hk2.
      destruct (nodeDeleteWhere _ _ _ _); [done|].
      injection Hk2 as <-. by split.
  - destruct (upsertNodes_identity _ _ _ _ _ _ Hnodes Hk) as (m & Hm & Hsame).
    congruence.
Qed.

Lemma saveGraph_edge_identity id body db k e e' :
  edges db !! k = Some e →
  Edge.sourceId e ∉ deletedNodeIds id body db →
  Edge.targetId e ∉ deletedNodeIds id body db →
  edges (saveGraph id body db).1 !! k = Some e' →
  sameEdgeIdentity e e'.
Proof.
  intros Hk Hs Ht Hk'.
  destruct (saveGraph_inv id body db)
    as [Heq|(ns & es & db2 & Hns & Hes & _ & _ & _ & Hnodes & Hedges & _)].
  { rewrite Heq, Hk in Hk'. injection Hk' as <-. by repeat split. }
  unfold deletedNodeIds in Hs, Ht. rewrite Hns in Hs, Ht. simpl in Hs, Ht.
  assert (Hk2 : edges db2 !! k = Some e).
  { apply upsertNodes_others in Hnodes as (-> & _).
    destruct (Z.ltb _ _); [|done]. by apply edges_deleteManyNodes_kept. }
  clear Hnodes Hs Ht.
  destruct (Z.ltb _ _).
  - destruct (decide (k ∈ omap ClientEdge.id es)) as [Hin|Hout].
    + assert (Hk3 : edges (set_edges (filter (λ ke,
                 edgeDeleteWhere id (omap ClientEdge.id es) ke.1 ke.2 = false))
                 db2) !! k = Some e).
      { simpl. apply map_lookup_filter_Some. split; [done|]. simpl.
        unfold edgeDeleteWhere.
        rewrite (bool_decide_eq_false_2 (k ∉ _)) by (by intros ?).
        by rewrite andb_false_r. }
      destruct (upsertEdges_identity _ _ _ _ _ _ Hedges Hk3) as (m & Hm & Hsame).
      congruence.
    + rewrite (upsertEdges_unlisted _ _ _ _ _ Hedges Hout) in Hk'. simpl in Hk'.
      apply map_lookup_filter_Some in Hk' as [Hk' _].
      rewrite Hk2 in Hk'. injection Hk' as <-. by repeat split.
  - destruct (upsertEdges_identity _ _ _ _ _ _ Hedges Hk2) as (m & Hm & Hsame).
    congruence.
Qed.

(** C9 (as amended).  For a node that was persisted before a save and is
    persisted after it, the save has changed neither its graph nor its
    entity, whatever the client sent: an update writes x, y, category and
    type only.  For an edge that was persisted before the save, whose two
    endpoint nodes are not removed by the save's node deletion, and that is
    persisted after it, the save has changed neither its graph, its source,
    its target nor its provenance: an update writes relationshipTypeId,
    label, sourceHandle and targetHandle only. *)
Theorem saveGraph_updates_in_place id body db k :
  (∀ n n', nodes db !! k = Some n →
           nodes (saveGraph id body db).1 !! k = Some n' →
           sameNodeIdentity n n')
  ∧ (∀ e e', edges db !! k = Some e →
             Edge.sourceId e ∉ deletedNodeIds id body db →
             Edge.targetId e ∉ deletedNodeIds id body db →
             edges (saveGraph id body db).1 !! k = Some e' →
             sameEdgeIdentity e e').
Proof.
  split.
  - intros n n'. apply saveGraph_node_identity.
  - intros e e'. apply saveGraph_edge_identity.
Qed.

(** A save that sends node a and edge x1 with other references: both keep
    their own. *)
Lemma saveGraph_updates_in_place_witness :
  sameNodeIdentity (Node.mk "g" "e1" 300 150 None (Some "custom"))
                   (Node.mk "g" "e1" 10 20 None (Some "custom"))
  ∧ sameEdgeIdentity
      (Edge.mk "g" "a" "b" None (Some "knows") None None None)
      (Edge.mk "g" "a" "b" None (Some "met") None None None).
Proof.
  split.
  - apply (proj1 (saveGraph_updates_in_place "g" Example.rewriteReferences
                    Example.db1 "a")); vm_compute; reflexivity.
  - apply (proj2 (saveGraph_updates_in_place "g" Example.rewriteReferences
                    Example.db1 "x1")).
    + vm_compute; reflexivity.
    + intros H; vm_compute in H; discriminate.
    + intros H; vm_compute in H; discriminate.
    + vm_compute; reflexivity.
Defined.

(** C9 as stated fails for edges: the save removes node b, the database
    removes the edge x1 with it, and the upsert of x1 then creates the edge
    anew with the endpoints the client sent. *)
Lemma saveGraph_edge_endpoints_counterexample :
  (saveGraph "g" Example.retargetEdge Example.db1).2 = Json tt
  ∧ edges Example.db1 !! "x1"
    = Some (Edge.mk "g" "a" "b" None (Some "knows") None None None)
  ∧ edges (saveGraph "g" Example.retargetEdge Example.db1).1 !! "x1"
    = Some (Edge.mk "g" "a" "r" None (Some "met") None None None).
Proof. repeat split; vm_compute; reflexivity. Qed.

(** ** Creating events *)

Section CreateEvent.

Context `{DateImpl}.

Lemma head_map_to_list_None {A} (m : gmap string A) :
  head (map_to_list m) = None ↔ m = ∅.
Proof.
  rewrite <- map_to_list_empty_iff.
  destruct (map_to_list m); simpl; split; congruence.
Qed.

Lemma findEdgeBetween_None db g s t :
  findEdgeBetween db g s t = None ↔ edgesBetween db g s t = ∅.
Proof. apply head_map_to_list_None. Qed.

Lemma resolveEventType_tables db eventTypeId customTypeName db1 k :
  resolveEventType db eventTypeId customTypeName = Some (db1, k) →
  nodes db1 = nodes db ∧ edges db1 = edges db ∧ events db1 = events db
  ∧ dags db1 = dags db ∧ tags db1 = tags db.
Proof.
  unfold resolveEventType. intros Hr.
  destruct (_ && _).
  - destruct (findEventTypeByName db _) as [[k' t']|].
    + by injection Hr as <- <-.
    + destruct (findEventTypeByName db _); [done|]. by injection Hr as <- <-.
  - by injection Hr as <- <-.
Qed.

(** The edge table after the derivation step. *)
Lemma deriveEdge_edges db g s t title eventId :
  edges (deriveEdge db g s t title eventId).1 =
  if decide (edgesBetween db g s t = ∅)
  then <[fresh (dom (edges db)) :=
           Edge.mk g s t None (Some (Js.trim title)) None None (Some eventId)]>
         (edges db)
  else edges db.
Proof.
  unfold deriveEdge.
  destruct (findEdgeBetween db g s t) as [found|] eqn:Hfind.
  - rewrite decide_False; [done|].
    intros Hempty. apply findEdgeBetween_None in Hempty. congruence.
  - apply findEdgeBetween_None in Hfind. by rewrite decide_True.
Qed.

Lemma deriveEdge_created db g s t title eventId :
  (deriveEdge db g s t title eventId).2 = None ↔ edgesBetween db g s t ≠ ∅.
Proof.
  unfold deriveEdge.
  destruct (findEdgeBetween db g s t) as [found|] eqn:Hfind; simpl.
  - split; [|done]. intros _ Hempty.
    apply findEdgeBetween_None in Hempty. congruence.
  - apply findEdgeBetween_None in Hfind. split; [done|]. intros Hne. by destruct Hne.
Qed.

Lemma deriveEdge_events_dom db g s t title eventId :
  dom (events (deriveEdge db g s t title eventId).1) = dom (events db)
  ∧ nodes (deriveEdge db g s t title eventId).1 = nodes db.
Proof.
  unfold deriveEdge. destruct (findEdgeBetween db g s t); simpl; [done|].
  split; [|done]. apply dom_alter_L.
Qed.

Lemma fresh_edge_id db : edges db !! fresh (dom (edges db)) = None.
Proof. apply not_elem_of_dom. apply is_fresh. Qed.

Lemma fresh_event_id db : events db !! fresh (dom (events db)) = None.
Proof. apply not_elem_of_dom. apply is_fresh. Qed.

(** Inserting an edge under a fresh id adds one edge to its own ordered
    pair and none to any other. *)
Lemma edgeCount_insert_fresh db g s t e g' s' t' :
  Edge.dagId e = g → Edge.sourceId e = s → Edge.targetId e = t →
  edgeCount (set_edges (insert (fresh (dom (edges db))) e) db) g' s' t' =
  if decide (g' = g ∧ s' = s ∧ t' = t)
  then S (edgeCount db g' s' t')
  else edgeCount db g' s' t'.
Proof.
  intros Hg Hs Ht. unfold edgeCount, edgesBetween; simpl.
  destruct (decide (g' = g ∧ s' = s ∧ t' = t)) as [(-> & -> & ->)|Hne].
  - rewrite map_filter_insert_True by done.
    apply map_size_insert_None, map_lookup_filter_None. left. apply fresh_edge_id.
  - rewrite map_filter_insert_not' ; [done| |].
    + simpl. intros (? & ? & ?). apply Hne. repeat split; congruence.
    + intros e' He'. rewrite fresh_edge_id in He'. done.
Qed.

Lemma edgeCount_ext db db' g s t :
  edges db' = edges db → edgeCount db' g s t = edgeCount db g s t.
Proof. unfold edgeCount, edgesBetween. by intros ->. Qed.

(** The derivation step brings the count of its own pair to at least one
    and leaves every other pair alone. *)
Lemma edgeCount_deriveEdge db g s t title eventId g' s' t' :
  edgeCount (deriveEdge db g s t title eventId).1 g' s' t' =
  if decide (g' = g ∧ s' = s ∧ t' = t)
  then Nat.max 1 (edgeCount db g s t)
  else edgeCount db g' s' t'.
Proof.
  pose proof (deriveEdge_edges db g s t title eventId) as Hedges.
  destruct (decide (edgesBetween db g s t = ∅)) as [Hempty|Hsome].
  - rewrite (edgeCount_ext
      (set_edges (insert (fresh (dom (edges db)))
         (Edge.mk g s t None (Some (Js.trim title)) None None (Some eventId))) db))
      by done.
    rewrite (edgeCount_insert_fresh db g s t) by done.
    destruct (decide (g' = g ∧ s' = s ∧ t' = t)) as [(-> & -> & ->)|]; [|done].
    unfold edgeCount. rewrite Hempty, map_size_empty. done.
  - rewrite (edgeCount_ext db) by done.
    destruct (decide (g' = g ∧ s' = s ∧ t' = t)) as [(-> & -> & ->)|]; [|done].
    unfold edgeCount. apply map_size_non_empty_iff in Hsome. lia.
Qed.

Lemma createEvent_Json body db db' r :
  createEvent body db = (db', Json r) →
  ∃ db1 eventTypeId,
    shapeError body = None
    ∧ nodeMissing db (EventBody.sourceNodeId body) (EventBody.dagId body) = false
    ∧ nodeMissing db (EventBody.targetNodeId body) (EventBody.dagId body) = false
    ∧ resolveEventType db (EventBody.eventTypeId body)
                       (EventBody.customTypeName body) = Some (db1, eventTypeId)
    ∧ eventDateOf body ≠ Some None
    ∧ eventRefsOk db1 (eventDataOf body db1 eventTypeId (eventDateOf body ≫= id))
      = true
    ∧ storeEvent body (eventDataOf body db1 eventTypeId (eventDateOf body ≫= id))
                 db1 = (db', r).
Proof.
  unfold createEvent. intros Hc.
  destruct (shapeError body); [done|].
  destruct (nodeMissing db (EventBody.sourceNodeId body) _); [done|].
  destruct (nodeMissing db (EventBody.targetNodeId body) _); [done|].
  destruct (resolveEventType db _ _) as [[db1 eventTypeId]|]; [|done].
  exists db1, eventTypeId.
  destruct (eventDateOf body) as [[d|]|] eqn:Hdate; [| done |].
  - destruct (negb _) eqn:Hrefs; [done|]. apply negb_false_iff in Hrefs.
    destruct (storeEvent _ _ _) as [db'' created]. injection Hc as <- <-. done.
  - destruct (negb _) eqn:Hrefs; [done|]. apply negb_false_iff in Hrefs.
    destruct (storeEvent _ _ _) as [db'' created]. injection Hc as <- <-. done.
Qed.

(** What storing the event does to the tables. *)
Lemma storeEvent_spec body eventData db db' r :
  storeEvent body eventData db = (db', r) →
  event_id r = fresh (dom (events db))
  ∧ event r = eventData
  ∧ dom (events db') = {[ event_id r ]} ∪ dom (events db)
  ∧ nodes db' = nodes db
  ∧ (∀ g s t,
       edgeCount db' g s t =
       if decide (edgeRequested body = true
                  ∧ g = default "" (EventBody.dagId body)
                  ∧ s = default "" (EventBody.sourceNodeId body)
                  ∧ t = default "" (EventBody.targetNodeId body))
       then Nat.max 1 (edgeCount db g s t)
       else edgeCount db g s t)
  ∧ (edgeRequested body = true →
     (createdEdge r = None ↔
      edgeCount db (default "" (EventBody.dagId body))
                (default "" (EventBody.sourceNodeId body))
                (default "" (EventBody.targetNodeId body)) ≠ 0%nat)).
Proof.
  unfold storeEvent. intros Hs.
  destruct (edgeRequested body) eqn:Hreq.
  - destruct (deriveEdge _ _ _ _ _ _) as [db3 created] eqn:Hd.
    injection Hs as <- <-. simpl.
    pose proof (deriveEdge_events_dom
      (set_events (insert (fresh (dom (events db))) eventData) db)
      (default "" (EventBody.dagId body))
      (default "" (EventBody.sourceNodeId body))
      (default "" (EventBody.targetNodeId body))
      (default "" (EventBody.title body)) (fresh (dom (events db)))) as [Hdom Hn].
    rewrite Hd in Hdom, Hn. simpl in Hdom, Hn.
    split; [done|]. split; [done|].
    split; [by rewrite Hdom, dom_insert_L|]. split; [done|]. split.
    + intros g s t.
      pose proof (edgeCount_deriveEdge
        (set_events (insert (fresh (dom (events db))) eventData) db)
        (default "" (EventBody.dagId body))
        (default "" (EventBody.sourceNodeId body))
        (default "" (EventBody.targetNodeId body))
        (default "" (EventBody.title body)) (fresh (dom (events db))) g s t) as Hc.
      rewrite Hd in Hc. simpl in Hc. rewrite Hc.
      rewrite !(edgeCount_ext db (set_events _ db)) by done.
      destruct (decide (g = _ ∧ s = _ ∧ t = _)) as [Heq|Hne].
      * rewrite decide_True by done. by destruct Heq as (-> & -> & ->).
      * rewrite decide_False by (intros [_ ?]; done). done.
    + intros _.
      pose proof (deriveEdge_created
        (set_events (insert (fresh (dom (events db))) eventData) db)
        (default "" (EventBody.dagId body))
        (default "" (EventBody.sourceNodeId body))
        (default "" (EventBody.targetNodeId body))
        (default "" (EventBody.title body)) (fresh (dom (events db)))) as Hc.
      rewrite Hd in Hc. simpl in Hc. rewrite Hc.
      unfold edgeCount. rewrite map_size_non_empty_iff. done.
  - injection Hs as <- <-. simpl.
    split; [done|]. split; [done|]. split; [by rewrite dom_insert_L|].
    split; [done|]. split; [|done].
    intros g s t. by apply edgeCount_ext.
Qed.




Lemma storeEvent_static body eventData db db' r :
  storeEvent body eventData db = (db', r) →
  eventTypes db' = eventTypes db ∧ dags db' = dags db
  ∧ nodes db' = nodes db ∧ tags db' = tags db.
Proof.
  unfold storeEvent, deriveEdge. intros Hs.
  destruct (edgeRequested body).
  - destruct (findEdgeBetween _ _ _ _); by injection Hs as <- <-.
  - by injection Hs as <- <-.
Qed.

(** *** The lookup of an event type by name *)

Lemma findEventTypeByName_ext db db' name :
  eventTypes db = eventTypes db' →
  findEventTypeByName db name = findEventTypeByName db' name.
Proof. unfold findEventTypeByName. by intros ->. Qed.

Lemma findEventTypeByName_Some db name k t :
  findEventTypeByName db name = Some (k, t) →
  eventTypes db !! k = Some t ∧ EventType.name t = name.
Proof.
  unfold findEventTypeByName. intros Hfound.
  apply head_Some_elem_of, elem_of_map_to_list in Hfound.
  by apply map_lookup_filter_Some in Hfound.
Qed.


(** The lookup by name after a type has been registered under a new id. *)
Lemma findEventTypeByName_insert_fresh db name k t :
  findEventTypeByName db name = None → eventTypes db !! k = None →
  findEventTypeByName (set_eventTypes (insert k t) db) name
  = if decide (EventType.name t = name) then Some (k, t) else None.
Proof.
  unfold findEventTypeByName. intros Hnone Hfresh. simpl.
  apply head_map_to_list_None in Hnone.
  destruct (decide (EventType.name t = name)) as [Heq|Hne].
  - rewrite map_filter_insert_True by done.
    by rewrite Hnone, insert_empty, map_to_list_singleton.
  - rewrite map_filter_insert_not'; [| done |].
    + by rewrite Hnone, map_to_list_empty.
    + intros y Hy. by rewrite Hfresh in Hy.
Qed.


(** *** The same request again *)














(** *** Node references are checked against the graph *)

Lemma nodeMissing_true db k g :
  k ≠ "" → notInGraph db k g → nodeMissing db (Some k) (Some g) = true.
Proof.
  intros Hk Hout. unfold nodeMissing, findNodeInDag; simpl.
  apply andb_true_iff. split; [by apply negb_true_iff, String.eqb_neq|].
  apply negb_true_iff, bool_decide_eq_false. intros [n Hn].
  destruct (nodes db !! k) as [m|] eqn:Hm; [|done].
  destruct (bool_decide (Node.dagId m = g)) eqn:Hd; [|done].
  apply bool_decide_eq_true in Hd. by apply (Hout m).
Qed.

(** C4 (as amended).  When the sourceNodeId or the targetNodeId of a
    request is given and is not the id of a node of the request's graph (no
    node has that id, or the node belongs to another graph), createEvent
    fails with status 400 and creates nothing: the database is left as it
    was.  The error is the message of the first check that fails: for a
    request that passes the checks on its fields, which come first, it is
    "Source node not found in this DAG" when the source is such an id, and
    "Target node not found in this DAG" when the source is absent or a node
    of the graph and the target is such an id.  The status is never 404. *)
Theorem createEvent_rejects_foreign_node body db g k :
  EventBody.dagId body = Some g →
  EventBody.sourceNodeId body = Some k ∨ EventBody.targetNodeId body = Some k →
  k ≠ "" →
  notInGraph db k g →
  ∃ error,
    createEvent body db = (db, Failure 400 error)
    ∧ (shapeError body = Some error
       ∨ (shapeError body = None
          ∧ error = "Source node not found in this DAG"
          ∧ ∃ source, EventBody.sourceNodeId body = Some source
                      ∧ source ≠ "" ∧ notInGraph db source g)
       ∨ (shapeError body = None
          ∧ error = "Target node not found in this DAG"
          ∧ EventBody.targetNodeId body = Some k
          ∧ ∀ source, EventBody.sourceNodeId body = Some source →
                      source ≠ "" →
                      ∃ n, nodes db !! source = Some n ∧ Node.dagId n = g)).
Proof.
  intros Hg Hk Hne Hout. unfold createEvent.
  destruct (shapeError body) as [msg|]; [exists msg; split; [done|by left]|].
  pose proof (nodeMissing_true db k g Hne Hout) as Hmiss.
  rewrite Hg.
  destruct (nodeMissing db (EventBody.sourceNodeId body) (Some g)) eqn:Hsrc.
  - eexists. split; [done|]. right. left. split; [done|]. split; [done|].
    unfold nodeMissing in Hsrc. apply andb_true_iff in Hsrc as [Htruthy Hnone].
    destruct (EventBody.sourceNodeId body) as [source|]; [|done].
    exists source. split; [done|]. simpl in Htruthy, Hnone.
    apply negb_true_iff in Htruthy. apply String.eqb_neq in Htruthy.
    split; [done|].
    apply negb_true_iff, bool_decide_eq_false in Hnone.
    intros n Hn Hd. apply Hnone. unfold findNodeInDag. rewrite Hn.
    by rewrite (bool_decide_eq_true_2 _ Hd).
  - destruct Hk as [Hk|Hk]; [rewrite Hk in Hsrc; congruence|].
    rewrite Hk, Hmiss.
    eexists. split; [done|]. right. right. split; [done|]. split; [done|].
    split; [done|]. intros source Hsource Hsne.
    rewrite Hsource in Hsrc. unfold nodeMissing, findNodeInDag in Hsrc.
    simpl in Hsrc.
    apply String.eqb_neq in Hsne. rewrite Hsne in Hsrc. simpl in Hsrc.
    apply negb_false_iff, bool_decide_eq_true in Hsrc as [n Hn].
    destruct (nodes db !! source) as [m|]; [|done].
    destruct (bool_decide (Node.dagId m = g)) eqn:Hd; [|done].
    apply bool_decide_eq_true in Hd. eauto.
Qed.

(** *** The sort order of a new event *)

Lemma maxSortOrderOf_spec l :
  match maxSortOrderOf l with
  | None => l = []
  | Some m => m ∈ l ∧ ∀ x, x ∈ l → x ≤ m
  end.
Proof.
  induction l as [|s l IH]; simpl; [done|].
  destruct (maxSortOrderOf l) as [m|].
  - destruct IH as [Hin Hmax]. split.
    + destruct (Z.max_spec s m) as [[_ ->]|[_ ->]]; [by right|by left].
    + intros x Hx. apply elem_of_cons in Hx as [->|Hx]; [lia|].
      specialize (Hmax x Hx). lia.
  - subst l. split; [by left|]. intros x Hx.
    apply elem_of_cons in Hx as [->|Hx]; [lia|]. by apply elem_of_nil in Hx.
Qed.

Lemma elem_of_sortOrdersOf evs x :
  x ∈ sortOrdersOf evs ↔ ∃ k e, evs !! k = Some e ∧ Event.sortOrder e = x.
Proof.
  unfold sortOrdersOf. rewrite list_elem_of_fmap. split.
  - intros ([k e] & -> & Hin). apply elem_of_map_to_list in Hin. eauto.
  - intros (k & e & Hk & <-). exists (k, e). split; [done|].
    by apply elem_of_map_to_list.
Qed.

(** [nextSortOrder] is one more than the greatest sort order of the set,
    and 0 for the empty set. *)
Lemma nextSortOrder_spec evs :
  (∀ k e, evs !! k = Some e → Event.sortOrder e < nextSortOrder evs)
  ∧ (evs = ∅ → nextSortOrder evs = 0)
  ∧ (evs ≠ ∅ → ∃ k e, evs !! k = Some e
                       ∧ nextSortOrder evs = Event.sortOrder e + 1).
Proof.
  unfold nextSortOrder.
  pose proof (maxSortOrderOf_spec (sortOrdersOf evs)) as Hmax.
  destruct (maxSortOrderOf (sortOrdersOf evs)) as [m|]; simpl.
  - destruct Hmax as [Hin Hmax]. split; [|split].
    + intros k e Hk.
      assert (Event.sortOrder e ≤ m); [|lia].
      apply Hmax, elem_of_sortOrdersOf. eauto.
    + intros ->. apply elem_of_sortOrdersOf in Hin as (k & e & Hk & _).
      by rewrite lookup_empty in Hk.
    + intros _. apply elem_of_sortOrdersOf in Hin as (k & e & Hk & <-). eauto.
  - assert (Hempty : evs = ∅).
    { apply map_to_list_empty_iff. unfold sortOrdersOf in Hmax.
      by apply fmap_nil_inv in Hmax. }
    subst evs. split; [|split]; [|done|done].
    intros k e Hk. by rewrite lookup_empty in Hk.
Qed.

(** C5.  When createEvent succeeds, the sortOrder of the new event is one
    more than the greatest sortOrder among the events of the same graph
    that share its day, when the request has a date, or its seriesDay, when
    it has a seriesDay and no date: it is greater than the sortOrder of each
    of them and exceeds one of them by exactly 1; and it is 0 when there is
    no such event.  A request with neither gets the sortOrder 0.  The event
    is stored with that sortOrder. *)
Theorem createEvent_sortOrder body db db' r g :
  createEvent body db = (db', Json r) →
  EventBody.dagId body = Some g →
  (∀ d, Js.truthy (EventBody.date body) = true →
        parseDate (default "" (EventBody.date body)) = Some d →
        oneMoreThanMax db
          (λ e, Event.dagId e = g ∧ onDayOf d (Event.date e) = true)
          (Event.sortOrder (event r)))
  ∧ (∀ seriesDay,
        Js.truthy (EventBody.date body) = false →
        EventBody.seriesDay body = Some seriesDay →
        oneMoreThanMax db
          (λ e, Event.dagId e = g ∧ Event.seriesDay e = Some seriesDay)
          (Event.sortOrder (event r)))
  ∧ (Js.truthy (EventBody.date body) = false →
     EventBody.seriesDay body = None →
     Event.sortOrder (event r) = 0)
  ∧ ∃ stored, events db' !! event_id r = Some stored
              ∧ Event.sortOrder stored = Event.sortOrder (event r).
Proof.
  intros Hc Hg.
  apply createEvent_Json in Hc
    as (db1 & eventTypeId & _ & _ & _ & Hr & _ & _ & Hstore).
  apply resolveEventType_tables in Hr as (_ & _ & Hev & _).
  assert (Hmax : ∀ (P : Event.t → Prop) (evs : gmap string Event.t),
            (∀ k e, evs !! k = Some e ↔ events db !! k = Some e ∧ P e) →
            oneMoreThanMax db P (nextSortOrder evs)).
  { intros P evs Hevs.
    destruct (nextSortOrder_spec evs) as (Hlt & Hzero & Hone).
    split; [|split].
    - intros k e Hk HPe. apply (Hlt k). by apply Hevs.
    - intros Hnone. apply Hzero. apply map_empty. intros k.
      destruct (evs !! k) as [e|] eqn:Hk; [|done].
      apply Hevs in Hk as [Hk HPe]. by destruct (Hnone k e).
    - intros (k & e & Hk & HPe).
      destruct Hone as (k' & e' & Hk' & Hn).
      + intros Hempty. assert (evs !! k = Some e) as Hin by (by apply Hevs).
        by rewrite Hempty, lookup_empty in Hin.
      + apply Hevs in Hk' as [Hk' HP']. eauto. }
  assert (Hstored : ∃ stored, events db' !! event_id r = Some stored
            ∧ Event.sortOrder stored = Event.sortOrder (event r)).
  { unfold storeEvent in Hstore. destruct (edgeRequested body).
    - unfold deriveEdge in Hstore.
      destruct (findEdgeBetween _ _ _ _); injection Hstore as <- <-; simpl.
      + rewrite lookup_insert_eq. eauto.
      + rewrite lookup_alter_eq, lookup_insert_eq. simpl. eauto.
    - injection Hstore as <- <-. simpl. rewrite lookup_insert_eq. eauto. }
  apply storeEvent_spec in Hstore as (_ & Hevent & _).
  rewrite Hevent in Hstored |- *.
  split; [|split; [|split]]; [| | |exact Hstored];
    unfold eventDataOf, newSortOrder, eventDateOf; simpl; rewrite Hg; simpl.
  - intros d Hdate Hparse. rewrite Hdate, Hparse. simpl.
    apply Hmax. intros k e. unfold sameDayEvents. rewrite Hev.
    apply map_lookup_filter_Some.
  - intros seriesDay Hdate Hseries. rewrite Hdate, Hseries. simpl.
    apply Hmax. intros k e. unfold sameSeriesDayEvents. rewrite Hev.
    apply map_lookup_filter_Some.
  - intros Hdate Hseries. by rewrite Hdate, Hseries.
Qed.

End CreateEvent.



(** ** Reordering events *)

Lemma size_list_to_set_le (l : list string) :
  (size (list_to_set l : gset string) ≤ length l)%nat.
Proof.
  induction l as [|a l IH].
  - change (list_to_set [] : gset string) with (∅ : gset string).
    by rewrite size_empty.
  - change (list_to_set (a :: l) : gset string)
      with ({[a]} ∪ list_to_set l : gset string).
    rewrite size_union_alt, size_singleton. simpl.
    pose proof (subseteq_size (list_to_set l ∖ {[a]} : gset string)
                  (list_to_set l)) as Hle.
    specialize (Hle (subseteq_difference_l _ _ _ (reflexivity _))). lia.
Qed.

Lemma size_list_to_set_NoDup (l : list string) :
  size (list_to_set l : gset string) = length l → NoDup l.
Proof.
  induction l as [|a l IH]; intros Hsize; [constructor|].
  change (list_to_set (a :: l) : gset string)
    with ({[a]} ∪ list_to_set l : gset string) in Hsize.
  simpl in Hsize.
  pose proof (size_list_to_set_le l) as Hle.
  destruct (decide (a ∈ l)) as [Hin|Hout].
  - assert (Heq : ({[a]} ∪ list_to_set l : gset string) = list_to_set l).
    { apply subseteq_union_1_L, singleton_subseteq_l.
      by apply elem_of_list_to_set. }
    rewrite Heq in Hsize. lia.
  - rewrite size_union, size_singleton in Hsize
      by (apply disjoint_singleton_l; by rewrite elem_of_list_to_set).
    constructor; [done|]. apply IH. lia.
Qed.

Section ReorderEvents.

Context `{DateImpl}.

Lemma elem_of_eventsToReorder db g d l k :
  k ∈ dom (eventsToReorder db g d l) ↔
  k ∈ l ∧ ∃ e, events db !! k = Some e ∧ Event.dagId e = g
               ∧ onDayOf d (Event.date e) = true.
Proof.
  unfold eventsToReorder. rewrite elem_of_dom. split.
  - intros [e He]. apply map_lookup_filter_Some in He as (He & Hin & Hg & Hd).
    simpl in *. eauto.
  - intros (Hin & e & He & Hg & Hd). exists e.
    apply map_lookup_filter_Some. done.
Qed.

(** The length check of the handler passes exactly for the lists whose
    ids are distinct and all found on the day. *)
Lemma eventsToReorder_size db g d l :
  size (eventsToReorder db g d l) = length l ↔ listedOnDay db g d l.
Proof.
  rewrite <- (size_dom (D:=gset string)).
  assert (Hsub : dom (eventsToReorder db g d l) ⊆ (list_to_set l : gset string)).
  { intros k Hk. apply elem_of_eventsToReorder in Hk as [Hk _].
    by apply elem_of_list_to_set. }
  pose proof (size_list_to_set_le l) as Hle.
  pose proof (subseteq_size _ _ Hsub) as Hle'.
  split.
  - intros Hsize. split; [apply size_list_to_set_NoDup; lia|].
    intros k Hk.
    assert (Heq : dom (eventsToReorder db g d l) = list_to_set l)
      by (apply set_subseteq_size_eq; [done|lia]).
    assert (Hin : k ∈ dom (eventsToReorder db g d l))
      by (rewrite Heq; by apply elem_of_list_to_set).
    by apply elem_of_eventsToReorder in Hin as [_ ?].
  - intros [Hnodup Hall].
    assert (Heq : dom (eventsToReorder db g d l) = list_to_set l).
    { apply set_eq. intros k. rewrite elem_of_eventsToReorder, elem_of_list_to_set.
      split; [by intros [? _]|]. intros Hk. split; [done|by apply Hall]. }
    rewrite Heq. by apply size_list_to_set.
Qed.

(** The updates of a list of distinct, existing ids all succeed; each
    listed event gets its position as sort order and nothing else moves. *)
Lemma updateSortOrders_spec l : ∀ index db,
  NoDup l →
  (∀ k, k ∈ l → is_Some (events db !! k)) →
  ∃ db', updateSortOrders index l db = (db', true)
    ∧ (∀ (j : nat) k, l !! j = Some k →
         ∃ e, events db !! k = Some e
              ∧ events db' !! k = Some (withSortOrder (index + Z.of_nat j) e))
    ∧ (∀ k, k ∉ l → events db' !! k = events db !! k)
    ∧ nodes db' = nodes db ∧ edges db' = edges db.
Proof.
  induction l as [|a l IH]; intros index db Hnodup Hall; simpl.
  - exists db. split; [done|]. split; [|done]. intros j k Hj. done.
  - apply NoDup_cons in Hnodup as [Ha Hnodup].
    destruct (Hall a) as [ea Hea]; [by left|]. rewrite Hea.
    destruct (IH (index + 1)
               (set_events (insert a (withSortOrder index ea)) db) Hnodup)
      as (db' & Hrun & Hlisted & Hother & Hn & He).
    { intros k Hk. simpl. destruct (decide (a = k)) as [->|Hne].
      - rewrite lookup_insert_eq. eauto.
      - rewrite lookup_insert_ne by done. apply Hall. by right. }
    exists db'. split; [done|]. split; [|split; [|done]].
    + intros [|j] k Hj; simpl in Hj.
      * injection Hj as <-. exists ea. split; [done|].
        rewrite (Hother a Ha). simpl. rewrite lookup_insert_eq.
        by rewrite Z.add_0_r.
      * destruct (Hlisted j k Hj) as (e & Hk & Hk'). simpl in Hk.
        assert (a ≠ k) by (intros ->; apply Ha; by eapply list_elem_of_lookup_2).
        rewrite lookup_insert_ne in Hk by done.
        exists e. split; [done|]. rewrite Hk'. do 2 f_equal. lia.
    + intros k Hk. apply not_elem_of_cons in Hk as [Hne Hk].
      rewrite (Hother k Hk). simpl. by rewrite lookup_insert_ne.
Qed.

(** C6 (as amended).  For a request with a graph id, a date that parses
    and a list of event ids: when the ids are distinct and each is the id
    of an event of that graph on that date, reorderEvents succeeds and sets
    the sortOrder of every listed event to its index in the list, leaving
    all other events (those of the date that are not listed included) as
    they were; otherwise it fails with status 400 and changes nothing. *)
Theorem reorderEvents_spec body db g date d eventIds :
  ReorderBody.dagId body = Some g → g ≠ "" →
  ReorderBody.date body = Some date → date ≠ "" →
  parseDate date = Some d →
  ReorderBody.eventIds body = Some eventIds →
  (listedOnDay db g d eventIds →
     (reorderEvents body db).2 = Json tt
     ∧ (∀ (i : nat) k, eventIds !! i = Some k →
          ∃ e, events db !! k = Some e
               ∧ events (reorderEvents body db).1 !! k
                 = Some (withSortOrder (Z.of_nat i) e))
     ∧ (∀ k, k ∉ eventIds →
          events (reorderEvents body db).1 !! k = events db !! k))
  ∧ (¬ listedOnDay db g d eventIds →
     reorderEvents body db
     = (db, Failure 400 "Some events not found or not on the specified date")).
Proof.
  intros Hg Hgne Hdate Hdne Hparse Hids.
  unfold reorderEvents. rewrite Hids, Hg, Hdate. simpl.
  apply String.eqb_neq in Hgne, Hdne. rewrite Hgne, Hdne. simpl.
  rewrite Hparse.
  pose proof (eventsToReorder_size db g d eventIds) as Hsize.
  destruct (size (eventsToReorder db g d eventIds) =? length eventIds)%nat eqn:Hlen.
  - apply Nat.eqb_eq in Hlen. apply Hsize in Hlen. simpl.
    split; [|by intros Hnot]. intros [Hnodup Hall].
    destruct (updateSortOrders_spec eventIds 0 db Hnodup)
      as (db' & Hrun & Hlisted & Hother & _).
    { intros k Hk. destruct (Hall k Hk) as (e & He & _). eauto. }
    rewrite Hrun. simpl. split; [done|]. split; [|done].
    intros i k Hi. destruct (Hlisted i k Hi) as (e & He & He'). eauto.
  - apply Nat.eqb_neq in Hlen. simpl.
    split; [|done]. intros Hlisted. apply Hsize in Hlisted. done.
Qed.

End ReorderEvents.

(** ** Creating entities *)

Lemma decodeEscapes_encodeChar c s :
  decodeEscapes (Uri.encodeChar c +:+ s) = String c <$> decodeEscapes s.
Proof.
  destruct c as [[] [] [] [] [] [] [] []]; reflexivity.
Qed.

Lemma decodeEscapes_encode s :
  decodeEscapes (Uri.encodeURIComponent s) = Some s.
Proof.
  induction s as [|c s IH]; [done|].
  cbn [Uri.encodeURIComponent]. by rewrite decodeEscapes_encodeChar, IH.
Qed.

Lemma encodeURIComponent_inj s1 s2 :
  Uri.encodeURIComponent s1 = Uri.encodeURIComponent s2 → s1 = s2.
Proof.
  intros Heq. apply (f_equal decodeEscapes) in Heq.
  rewrite !decodeEscapes_encode in Heq. by injection Heq.
Qed.

Lemma string_length_append (a b : string) :
  String.length (a +:+ b) = (String.length a + String.length b)%nat.
Proof.
  induction a as [|x a IH]; [done|].
  change (String x a +:+ b) with (String x (a +:+ b)). simpl. by rewrite IH.
Qed.

Lemma string_append_inj_l (p a b : string) : p +:+ a = p +:+ b → a = b.
Proof.
  induction p as [|x p IH]; [done|].
  change (String x p +:+ a) with (String x (p +:+ a)).
  change (String x p +:+ b) with (String x (p +:+ b)).
  intros Heq. injection Heq. done.
Qed.

Lemma string_append_inj_r (t a : string) : ∀ b, a +:+ t = b +:+ t → a = b.
Proof.
  induction a as [|x a IH]; intros [|y b] Heq; [done| | |].
  - apply (f_equal String.length) in Heq.
    rewrite !string_length_append in Heq. simpl in Heq. lia.
  - apply (f_equal String.length) in Heq.
    rewrite !string_length_append in Heq. simpl in Heq. lia.
  - change (String x (a +:+ t) = String y (b +:+ t)) in Heq.
    injection Heq as -> Heq. f_equal. by apply IH.
Qed.

(** The avatar URL determines the name. *)
Lemma avatarUrl_inj name1 name2 : avatarUrl name1 = avatarUrl name2 → name1 = name2.
Proof.
  unfold avatarUrl. intros Heq.
  apply string_append_inj_l, string_append_inj_r in Heq.
  by apply encodeURIComponent_inj.
Qed.

Lemma avatarUrl_truthy name : Js.truthy (Some (avatarUrl name)) = true.
Proof. reflexivity. Qed.

(** C10.  createEntity rejects a name shorter than 2 characters with the
    validation failure (status 400) and creates nothing, whatever the
    roleId is, an existing role included.  For every accepted input the
    name has at least 2 characters, the role exists, and the entity
    returned and the entity stored under its new id both carry the avatar
    URL built from the name: the ui-avatars address with the
    URI-encoded name as its name parameter.  Names that differ have avatar
    URLs that differ. *)
Theorem createEntity_spec body db :
  (∀ name, EntityBody.name body = Some name →
           (String.length name < 2)%nat →
           createEntity body db = (db, Failure 400 "Invalid data"))
  ∧ (∀ db' k e, createEntity body db = (db', Json (k, e)) →
       ∃ name,
         EntityBody.name body = Some name
         ∧ (2 ≤ String.length name)%nat
         ∧ (∃ roleId, EntityBody.roleId body = Some roleId
                      ∧ is_Some (roles db !! roleId))
         ∧ Entity.name e = name
         ∧ Entity.avatar e
           = Some ("https://ui-avatars.com/api/?name="
                   +:+ Uri.encodeURIComponent name +:+ "&background=random")
         ∧ entities db !! k = None
         ∧ (∃ stored, entities db' !! k = Some stored
                      ∧ Entity.name stored = name
                      ∧ Entity.avatar stored = Entity.avatar e))
  ∧ (∀ name1 name2, avatarUrl name1 = avatarUrl name2 → name1 = name2).
Proof.
  split; [|split; [|apply avatarUrl_inj]].
  - intros name Hname Hshort. unfold createEntity, parseCreateEntity.
    rewrite Hname. destruct (EntityBody.roleId body); [|done].
    apply Nat.ltb_lt in Hshort. by rewrite Hshort.
  - intros db' k e. unfold createEntity, parseCreateEntity.
    destruct (EntityBody.name body) as [name|]; [|done].
    destruct (EntityBody.roleId body) as [roleId|]; [|done].
    destruct (String.length name <? 2)%nat eqn:Hlen; [done|].
    apply Nat.ltb_ge in Hlen.
    assert (Hcreate : ∀ entityType,
      match roles db !! roleId with
      | Some _ =>
          (set_entities (insert (fresh (dom (entities db)))
             (Entity.mk name roleId
                (if Js.truthy (Some entityType) then entityType else "human")
                (EntityBody.description body) (Some (avatarUrl name)))) db,
           Json (fresh (dom (entities db)),
                 Entity.mk name roleId
                   (if Js.truthy (Some entityType) then entityType else "human")
                   (Js.orNull (EntityBody.description body))
                   (Js.orNull (Some (avatarUrl name)))))
      | None => (db, Failure 400 "Invalid role ID")
      end = (db', Json (k, e)) →
      ∃ name0, Some name = Some name0 ∧ (2 ≤ String.length name0)%nat
        ∧ (∃ roleId0, Some roleId = Some roleId0 ∧ is_Some (roles db !! roleId0))
        ∧ Entity.name e = name0
        ∧ Entity.avatar e = Some (avatarUrl name0)
        ∧ entities db !! k = None
        ∧ (∃ stored, entities db' !! k = Some stored
                     ∧ Entity.name stored = name0
                     ∧ Entity.avatar stored = Entity.avatar e)).
    { intros entityType Hc. destruct (roles db !! roleId) as [role|] eqn:Hrole; [|done].
      injection Hc as <- <- <-. exists name. simpl.
      split; [done|]. split; [done|]. split; [eauto|]. split; [done|].
      split; [done|]. split; [apply not_elem_of_dom, is_fresh|].
      eexists. rewrite lookup_insert_eq. done. }
    destruct (EntityBody.entityType body) as [entityType|].
    + destruct (bool_decide _); [|done]. apply Hcreate.
    + apply Hcreate.
Qed.

(** ** Node placement *)

(** *** The order of the numbers *)

Lemma SFcompare_key f1 f2 :
  f1 ≠ S754_nan → f2 ≠ S754_nan →
  SFcompare f1 f2 = Some (keyCompare (orderKey f1) (orderKey f2)).
Proof.
  intros H1 H2.
  destruct f1 as [s1|s1| |s1 m1 e1], f2 as [s2|s2| |s2 m2 e2]; try done;
    try (by destruct s1); try (by destruct s2); try (by destruct s1, s2).
  destruct s1, s2; try done; unfold keyCompare; simpl.
  rewrite Z.compare_opp, (Z.compare_antisym e1 e2).
  by destruct (e1 ?= e2).
Qed.

Lemma keyCompare_Lt k1 k2 : keyCompare k1 k2 = Lt ↔ keyLt k1 k2.
Proof.
  unfold keyCompare, keyLt.
  destruct (Z.compare_spec k1.1.1 k2.1.1), (Z.compare_spec k1.1.2 k2.1.2),
    (Z.compare_spec k1.2 k2.2); split; intros; try done; lia.
Qed.

Lemma keyCompare_Eq k1 k2 : keyCompare k1 k2 = Eq ↔ k1 = k2.
Proof.
  unfold keyCompare. destruct k1 as [[a1 b1] c1], k2 as [[a2 b2] c2]; simpl.
  destruct (Z.compare_spec a1 a2), (Z.compare_spec b1 b2),
    (Z.compare_spec c1 c2); split; intros Heq; try done;
    try (injection Heq; intros; lia); subst; done.
Qed.

Lemma SFcompare_refl f : f ≠ S754_nan → SFcompare f f = Some Eq.
Proof.
  intros Hf. rewrite SFcompare_key by done. f_equal. by apply keyCompare_Eq.
Qed.

Lemma is_nan_false f : is_nan f = false ↔ Prim2SF f ≠ S754_nan.
Proof.
  unfold is_nan. rewrite FloatAxioms.eqb_spec. unfold SFeqb. split.
  - intros Hn Hf. rewrite Hf in Hn. done.
  - intros Hf. by rewrite SFcompare_refl.
Qed.

Lemma ltb_key a b :
  is_nan a = false → is_nan b = false →
  (a <? b)%float = true ↔ keyLt (keyOf a) (keyOf b).
Proof.
  intros Ha%is_nan_false Hb%is_nan_false.
  rewrite ltb_spec. unfold SFltb. rewrite SFcompare_key by done.
  rewrite <- keyCompare_Lt. unfold keyOf.
  destruct (keyCompare _ _); split; done.
Qed.

Lemma leb_key a b :
  is_nan a = false → is_nan b = false →
  (a <=? b)%float = true ↔ ¬ keyLt (keyOf b) (keyOf a).
Proof.
  intros Ha%is_nan_false Hb%is_nan_false.
  rewrite leb_spec. unfold SFleb. rewrite SFcompare_key by done.
  unfold keyOf.
  pose proof (keyCompare_Lt (orderKey (Prim2SF a)) (orderKey (Prim2SF b))) as HLt.
  pose proof (keyCompare_Eq (orderKey (Prim2SF a)) (orderKey (Prim2SF b))) as HEq.
  pose proof (keyCompare_Lt (orderKey (Prim2SF b)) (orderKey (Prim2SF a))) as HGt.
  unfold keyLt in *.
  destruct (orderKey (Prim2SF a)) as [[a1 a2] a3], (orderKey (Prim2SF b)) as [[b1 b2] b3].
  simpl in *.
  destruct (keyCompare (a1, a2, a3) (b1, b2, b3)) eqn:Hc.
  - assert (Heq : (a1, a2, a3) = (b1, b2, b3)) by (by apply HEq).
    injection Heq as -> -> ->. split; [lia|done].
  - assert (a1 < b1 ∨ a1 = b1 ∧ (a2 < b2 ∨ a2 = b2 ∧ a3 < b3)) by (by apply HLt).
    split; [lia|done].
  - split; [done|]. intros Hn. exfalso.
    assert (Hne : (a1, a2, a3) ≠ (b1, b2, b3)) by (intros ?%HEq; congruence).
    assert (Hnlt : ¬ (a1 < b1 ∨ a1 = b1 ∧ (a2 < b2 ∨ a2 = b2 ∧ a3 < b3)))
      by (intros ?%HLt; congruence).
    apply Hne. f_equal; [f_equal|]; lia.
Qed.

Section Placement.

Import Positioning.

Lemma keyOf_zero v : is_zero v = true → is_nan v = false → keyOf v = (0, 0, 0).
Proof.
  unfold is_zero. rewrite FloatAxioms.eqb_spec. unfold SFeqb.
  intros Hz Hn%is_nan_false.
  rewrite SFcompare_key in Hz by done.
  destruct (keyCompare _ _) eqn:Hc; try done.
  apply keyCompare_Eq in Hc. unfold keyOf. by rewrite Hc.
Qed.

Lemma keyLt_irrefl k : ¬ keyLt k k.
Proof. unfold keyLt. lia. Qed.

Lemma keyLt_asym k1 k2 : keyLt k1 k2 → ¬ keyLt k2 k1.
Proof. unfold keyLt. lia. Qed.

Lemma keyLe_trans k1 k2 k3 : ¬ keyLt k2 k1 → ¬ keyLt k3 k2 → ¬ keyLt k3 k1.
Proof. unfold keyLt. lia. Qed.

Lemma minStep_spec lowest number :
  notNaN lowest → notNaN number →
  notNaN (minStep lowest number)
  ∧ (minStep lowest number = lowest ∨ minStep lowest number = number)
  ∧ ¬ keyLt (keyOf lowest) (keyOf (minStep lowest number))
  ∧ ¬ keyLt (keyOf number) (keyOf (minStep lowest number)).
Proof.
  intros Hl Hn. unfold minStep. rewrite Hl, Hn. simpl.
  destruct (is_zero number && get_sign number && is_zero lowest
            && negb (get_sign lowest)) eqn:Hzero.
  - apply andb_true_iff in Hzero as [Hzero _].
    apply andb_true_iff in Hzero as [Hzero Hzl].
    apply andb_true_iff in Hzero as [Hzn _].
    rewrite (keyOf_zero _ Hzn Hn), (keyOf_zero _ Hzl Hl).
    split; [done|]. split; [by right|]. split; apply keyLt_irrefl.
  - destruct (number <? lowest)%float eqn:Hlt.
    + apply ltb_key in Hlt; [|done..].
      split; [done|]. split; [by right|].
      split; [by apply keyLt_asym|apply keyLt_irrefl].
    + split; [done|]. split; [by left|]. split; [apply keyLt_irrefl|].
      intros Hk. apply ltb_key in Hk; [|done..]. congruence.
Qed.

Lemma maxStep_spec highest number :
  notNaN highest → notNaN number →
  notNaN (maxStep highest number)
  ∧ (maxStep highest number = highest ∨ maxStep highest number = number)
  ∧ ¬ keyLt (keyOf (maxStep highest number)) (keyOf highest)
  ∧ ¬ keyLt (keyOf (maxStep highest number)) (keyOf number).
Proof.
  intros Hh Hn. unfold maxStep. rewrite Hh, Hn. simpl.
  destruct (is_zero number && negb (get_sign number) && is_zero highest
            && get_sign highest) eqn:Hzero.
  - apply andb_true_iff in Hzero as [Hzero _].
    apply andb_true_iff in Hzero as [Hzero Hzh].
    apply andb_true_iff in Hzero as [Hzn _].
    rewrite (keyOf_zero _ Hzn Hn), (keyOf_zero _ Hzh Hh).
    split; [done|]. split; [by right|]. split; apply keyLt_irrefl.
  - destruct (highest <? number)%float eqn:Hlt.
    + apply ltb_key in Hlt; [|done..].
      split; [done|]. split; [by right|].
      split; [by apply keyLt_asym|apply keyLt_irrefl].
    + split; [done|]. split; [by left|]. split; [apply keyLt_irrefl|].
      intros Hk. apply ltb_key in Hk; [|done..]. congruence.
Qed.

Lemma foldl_minStep_spec values : ∀ lowest,
  notNaN lowest → Forall notNaN values →
  notNaN (foldl minStep lowest values)
  ∧ foldl minStep lowest values ∈ lowest :: values
  ∧ ¬ keyLt (keyOf lowest) (keyOf (foldl minStep lowest values))
  ∧ ∀ v, v ∈ values → ¬ keyLt (keyOf v) (keyOf (foldl minStep lowest values)).
Proof.
  induction values as [|number values IH]; intros lowest Hl Hall; simpl.
  - split; [done|]. split; [by left|]. split; [apply keyLt_irrefl|].
    intros v Hv. by apply elem_of_nil in Hv.
  - apply Forall_cons in Hall as [Hn Hall].
    destruct (minStep_spec lowest number Hl Hn) as (Hr & Hwhich & Hle1 & Hle2).
    destruct (IH (minStep lowest number) Hr Hall) as (Hr' & Hin & Hle & Hrest).
    split; [done|]. split; [|split].
    + apply elem_of_cons in Hin as [Hin|Hin].
      * rewrite Hin. destruct Hwhich as [->| ->]; [by left|by right; left].
      * by right; right.
    + by eapply keyLe_trans.
    + intros v Hv. apply elem_of_cons in Hv as [->|Hv]; [|by apply Hrest].
      by eapply keyLe_trans.
Qed.

Lemma foldl_maxStep_spec values : ∀ highest,
  notNaN highest → Forall notNaN values →
  notNaN (foldl maxStep highest values)
  ∧ foldl maxStep highest values ∈ highest :: values
  ∧ ¬ keyLt (keyOf (foldl maxStep highest values)) (keyOf highest)
  ∧ ∀ v, v ∈ values → ¬ keyLt (keyOf (foldl maxStep highest values)) (keyOf v).
Proof.
  induction values as [|number values IH]; intros highest Hh Hall; simpl.
  - split; [done|]. split; [by left|]. split; [apply keyLt_irrefl|].
    intros v Hv. by apply elem_of_nil in Hv.
  - apply Forall_cons in Hall as [Hn Hall].
    destruct (maxStep_spec highest number Hh Hn) as (Hr & Hwhich & Hle1 & Hle2).
    destruct (IH (maxStep highest number) Hr Hall) as (Hr' & Hin & Hle & Hrest).
    split; [done|]. split; [|split].
    + apply elem_of_cons in Hin as [Hin|Hin].
      * rewrite Hin. destruct Hwhich as [->| ->]; [by left|by right; left].
      * by right; right.
    + eapply keyLe_trans; [exact Hle1|exact Hle].
    + intros v Hv. apply elem_of_cons in Hv as [->|Hv]; [|by apply Hrest].
      eapply keyLe_trans; [exact Hle2|exact Hle].
Qed.

Lemma key_top v :
  notNaN v → ¬ keyLt (keyOf v) (keyOf infinity) → v = infinity.
Proof.
  intros Hn%is_nan_false Hk.
  rewrite <- (SF2Prim_Prim2SF v). unfold keyOf in Hk.
  change (Prim2SF infinity) with (S754_infinity false) in Hk.
  destruct (Prim2SF v) as [s|s| |s m e]; try done.
  - exfalso. apply Hk. unfold keyLt. simpl. lia.
  - destruct s; [|done]. exfalso. apply Hk. unfold keyLt. simpl. lia.
  - exfalso. apply Hk. unfold keyLt. destruct s; simpl; lia.
Qed.

Lemma key_bottom v :
  notNaN v → ¬ keyLt (keyOf neg_infinity) (keyOf v) → v = neg_infinity.
Proof.
  intros Hn%is_nan_false Hk.
  rewrite <- (SF2Prim_Prim2SF v). unfold keyOf in Hk.
  change (Prim2SF neg_infinity) with (S754_infinity true) in Hk.
  destruct (Prim2SF v) as [s|s| |s m e]; try done.
  - exfalso. apply Hk. unfold keyLt. simpl. lia.
  - destruct s; [done|]. exfalso. apply Hk. unfold keyLt. simpl. lia.
  - exfalso. apply Hk. unfold keyLt. destruct s; simpl; lia.
Qed.

(** On numbers (no NaN), [Math.min] returns one of its arguments, and it
    is below or equal to each of them. *)
Lemma Math_min_spec values :
  values ≠ [] → Forall notNaN values →
  Math_min values ∈ values
  ∧ ∀ v, v ∈ values → (Math_min values <=? v)%float = true.
Proof.
  intros Hne Hall. unfold Math_min.
  destruct (foldl_minStep_spec values infinity eq_refl Hall)
    as (Hr & Hin & Hle & Hrest).
  split.
  - apply elem_of_cons in Hin as [Hin|Hin]; [|done].
    destruct values as [|v values]; [done|].
    assert (Hv : v = infinity).
    { apply key_top.
      - by apply Forall_cons in Hall as [? _].
      - rewrite <- Hin. apply Hrest. by left. }
    rewrite Hin, <- Hv. by left.
  - intros v Hv. apply leb_key; [done| |by apply Hrest].
    rewrite Forall_forall in Hall. by apply Hall.
Qed.

Lemma Math_max_spec values :
  values ≠ [] → Forall notNaN values →
  Math_max values ∈ values
  ∧ ∀ v, v ∈ values → (v <=? Math_max values)%float = true.
Proof.
  intros Hne Hall. unfold Math_max.
  destruct (foldl_maxStep_spec values neg_infinity eq_refl Hall)
    as (Hr & Hin & Hle & Hrest).
  split.
  - apply elem_of_cons in Hin as [Hin|Hin]; [|done].
    destruct values as [|v values]; [done|].
    assert (Hv : v = neg_infinity).
    { apply key_bottom.
      - by apply Forall_cons in Hall as [? _].
      - rewrite <- Hin. apply Hrest. by left. }
    rewrite Hin, <- Hv. by left.
  - intros v Hv. apply leb_key; [|done|by apply Hrest].
    rewrite Forall_forall in Hall. by apply Hall.
Qed.

Local Open Scope float_scope.

(** The bounding box of nodes with numeric coordinates contains each of
    them, and each of its sides passes through one of them. *)
Lemma boundingBox_spec nodes :
  nodes ≠ [] →
  Forall notNaN (xsOf nodes) → Forall notNaN (ysOf nodes) →
  (∀ node, node ∈ nodes → inBoundingBox nodes (position node))
  ∧ Math_min (xsOf nodes) ∈ xsOf nodes ∧ Math_max (xsOf nodes) ∈ xsOf nodes
  ∧ Math_min (ysOf nodes) ∈ ysOf nodes ∧ Math_max (ysOf nodes) ∈ ysOf nodes.
Proof.
  intros Hne Hxs Hys.
  assert (Hxne : xsOf nodes ≠ []) by (by destruct nodes).
  assert (Hyne : ysOf nodes ≠ []) by (by destruct nodes).
  destruct (Math_min_spec _ Hxne Hxs) as [Hminx Hlox].
  destruct (Math_max_spec _ Hxne Hxs) as [Hmaxx Hhix].
  destruct (Math_min_spec _ Hyne Hys) as [Hminy Hloy].
  destruct (Math_max_spec _ Hyne Hys) as [Hmaxy Hhiy].
  split; [|done].
  intros node Hnode.
  assert (Hx : x (position node) ∈ xsOf nodes).
  { unfold xsOf. apply list_elem_of_fmap. exists (position node).
    split; [done|]. apply list_elem_of_fmap. eauto. }
  assert (Hy : y (position node) ∈ ysOf nodes).
  { unfold ysOf. apply list_elem_of_fmap. exists (position node).
    split; [done|]. apply list_elem_of_fmap. eauto. }
  repeat split; eauto.
Qed.

(** C7.  The placement heuristic is a function of the related nodes, the
    viewport and the window size, and does not read the other nodes.
    Without related nodes it returns the origin when no viewport is given
    and the centre of the viewport otherwise; for one related node it
    returns that node's position moved 300 to the right and 150 down; for
    two or more it returns the centre of their bounding box, the midpoint
    between the least and the greatest coordinate on each axis, moved by
    250 on both axes.  The least and greatest coordinates do bound the
    related nodes and are coordinates of related nodes, when all
    coordinates are numbers. *)
Theorem calculateSmartPosition_cases window allNodes :
  calculateSmartPosition window [] allNodes None = mkPosition 0 0
  ∧ (∀ viewport,
       calculateSmartPosition window [] allNodes (Some viewport)
       = mkPosition (- vx viewport / zoom viewport
                     + (innerWidth window / 2) / zoom viewport)
                    (- vy viewport / zoom viewport
                     + (innerHeight window / 2) / zoom viewport))
  ∧ (∀ node viewport,
       calculateSmartPosition window [node] allNodes viewport
       = mkPosition (x (position node) + 300) (y (position node) + 150))
  ∧ (∀ node1 node2 others viewport,
       let related := node1 :: node2 :: others in
       calculateSmartPosition window related allNodes viewport
       = mkPosition
           ((Math_min (xsOf related) + Math_max (xsOf related)) / 2 + 250)
           ((Math_min (ysOf related) + Math_max (ysOf related)) / 2 + 250))
  ∧ (∀ related,
       related ≠ [] →
       Forall notNaN (xsOf related) → Forall notNaN (ysOf related) →
       (∀ node, node ∈ related → inBoundingBox related (position node))
       ∧ Math_min (xsOf related) ∈ xsOf related
       ∧ Math_max (xsOf related) ∈ xsOf related
       ∧ Math_min (ysOf related) ∈ ysOf related
       ∧ Math_max (ysOf related) ∈ ysOf related)
  ∧ (∀ related allNodes' viewport,
       calculateSmartPosition window related allNodes' viewport
       = calculateSmartPosition window related allNodes viewport)
  ∧ (∀ node related window' viewport viewport',
       calculateSmartPosition window' (node :: related) allNodes viewport'
       = calculateSmartPosition window (node :: related) allNodes viewport).
Proof.
  split; [reflexivity|]. split; [reflexivity|]. split; [reflexivity|].
  split; [reflexivity|]. split; [apply boundingBox_spec|]. split.
  - intros related allNodes' viewport. by destruct related as [|? [|? ?]].
  - intros node related window' viewport viewport'. by destruct related.
Qed.

(** *** The loop counter

    The facts about the doubles of the whole numbers up to [counterBound]
    are checked on each of them. *)

Lemma checked_below (check : Z → bool) (bound : Z) :
  forallb check (seqZ 0 bound) = true →
  ∀ k, (0 ≤ k < bound)%Z → check k = true.
Proof.
  intros Hall k Hk. rewrite forallb_forall in Hall. apply Hall.
  apply list_elem_of_In, elem_of_seqZ. lia.
Qed.

(** [attempts++] on the double of a whole number. *)
Lemma numberOf_succ k :
  (0 ≤ k < counterBound)%Z → numberOf k + 1 = numberOf (k + 1).
Proof.
  intros Hk. apply Leibniz.eqb_spec.
  apply (checked_below
           (λ j, PrimFloat.Leibniz.eqb (numberOf j + 1) (numberOf (j + 1)))
           counterBound); [vm_compute; reflexivity|done].
Qed.










Context `{MathImpl}.


(** The loop started with the counter at the whole number [attempts] and
    with fuel for the iterations that are left. *)
Lemma spiralLoop_spec desiredPosition allNodes maxAttempts n fuel :
  (0 ≤ n ≤ counterBound)%Z →
  attemptsAllowed maxAttempts n →
  ∀ position' attempts,
    (0 ≤ attempts ≤ n)%Z →
    (n - attempts ≤ Z.of_nat fuel)%Z →
    ∃ p k,
      spiralLoop fuel desiredPosition allNodes maxAttempts position'
                 (numberOf attempts)
      = Some (p, numberOf k)
      ∧ (attempts ≤ k ≤ n)%Z
      ∧ (k = attempts → p = position')
      ∧ (attempts < k →
         p = candidate desiredPosition (numberOf (k - 1))
         ∧ hasPositionConflict position' allNodes = true)%Z
      ∧ (hasPositionConflict p allNodes = false ∨ k = n)
      ∧ (∀ j, attempts < j → j < k →
              hasPositionConflict (candidate desiredPosition (numberOf (j - 1)))
                                  allNodes = true)%Z.
Proof.
  intros Hn [Hbelow Hlimit].
  assert (Hstop : ∀ fuel' position', ∃ p k,
            spiralLoop fuel' desiredPosition allNodes maxAttempts position'
                       (numberOf n) = Some (p, numberOf k)
            ∧ (n ≤ k ≤ n)%Z ∧ (k = n → p = position')
            ∧ (n < k →
               p = candidate desiredPosition (numberOf (k - 1))
               ∧ hasPositionConflict position' allNodes = true)%Z
            ∧ (hasPositionConflict p allNodes = false ∨ k = n)
            ∧ (∀ j, n < j → j < k →
                 hasPositionConflict
                   (candidate desiredPosition (numberOf (j - 1))) allNodes
                 = true)%Z).
  { intros fuel' position'. exists position', n.
    split; [destruct fuel'; simpl; by rewrite Hlimit, andb_false_r|].
    repeat split; first [done | lia | by right]. }
  induction fuel as [|fuel IH]; intros position' attempts Ha Hfuel.
  - assert (attempts = n) as -> by lia. apply Hstop.
  - destruct (decide (attempts = n)) as [->|Hne]; [apply Hstop|].
    simpl. rewrite (Hbelow attempts) by lia. rewrite andb_true_r.
    destruct (hasPositionConflict position' allNodes) eqn:Hconflict.
    + rewrite numberOf_succ by lia.
      destruct (IH (candidate desiredPosition (numberOf attempts))
                   (attempts + 1)%Z)
        as (p & k & Hrun & Hle & Hsame & Hlater & Hexit & Htried); [lia..|].
      exists p, k. split; [done|]. split; [lia|]. split; [lia|].
      split; [|split; [done|]].
      * intros _. split; [|done].
        destruct (decide (k = attempts + 1)%Z) as [Heq|Hne'].
        -- rewrite (Hsame Heq). subst k. f_equal. f_equal. lia.
        -- apply Hlater. lia.
      * intros j Hj Hjk.
        destruct (decide (j = attempts + 1)%Z) as [->|Hne'].
        -- replace (attempts + 1 - 1)%Z with attempts by lia.
           destruct (Hlater ltac:(lia)) as [_ Hc]. exact Hc.
        -- apply Htried; lia.
    + exists position', attempts.
      repeat split; first [done | lia | by left].
Qed.


End Placement.

(** ** The claims on the example data *)

(** A target that is a node of another graph. *)
Lemma createEvent_rejects_foreign_node_witness :
  @createEvent Example.utc Example.crossGraph Example.db2
  = (Example.db2, Failure 400 "Target node not found in this DAG").
Proof.
  destruct (@createEvent_rejects_foreign_node Example.utc
              Example.crossGraph Example.db2 "g" "z")
    as (error & Hc & Hwhich).
  - reflexivity.
  - right. reflexivity.
  - discriminate.
  - intros n Hn. vm_compute in Hn. injection Hn as <-. discriminate.
  - rewrite Hc.
    destruct Hwhich
      as [Hshape|[(_ & _ & source & Hsource & _ & Hout)|(_ & -> & _)]].
    + vm_compute in Hshape. discriminate.
    + injection Hsource as <-.
      by destruct (Hout (Node.mk "g" "e1" 300 150 None (Some "custom"))).
    + reflexivity.
Defined.

(** C4 as stated fails: the node z belongs to the graph h; a request for
    the graph g that names it as its target is refused with status 400,
    the status of the route's validation failures, and not with 404. *)
Lemma createEvent_foreign_node_counterexample :
  (Node.dagId <$> nodes Example.db2 !! "z") = Some "h"
  ∧ EventBody.dagId Example.crossGraph = Some "g"
  ∧ EventBody.targetNodeId Example.crossGraph = Some "z"
  ∧ @createEvent Example.utc Example.crossGraph Example.db2
    = (Example.db2, Failure 400 "Target node not found in this DAG")
  ∧ (∀ error, (@createEvent Example.utc Example.crossGraph Example.db2).2
              ≠ Failure 404 error).
Proof.
  split; [vm_compute; reflexivity|]. split; [reflexivity|].
  split; [reflexivity|]. split; [vm_compute; reflexivity|].
  intros error Heq. vm_compute in Heq. discriminate.
Qed.

(** A fourth event on a day whose greatest sort order is 4, and a third
    event on a series day whose greatest sort order is 2. *)
Lemma createEvent_sortOrder_witness :
  (∃ db' r,
     @createEvent Example.utc Example.meeting Example.db3 = (db', Json r)
     ∧ Event.sortOrder (event r) = 5
     ∧ oneMoreThanMax Example.db3
         (λ e, Event.dagId e = "g"
               ∧ @onDayOf Example.utc 1709251200000 (Event.date e) = true)
         (Event.sortOrder (event r)))
  ∧ (∃ db' r,
       @createEvent Example.utc (Example.onSeriesDay "Seizure" 3) Example.db4
       = (db', Json r)
       ∧ Event.sortOrder (event r) = 3
       ∧ oneMoreThanMax Example.db4
           (λ e, Event.dagId e = "g" ∧ Event.seriesDay e = Some 3)
           (Event.sortOrder (event r))).
Proof.
  split.
  - eexists _, _. split; [vm_compute; reflexivity|]. split; [reflexivity|].
    apply (proj1 (@createEvent_sortOrder Example.utc Example.meeting
                    Example.db3 _ _ "g" ltac:(vm_compute; reflexivity) eq_refl)
             1709251200000); reflexivity.
  - eexists _, _. split; [vm_compute; reflexivity|]. split; [reflexivity|].
    apply (proj1 (proj2 (@createEvent_sortOrder Example.utc
                           (Example.onSeriesDay "Seizure" 3) Example.db4 _ _ "g"
                           ltac:(vm_compute; reflexivity) eq_refl))
             3); reflexivity.
Defined.

Lemma listedOnDay_example :
  @listedOnDay Example.utc Example.db3 "g" 1709251200000 ["ev3"; "ev1"; "ev2"].
Proof.
  split.
  - compute_done.
  - intros k Hk.
    repeat (apply elem_of_cons in Hk as [->|Hk]);
      [eexists; split; [vm_compute; reflexivity|by split]..|].
    by apply elem_of_nil in Hk.
Qed.

Lemma not_listedOnDay_example :
  ¬ @listedOnDay Example.utc Example.db3 "g" 1709251200000 ["ev1"; "ev4"].
Proof.
  intros [_ Hall]. destruct (Hall "ev4") as (e & He & _ & Hday).
  - right. left.
  - vm_compute in He. injection He as <-. vm_compute in Hday. discriminate.
Qed.

(** A full reordering of the day, and a list with an event of another
    day. *)
Lemma reorderEvents_spec_witness :
  (@reorderEvents Example.utc (Example.reorderBody ["ev3"; "ev1"; "ev2"])
                  Example.db3).2 = Json tt
  ∧ @reorderEvents Example.utc (Example.reorderBody ["ev1"; "ev4"]) Example.db3
    = (Example.db3,
       Failure 400 "Some events not found or not on the specified date").
Proof.
  split.
  - apply (@reorderEvents_spec Example.utc
             (Example.reorderBody ["ev3"; "ev1"; "ev2"]) Example.db3
             "g" "2024-03-01" 1709251200000 ["ev3"; "ev1"; "ev2"]);
      [reflexivity|discriminate|reflexivity|discriminate|reflexivity|reflexivity|].
    apply listedOnDay_example.
  - apply (@reorderEvents_spec Example.utc
             (Example.reorderBody ["ev1"; "ev4"]) Example.db3
             "g" "2024-03-01" 1709251200000 ["ev1"; "ev4"]);
      [reflexivity|discriminate|reflexivity|discriminate|reflexivity|reflexivity|].
    apply not_listedOnDay_example.
Defined.

(** C6 as stated fails: ev1, ev2 and ev3 are the events of the graph on
    2024-03-01; a list that names ev2 alone omits two of them and is
    accepted, and ev2 gets sort order 0 while ev1 keeps its own 0. *)
Lemma reorderEvents_omitted_counterexample :
  dom (@sameDayEvents Example.utc Example.db3 "g" 1709251200000)
  = {[ "ev1"; "ev2"; "ev3" ]}
  ∧ (@reorderEvents Example.utc (Example.reorderBody ["ev2"]) Example.db3).2
    = Json tt
  ∧ Event.sortOrder <$>
      events (@reorderEvents Example.utc (Example.reorderBody ["ev2"])
                             Example.db3).1 !! "ev2" = Some 0
  ∧ Event.sortOrder <$>
      events (@reorderEvents Example.utc (Example.reorderBody ["ev2"])
                             Example.db3).1 !! "ev1" = Some 0.
Proof. repeat split; vm_compute; reflexivity. Qed.

(** A one-letter name with an existing role, and an accepted name. *)
Lemma createEntity_spec_witness :
  createEntity (Example.entityBody "A" "role-witness") Example.db0
  = (Example.db0, Failure 400 "Invalid data")
  ∧ ∃ db' k e,
      createEntity (Example.entityBody "Al Capone" "role-witness") Example.db0
      = (db', Json (k, e))
      ∧ Entity.avatar e
        = Some "https://ui-avatars.com/api/?name=Al%20Capone&background=random".
Proof.
  split.
  - apply (proj1 (createEntity_spec (Example.entityBody "A" "role-witness")
                    Example.db0) "A"); [reflexivity|simpl; lia].
  - eexists _, _, _. split; [vm_compute; reflexivity|].
    destruct (proj1 (proj2 (createEntity_spec
                       (Example.entityBody "Al Capone" "role-witness")
                       Example.db0)) _ _ _ ltac:(vm_compute; reflexivity))
      as (name & Hname & _ & _ & _ & Havatar & _).
    injection Hname as <-. exact Havatar.
Defined.

(** *** Placement on concrete layouts *)

Example calculateSmartPosition_one_related :
  Positioning.calculateSmartPosition Example.window
    [Example.placed "a" 100 50] [] None
  = Positioning.mkPosition 400 200.
Proof. reflexivity. Qed.

Example calculateSmartPosition_two_related :
  Positioning.calculateSmartPosition Example.window
    [Example.placed "a" 0 0; Example.placed "b" 100 200] [] None
  = Positioning.mkPosition 300 350.
Proof. vm_compute. reflexivity. Qed.

Example calculateSmartPosition_viewport :
  Positioning.calculateSmartPosition Example.window [] []
    (Some (Positioning.mkViewport (-200) 100 2))
  = Positioning.mkPosition 420 130.
Proof. vm_compute. reflexivity. Qed.

(** The desired position is free: no iteration. *)
Example findNonConflictingPosition_free :
  @Positioning.spiralLoop Example.taylor 10
    (Positioning.mkPosition 400 200) [Example.placed "a" 100 50]
    Positioning.defaultMaxAttempts (Positioning.mkPosition 400 200) 0
  = Some (Positioning.mkPosition 400 200, 0%float).
Proof. vm_compute. reflexivity. Qed.

(** One attempt allowed, and its candidate lands on another node: the
    candidate is returned although it conflicts. *)
Example findNonConflictingPosition_exhausted :
  @Positioning.spiralLoop Example.taylor 1
    (Positioning.mkPosition 0 0)
    [Example.placed "a" 0 0; Example.placed "b" 150 0] 1
    (Positioning.mkPosition 0 0) 0
  = Some (Positioning.mkPosition 150 0, 1%float)
  ∧ Positioning.hasPositionConflict (Positioning.mkPosition 150 0)
      [Example.placed "a" 0 0; Example.placed "b" 150 0] = true.
Proof. split; vm_compute; reflexivity. Qed.

(** The first candidate is taken when it is free. *)
Example findNonConflictingPosition_first_candidate :
  @Positioning.findNonConflictingPosition Example.taylor 10
    (Positioning.mkPosition 0 0) [Example.placed "a" (-100) 0]
    Positioning.defaultMaxAttempts
  = Some (Positioning.mkPosition 150 0).
Proof. vm_compute. reflexivity. Qed.



(** *** Saves on concrete graphs *)

(** A listed node is moved; the entity the client sent for it is not
    taken. *)
Example saveGraph_moves_node :
  nodes (saveGraph "g" Example.rewriteReferences Example.db1).1 !! "a"
  = Some (Node.mk "g" "e1" 10 20 None (Some "custom")).
Proof. vm_compute. reflexivity. Qed.

(** A root sent away from the origin is stored at the origin. *)
Example saveGraph_clamps_root :
  nodes (saveGraph "g" Example.moveRoot Example.db0).1 !! "r"
  = Some (Node.mk "g" "e0" 0 0 None (Some "root")).
Proof. vm_compute. reflexivity. Qed.

(** A non-root node that is not listed is deleted, and its edge with it. *)
Example saveGraph_deletes_unlisted :
  nodes (saveGraph "g" Example.omitRoot Example.db1).1 !! "b" = None
  ∧ edges (saveGraph "g" Example.omitRoot Example.db1).1 !! "x1" = None
  ∧ is_Some (nodes (saveGraph "g" Example.omitRoot Example.db1).1 !! "r").
Proof. repeat split; vm_compute; eauto. Qed.

(** *** Events on concrete graphs *)

(** The first event of a day gets sort order 0 and, with createEdge, an
    edge labelled with its title. *)
Example createEvent_first_of_day :
  ∃ db' r,
    @createEvent Example.utc Example.meeting Example.db2 = (db', Json r)
    ∧ Event.sortOrder (event r) = 0
    ∧ (Edge.label ∘ snd <$> createdEdge r) = Some (Some "Meeting")
    ∧ edgeCount db' "g" "a" "b" = 1%nat.
Proof. eexists _, _. repeat split; vm_compute; reflexivity. Qed.

Example createEvent_empty_title :
  @createEvent Example.utc
    (Example.eventBody "" "2024-01-01" (Some "a") None false) Example.db2
  = (Example.db2, Failure 400 "Event title is required").
Proof. reflexivity. Qed.

(** The bounding box of two placed nodes. *)
Lemma calculateSmartPosition_cases_witness :
  inBoundingBox [Example.placed "a" 0 0; Example.placed "b" 100 200]
    (Positioning.mkPosition 100 200)
  ∧ Positioning.Math_min [0; 100]%float ∈ [0; 100]%float.
Proof.
  destruct (proj1 (proj2 (proj2 (proj2 (proj2
              (calculateSmartPosition_cases Example.window [])))))
              [Example.placed "a" 0 0; Example.placed "b" 100 200])
    as (Hbox & Hminx & _).
  - discriminate.
  - repeat constructor.
  - repeat constructor.
  - split; [|exact Hminx].
    apply (Hbox (Example.placed "b" 100 200)). right. left.
Defined.

(** * Further properties *)

(** ** Saving the graph: what is stored, what is deleted *)

Lemma validateNodes_ids ns :
  validateNodes ns = None → length (omap ClientNode.id ns) = length ns.
Proof.
  induction ns as [|node ns IH]; simpl; [done|].
  destruct (ClientNode.id node) as [k|]; simpl; [|done].
  destruct (negb _); [done|].
  destruct (negb (Js.truthy (ClientNode.entityId node))); [done|].
  destruct (negb (bool_decide _)); [done|].
  intros Hv. f_equal. by apply IH.
Qed.

Lemma validateEdges_ids es :
  validateEdges es = None → length (omap ClientEdge.id es) = length es.
Proof.
  induction es as [|edge es IH]; simpl; [done|].
  unfold edgeShapeError.
  destruct (ClientEdge.id edge) as [k|]; simpl; [|done].
  destruct (negb _); [done|].
  destruct (_ || _); [done|].
  intros Hv. f_equal. by apply IH.
Qed.

(** The transaction writes the node table only in its node steps. *)
Lemma upsertNodes_set_nodes id ns db db' :
  upsertNodes id ns db = inr db' → db' = set_nodes (λ _, nodes db') db.
Proof.
  revert db. induction ns as [|node ns IH]; intros db Hup; simpl in Hup.
  - injection Hup as <-. by destruct db.
  - destruct (upsertNode id node db) as [e|db1] eqn:H1; [done|]. simpl in Hup.
    apply upsertNode_inv in H1 as (?&?&?&?&?&_&_&_&_&->).
    apply IH in Hup. rewrite Hup at 1. by destruct db.
Qed.

Lemma upsertEdges_set_edges id es db db' :
  upsertEdges id es db = inr db' → db' = set_edges (λ _, edges db') db.
Proof.
  revert db. induction es as [|edge es IH]; intros db Hup; simpl in Hup.
  - injection Hup as <-. by destruct db.
  - destruct (upsertEdge id edge db) as [e|db1] eqn:H1; [done|]. simpl in Hup.
    apply upsertEdge_inv in H1 as (?&?&_&->&_).
    apply IH in Hup. rewrite Hup at 1. by destruct db.
Qed.

(** A successful save: the steps of its transaction. *)
Lemma saveGraph_Json id body db db' :
  saveGraph id body db = (db', Json tt) →
  ∃ ns es db2,
    body_nodes body = Some ns ∧ body_edges body = Some es
    ∧ validateNodes ns = None ∧ validateEdges es = None
    ∧ is_Some (dags db !! id)
    ∧ upsertNodes id ns
        (if 0 <? Z.of_nat (length (omap ClientNode.id ns))
         then deleteManyNodes (nodeDeleteWhere id (omap ClientNode.id ns)) db
         else db) = inr db2
    ∧ upsertEdges id es
        (if 0 <? Z.of_nat (length (omap ClientEdge.id es))
         then set_edges (filter (λ ke,
                edgeDeleteWhere id (omap ClientEdge.id es) ke.1 ke.2 = false)) db2
         else db2) = inr db'.
Proof.
  unfold saveGraph. intros Hsave.
  destruct (body_nodes body) as [ns|]; [|done].
  destruct (body_edges body) as [es|]; [|done].
  destruct (dags db !! id) eqn:Hd; [|done].
  destruct (validateNodes ns) eqn:Hvn; [done|].
  destruct (validateEdges es) eqn:Hve; [done|].
  destruct (saveTransaction id ns es db) as [e|db''] eqn:Htx; [by destruct e|].
  injection Hsave as <-. unfold saveTransaction in Htx.
  destruct (upsertNodes id ns _) as [e|db2] eqn:H2; [done|]. simpl in Htx.
  exists ns, es, db2. eauto 10.
Qed.

(** The row an upsert of a node leaves under its id. *)
Lemma upsertNode_row id node db db' k :
  upsertNode id node db = inr db' →
  ClientNode.id node = Some k →
  ∃ px py entityId entity row,
    ClientNode.position node = Some (px, py)
    ∧ ClientNode.entityId node = Some entityId
    ∧ entities db !! entityId = Some entity
    ∧ nodes db' !! k = Some row
    ∧ Node.x row
      = (if bool_decide (ClientNode.type node = Some "root") then 0%float else storedNumber px)
    ∧ Node.y row
      = (if bool_decide (ClientNode.type node = Some "root") then 0%float else storedNumber py)
    ∧ Node.category row = Js.orNull (ClientNode.category node)
    ∧ Node.type row
      = Some (nodeTypeOf (bool_decide (ClientNode.type node = Some "root"))
                         (roleNameOf db entity))
    ∧ match nodes db !! k with
      | Some old => sameNodeIdentity old row
      | None => Node.dagId row = id ∧ Node.entityId row = entityId
      end.
Proof.
  intros Hup Hk.
  apply upsertNode_inv in Hup
    as (nodeId & entityId & px & py & entity & Hid & He & Hp & Hent & ->).
  rewrite Hk in Hid. injection Hid as <-.
  exists px, py, entityId, entity. eexists. simpl. rewrite lookup_insert_eq.
  split; [done|]. split; [done|]. split; [done|]. split; [done|].
  destruct (nodes db !! k) as [old|]; simpl;
    destruct (bool_decide (ClientNode.type node = Some "root"));
    repeat split; done.
Qed.

Lemma roleNameOf_ext db db' entity :
  roles db' = roles db → roleNameOf db' entity = roleNameOf db entity.
Proof. unfold roleNameOf. by intros ->. Qed.

Lemma upsertNodes_stored id ns : ∀ db db' node k,
  upsertNodes id ns db = inr db' →
  NoDup (omap ClientNode.id ns) →
  node ∈ ns → ClientNode.id node = Some k →
  ∃ px py entityId entity row,
    ClientNode.position node = Some (px, py)
    ∧ ClientNode.entityId node = Some entityId
    ∧ entities db !! entityId = Some entity
    ∧ nodes db' !! k = Some row
    ∧ Node.x row
      = (if bool_decide (ClientNode.type node = Some "root") then 0%float else storedNumber px)
    ∧ Node.y row
      = (if bool_decide (ClientNode.type node = Some "root") then 0%float else storedNumber py)
    ∧ Node.category row = Js.orNull (ClientNode.category node)
    ∧ Node.type row
      = Some (nodeTypeOf (bool_decide (ClientNode.type node = Some "root"))
                         (roleNameOf db entity))
    ∧ match nodes db !! k with
      | Some old => sameNodeIdentity old row
      | None => Node.dagId row = id ∧ Node.entityId row = entityId
      end.
Proof.
  induction ns as [|head ns IH]; intros db db' node k Hup Hnodup Hin Hk.
  { by apply elem_of_nil in Hin. }
  simpl in Hup.
  destruct (upsertNode id head db) as [e|db1] eqn:H1; [done|]. simpl in Hup.
  pose proof H1 as Hinv.
  apply upsertNode_inv in Hinv
    as (headId & hEntity & hx & hy & hEnt & Hhid & _ & _ & _ & Hdb1).
  simpl in Hnodup. rewrite Hhid in Hnodup. simpl in Hnodup.
  apply NoDup_cons in Hnodup as [Hfresh Hnodup].
  apply elem_of_cons in Hin as [->|Hin].
  - rewrite Hk in Hhid. injection Hhid as <-.
    rewrite (upsertNodes_unlisted _ _ _ _ _ Hup Hfresh).
    by apply upsertNode_row.
  - assert (Hne : headId ≠ k).
    { intros ->. apply Hfresh. apply list_elem_of_omap. eauto. }
    destruct (IH db1 db' node k Hup Hnodup Hin Hk)
      as (px & py & entityId & entity & row & Hp & He & Hent & Hrow & Hx & Hy
          & Hc & Ht & Hold).
    apply upsertNode_others in H1 as (_ & Hents & Hroles & _).
    exists px, py, entityId, entity, row.
    rewrite Hents in Hent. rewrite (roleNameOf_ext db db1) in Ht by done.
    rewrite Hdb1 in Hold. simpl in Hold.
    rewrite lookup_insert_ne in Hold by done. done.
Qed.

Lemma saveGraph_sent_row id body db db' ns node k :
  saveGraph id body db = (db', Json tt) →
  body_nodes body = Some ns →
  NoDup (omap ClientNode.id ns) →
  node ∈ ns → ClientNode.id node = Some k →
  ∃ px py entityId entity row,
    ClientNode.position node = Some (px, py)
    ∧ ClientNode.entityId node = Some entityId
    ∧ entities db !! entityId = Some entity
    ∧ nodes db' !! k = Some row
    ∧ Node.x row
      = (if bool_decide (ClientNode.type node = Some "root") then 0%float else storedNumber px)
    ∧ Node.y row
      = (if bool_decide (ClientNode.type node = Some "root") then 0%float else storedNumber py)
    ∧ Node.category row = Js.orNull (ClientNode.category node)
    ∧ Node.type row
      = Some (nodeTypeOf (bool_decide (ClientNode.type node = Some "root"))
                         (roleNameOf db entity))
    ∧ match nodes db !! k with
      | Some old => sameNodeIdentity old row
      | None => Node.dagId row = id ∧ Node.entityId row = entityId
      end.
Proof.
  intros Hsave Hns Hnodup Hin Hk.
  apply saveGraph_Json in Hsave
    as (ns' & es & db2 & Hns' & _ & _ & _ & _ & Hnodes & Hedges).
  rewrite Hns in Hns'. injection Hns' as <-.
  apply upsertEdges_nodes in Hedges. rewrite Hedges.
  assert (nodes (if 0 <? Z.of_nat (length (omap ClientEdge.id es))
           then set_edges (filter (λ ke,
                  edgeDeleteWhere id (omap ClientEdge.id es) ke.1 ke.2 = false)) db2
           else db2) = nodes db2) as -> by (by case_match).
  destruct (upsertNodes_stored id ns _ _ node k Hnodes Hnodup Hin Hk)
    as (px & py & entityId & entity & row & Hp & He & Hent & Hrow & Hx & Hy
        & Hc & Ht & Hold).
  exists px, py, entityId, entity, row.
  assert (Hsent : k ∈ omap ClientNode.id ns)
    by (apply list_elem_of_omap; eauto).
  destruct (Z.ltb _ _); [|done].
  rewrite nodes_deleteManyNodes in Hold.
  assert (Hkeep : ∀ n, nodeDeleteWhere id (omap ClientNode.id ns) k n = false).
  { intros n. unfold nodeDeleteWhere.
    rewrite (bool_decide_eq_false_2 (k ∉ _)) by (by intros ?).
    by rewrite andb_false_r. }
  destruct (nodes db !! k) as [old|]; [rewrite Hkeep in Hold|]; done.
Qed.

(** X2.  What a successful save stores for a node it was sent.  When the
    ids of the client's node list are pairwise distinct, every node of the
    list is persisted under its id at the position the client sent (a
    coordinate -0 is stored as 0), or at (0,0) when the client gave it kind
    root; with the category the client
    sent (null for an empty one); with the type derived from the kind and
    from the role of the entity the client named; and, when no node of that
    id was persisted before, in the saved graph and with the entity the
    client named.  A node that was persisted before keeps its graph and its
    entity. *)
Theorem saveGraph_stores_sent id body db db' ns node k :
  saveGraph id body db = (db', Json tt) →
  body_nodes body = Some ns →
  NoDup (omap ClientNode.id ns) →
  node ∈ ns → ClientNode.id node = Some k →
  ∃ px py entityId entity row,
    ClientNode.position node = Some (px, py)
    ∧ ClientNode.entityId node = Some entityId
    ∧ entities db !! entityId = Some entity
    ∧ nodes db' !! k = Some row
    ∧ Node.x row
      = (if bool_decide (ClientNode.type node = Some "root") then 0%float else storedNumber px)
    ∧ Node.y row
      = (if bool_decide (ClientNode.type node = Some "root") then 0%float else storedNumber py)
    ∧ Node.category row = Js.orNull (ClientNode.category node)
    ∧ Node.type row
      = Some (nodeTypeOf (bool_decide (ClientNode.type node = Some "root"))
                         (roleNameOf db entity))
    ∧ match nodes db !! k with
      | Some old => sameNodeIdentity old row
      | None => Node.dagId row = id ∧ Node.entityId row = entityId
      end.
Proof. apply saveGraph_sent_row. Qed.

Lemma nodeDeleteWhere_exempt id sent k n :
  k ∉ sent →
  nodeDeleteWhere id sent k n = false ↔ exemptFromDeletion id n.
Proof.
  intros Hk. unfold nodeDeleteWhere, exemptFromDeletion.
  rewrite (bool_decide_eq_true_2 (k ∉ sent)) by done. rewrite andb_true_r.
  destruct (decide (Node.dagId n = id)) as [Hd|Hd].
  - rewrite (bool_decide_eq_true_2 _ Hd). simpl.
    destruct (Node.type n) as [t|]; [|by split; auto].
    destruct (String.eqb t "root") eqn:Ht; simpl.
    + apply String.eqb_eq in Ht as ->. by split; auto.
    + apply String.eqb_neq in Ht. split; [done|].
      intros [?|[[=]|[=]]]; done.
  - rewrite (bool_decide_eq_false_2 _ Hd). simpl. by split; auto.
Qed.

(** X3.  What a successful save does to the nodes it was not sent.  When
    the client's node list is not empty, a persisted node whose id is not in
    the list is deleted exactly when it belongs to the saved graph and has a
    type other than root; a node of another graph, a root and a node
    without a type stay as they were.  No node appears under an id that was
    not sent. *)
Theorem saveGraph_unsent_nodes id body db db' ns k :
  saveGraph id body db = (db', Json tt) →
  body_nodes body = Some ns → ns ≠ [] →
  k ∉ omap ClientNode.id ns →
  match nodes db !! k with
  | Some n =>
      (exemptFromDeletion id n → nodes db' !! k = Some n)
      ∧ (¬ exemptFromDeletion id n → nodes db' !! k = None)
  | None => nodes db' !! k = None
  end.
Proof.
  intros Hsave Hns Hne Hk.
  apply saveGraph_Json in Hsave
    as (ns' & es & db2 & Hns' & _ & Hvalid & _ & _ & Hnodes & Hedges).
  rewrite Hns in Hns'. injection Hns' as <-.
  apply upsertEdges_nodes in Hedges. rewrite Hedges.
  assert (nodes (if 0 <? Z.of_nat (length (omap ClientEdge.id es))
           then set_edges (filter (λ ke,
                  edgeDeleteWhere id (omap ClientEdge.id es) ke.1 ke.2 = false)) db2
           else db2) = nodes db2) as -> by (by case_match).
  rewrite (upsertNodes_unlisted _ _ _ _ _ Hnodes Hk).
  rewrite (validateNodes_ids _ Hvalid).
  destruct ns as [|node ns]; [done|]. simpl length.
  destruct (Z.ltb_spec 0 (Z.of_nat (S (length ns)))) as [_|Hle]; [|lia].
  rewrite nodes_deleteManyNodes.
  destruct (nodes db !! k) as [n|]; [|done].
  pose proof (nodeDeleteWhere_exempt id _ k n Hk) as Hw.
  destruct (nodeDeleteWhere _ _ _ _).
  - split; [|done]. intros Hex. apply Hw in Hex. done.
  - split; [done|]. intros Hex. destruct Hex. by apply Hw.
Qed.

Lemma upsertEdges_present id es : ∀ db db' k,
  upsertEdges id es db = inr db' →
  k ∈ omap ClientEdge.id es → is_Some (edges db' !! k).
Proof.
  induction es as [|edge es IH]; intros db db' k Hup Hk; simpl in *.
  { by apply elem_of_nil in Hk. }
  destruct (upsertEdge id edge db) as [err|db1] eqn:H1; [done|]. simpl in Hup.
  pose proof H1 as Hinv.
  apply upsertEdge_inv in Hinv as (edgeId & row & Hid & Hdb1 & _).
  rewrite Hid in Hk. simpl in Hk. apply elem_of_cons in Hk as [->|Hk].
  - assert (Hrow : edges db1 !! edgeId = Some row).
    { rewrite Hdb1. simpl. apply lookup_insert_eq. }
    destruct (upsertEdges_identity _ _ _ _ _ _ Hup Hrow) as (e' & He' & _). eauto.
  - by eapply IH.
Qed.

(** X4.  The edges of the graph after a successful save with a list of
    edges that is not empty: every edge the graph is left with has an id
    of the list (every other edge of the graph is deleted), and every id
    of the list is the id of a persisted edge. *)
Theorem saveGraph_edges_of_graph id body db db' es :
  saveGraph id body db = (db', Json tt) →
  body_edges body = Some es → es ≠ [] →
  (∀ k e, edges db' !! k = Some e → Edge.dagId e = id →
          k ∈ omap ClientEdge.id es)
  ∧ (∀ k, k ∈ omap ClientEdge.id es → is_Some (edges db' !! k)).
Proof.
  intros Hsave Hes Hne.
  apply saveGraph_Json in Hsave
    as (ns & es' & db2 & _ & Hes' & _ & Hvalid & _ & _ & Hedges).
  rewrite Hes in Hes'. injection Hes' as <-.
  split; [|intros k Hk; by eapply upsertEdges_present].
  intros k e Hk Hd.
  destruct (decide (k ∈ omap ClientEdge.id es)) as [|Hout]; [done|]. exfalso.
  rewrite (upsertEdges_unlisted _ _ _ _ _ Hedges Hout) in Hk.
  rewrite (validateEdges_ids _ Hvalid) in Hk.
  destruct es as [|edge es]; [done|]. simpl length in Hk.
  destruct (Z.ltb_spec 0 (Z.of_nat (S (length es)))) as [_|Hle]; [|lia].
  simpl in Hk. apply map_lookup_filter_Some in Hk as [_ Hw]. simpl in Hw.
  unfold edgeDeleteWhere in Hw.
  rewrite (bool_decide_eq_true_2 _ Hd), (bool_decide_eq_true_2 _ Hout) in Hw.
  done.
Qed.

Lemma upsertNode_fails id node db err :
  upsertNode id node db = inl err → ∃ message, err = Thrown message.
Proof.
  unfold upsertNode.
  destruct (ClientNode.id node); [|intros [= <-]; eauto].
  destruct (ClientNode.entityId node); [|intros [= <-]; eauto].
  destruct (ClientNode.position node) as [[px py]|]; [|intros [= <-]; eauto].
  destruct (entities db !! _); [done|intros [= <-]; eauto].
Qed.

(** The node steps fail when a node names an entity that is not there. *)
Lemma upsertNodes_missing_entity id ns : ∀ db node entityId,
  node ∈ ns → ClientNode.entityId node = Some entityId →
  entities db !! entityId = None →
  ∃ message, upsertNodes id ns db = inl (Thrown message).
Proof.
  induction ns as [|head ns IH]; intros db node entityId Hin He Hnone.
  { by apply elem_of_nil in Hin. }
  simpl. destruct (upsertNode id head db) as [err|db1] eqn:H1.
  - destruct (upsertNode_fails _ _ _ _ H1) as [message ->]. by exists message.
  - simpl. apply elem_of_cons in Hin as [->|Hin].
    + apply upsertNode_inv in H1 as (?&entityId'&?&?&?&_&He'&_&Hent&_).
      congruence.
    + apply upsertNode_others in H1 as (_ & Hents & _).
      eapply IH; [done|done|]. by rewrite Hents.
Qed.

(** X5.  A save that names a missing entity changes nothing.  When the
    request is well formed and the graph exists, but some node of the list
    names an entity that is not in the entity table, the save fails with
    status 500 and the message "Failed to save DAG", and the database is
    left as it was: the deletions the transaction had already made are
    rolled back. *)
Theorem saveGraph_missing_entity id body db ns es node entityId :
  body_nodes body = Some ns → body_edges body = Some es →
  is_Some (dags db !! id) →
  validateNodes ns = None → validateEdges es = None →
  node ∈ ns → ClientNode.entityId node = Some entityId →
  entities db !! entityId = None →
  saveGraph id body db = (db, Failure 500 "Failed to save DAG").
Proof.
  intros Hns Hes [dag Hdag] Hvn Hve Hin He Hnone.
  unfold saveGraph. rewrite Hns, Hes, Hdag, Hvn, Hve.
  unfold saveTransaction.
  destruct (upsertNodes_missing_entity id ns
              (if 0 <? Z.of_nat (length (omap ClientNode.id ns))
               then deleteManyNodes (nodeDeleteWhere id (omap ClientNode.id ns)) db
               else db) node entityId Hin He) as [message Hfail].
  { by destruct (Z.ltb _ _). }
  by rewrite Hfail.
Qed.

(** *** Saving twice *)

Lemma set_nodes_id db : db = set_nodes (λ _, nodes db) db.
Proof. by destruct db. Qed.

Lemma set_edges_id db : db = set_edges (λ _, edges db) db.
Proof. by destruct db. Qed.

Lemma deleteManyNodes_none where_ db :
  (∀ k n, nodes db !! k = Some n → where_ k n = false) →
  deleteManyNodes where_ db = db.
Proof.
  intros Hnone. unfold deleteManyNodes.
  assert (Hgone : filter (λ kn, where_ kn.1 kn.2 = true) (nodes db) = ∅).
  { apply map_empty_filter. intros k n Hk Hw. simpl in Hw.
    rewrite (Hnone k n Hk) in Hw. done. }
  rewrite Hgone, dom_empty_L.
  rewrite (map_filter_id _ (nodes db)) by (intros k n Hk; by apply Hnone).
  rewrite (map_filter_id _ (edges db))
    by (intros k e Hk; split; apply not_elem_of_empty).
  by destruct db.
Qed.

Lemma upsertNodes_succeeds id ns : ∀ dA dA' dB,
  upsertNodes id ns dA = inr dA' → entities dB = entities dA →
  ∃ dB', upsertNodes id ns dB = inr dB'.
Proof.
  induction ns as [|node ns IH]; intros dA dA' dB Hup Hents; simpl in *; [eauto|].
  destruct (upsertNode id node dA) as [e|dA1] eqn:HA; [done|]. simpl in Hup.
  pose proof HA as HA'.
  apply upsertNode_inv in HA'
    as (nodeId & entityId & px & py & entity & Hid & He & Hp & Hent & _).
  assert (HB : ∃ dB1, upsertNode id node dB = inr dB1).
  { unfold upsertNode. rewrite Hid, He, Hp, Hents, Hent. eauto. }
  destruct HB as [dB1 HB]. rewrite HB. simpl.
  apply (IH dA1 dA' dB1 Hup).
  apply upsertNode_others in HA as (_ & -> & _).
  apply upsertNode_others in HB as (_ & -> & _). done.
Qed.

(** Two runs of the node steps from databases with the same entities and
    roles leave the same x, y, category and type under every id of the
    list. *)
Lemma upsertNodes_content id ns : ∀ dA dA' dB dB' k,
  upsertNodes id ns dA = inr dA' → upsertNodes id ns dB = inr dB' →
  entities dB = entities dA → roles dB = roles dA →
  k ∈ omap ClientNode.id ns →
  ∃ rA rB, nodes dA' !! k = Some rA ∧ nodes dB' !! k = Some rB
           ∧ sameNodeContent rA rB.
Proof.
  induction ns as [|node ns IH]; intros dA dA' dB dB' k HA HB Hents Hroles Hk.
  { by apply elem_of_nil in Hk. }
  simpl in HA, HB.
  destruct (upsertNode id node dA) as [e|dA1] eqn:HA1; [done|].
  destruct (upsertNode id node dB) as [e|dB1] eqn:HB1; [done|].
  simpl in HA, HB.
  destruct (decide (k ∈ omap ClientNode.id ns)) as [Hin|Hout].
  - apply (IH dA1 dA' dB1 dB' k HA HB); [| |done].
    + apply upsertNode_others in HA1 as (_ & -> & _).
      apply upsertNode_others in HB1 as (_ & -> & _). done.
    + apply upsertNode_others in HA1 as (_ & _ & -> & _).
      apply upsertNode_others in HB1 as (_ & _ & -> & _). done.
  - simpl in Hk. destruct (ClientNode.id node) as [j|] eqn:Hj; simpl in Hk; [|done].
    apply elem_of_cons in Hk as [->|Hk]; [|done].
    rewrite (upsertNodes_unlisted _ _ _ _ _ HA Hout).
    rewrite (upsertNodes_unlisted _ _ _ _ _ HB Hout).
    destruct (upsertNode_row _ _ _ _ _ HA1 Hj)
      as (px & py & entityId & entity & rA & Hp & He & Hent & HrA & Hx & Hy
          & Hc & Ht & _).
    destruct (upsertNode_row _ _ _ _ _ HB1 Hj)
      as (px' & py' & entityId' & entity' & rB & Hp' & He' & Hent' & HrB & Hx'
          & Hy' & Hc' & Ht' & _).
    rewrite Hp in Hp'. injection Hp' as <- <-.
    rewrite He in He'. injection He' as <-.
    rewrite Hents, Hent in Hent'. injection Hent' as <-.
    rewrite (roleNameOf_ext dA dB) in Ht' by done.
    exists rA, rB. split; [done|]. split; [done|].
    repeat split; congruence.
Qed.

Lemma node_eq (n n' : Node.t) :
  sameNodeIdentity n n' → sameNodeContent n n' → n' = n.
Proof.
  destruct n, n'. intros [Hd He] (Hx & Hy & Hc & Ht). simpl in *. by subst.
Qed.

Lemma edge_eq (e e' : Edge.t) :
  sameEdgeIdentity e e' → sameEdgeContent e e' → e' = e.
Proof.
  destruct e, e'. intros (?&?&?&?) (?&?&?&?). simpl in *. by subst.
Qed.

(** The node steps, run again on a database that holds their result,
    change nothing. *)
Lemma upsertNodes_again id ns d0 d2 d :
  upsertNodes id ns d0 = inr d2 →
  nodes d = nodes d2 → entities d = entities d0 → roles d = roles d0 →
  upsertNodes id ns d = inr d.
Proof.
  intros H0 Hnodes Hents Hroles.
  destruct (upsertNodes_succeeds id ns d0 d2 d H0 Hents) as [d' Hd].
  rewrite Hd. f_equal.
  rewrite (upsertNodes_set_nodes _ _ _ _ Hd).
  assert (Heq : nodes d' = nodes d); [|rewrite Heq; by destruct d].
  apply map_eq. intros k.
  destruct (decide (k ∈ omap ClientNode.id ns)) as [Hin|Hout].
  - destruct (upsertNodes_content id ns d0 d2 d d' k H0 Hd Hents Hroles Hin)
      as (rA & rB & HrA & HrB & Hcontent).
    rewrite <- Hnodes in HrA.
    destruct (upsertNodes_identity _ _ _ _ _ _ Hd HrA) as (n' & Hn' & Hsame).
    rewrite HrB in Hn'. injection Hn' as <-.
    rewrite HrA, HrB. f_equal. by apply node_eq.
  - by apply (upsertNodes_unlisted _ _ _ _ _ Hd).
Qed.

(** The row an upsert of an edge leaves under its id: in two runs it has
    the same relationship type, label and handles. *)
Lemma upsertEdge_content id edge dA dA' dB dB' :
  upsertEdge id edge dA = inr dA' → upsertEdge id edge dB = inr dB' →
  ∃ k rA rB,
    ClientEdge.id edge = Some k
    ∧ dA' = set_edges (insert k rA) dA ∧ dB' = set_edges (insert k rB) dB
    ∧ sameEdgeContent rA rB.
Proof.
  unfold upsertEdge. intros HA HB.
  destruct (edgeShapeError edge); [done|].
  destruct (ClientEdge.id edge) as [edgeId|]; [|done].
  destruct (ClientEdge.source edge) as [source|]; [|done].
  destruct (ClientEdge.target edge) as [target|]; [|done].
  destruct (negb (refOk (relationshipTypes dA) _)); [done|].
  destruct (negb (refOk (relationshipTypes dB) _)); [done|].
  exists edgeId.
  destruct (edges dA !! edgeId) as [oldA|], (edges dB !! edgeId) as [oldB|].
  - injection HA as <-. injection HB as <-. eexists _, _. by repeat split.
  - destruct (_ && _); [|done].
    injection HA as <-. injection HB as <-. eexists _, _. by repeat split.
  - destruct (_ && _); [|done].
    injection HA as <-. injection HB as <-. eexists _, _. by repeat split.
  - destruct (_ && _); [|done]. destruct (_ && _); [|done].
    injection HA as <-. injection HB as <-. eexists _, _. by repeat split.
Qed.

(** An upsert of an edge whose id is persisted succeeds wherever the
    relationship types are those of a database on which it succeeded. *)
Lemma upsertEdge_persisted id edge dA dA' dB k :
  upsertEdge id edge dA = inr dA' →
  relationshipTypes dB = relationshipTypes dA →
  ClientEdge.id edge = Some k → is_Some (edges dB !! k) →
  ∃ dB', upsertEdge id edge dB = inr dB'.
Proof.
  unfold upsertEdge. intros HA Hrel Hid [old Hold].
  destruct (edgeShapeError edge); [done|].
  rewrite Hid in *.
  destruct (ClientEdge.source edge) as [source|]; [|done].
  destruct (ClientEdge.target edge) as [target|]; [|done].
  rewrite Hrel, Hold.
  destruct (negb (refOk (relationshipTypes dA) _)); [done|]. eauto.
Qed.

Lemma upsertEdges_rerun id es : ∀ dA dA' dB,
  upsertEdges id es dA = inr dA' →
  relationshipTypes dB = relationshipTypes dA →
  (∀ k, k ∈ omap ClientEdge.id es → is_Some (edges dB !! k)) →
  ∃ dB', upsertEdges id es dB = inr dB'
    ∧ ∀ k, k ∈ omap ClientEdge.id es →
        ∃ rA rB, edges dA' !! k = Some rA ∧ edges dB' !! k = Some rB
                 ∧ sameEdgeContent rA rB.
Proof.
  induction es as [|edge es IH]; intros dA dA' dB HA Hrel Hall; simpl in *.
  { exists dB. split; [done|]. intros k Hk. by apply elem_of_nil in Hk. }
  destruct (upsertEdge id edge dA) as [e|dA1] eqn:HA1; [done|]. simpl in HA.
  pose proof HA1 as Hinv.
  apply upsertEdge_inv in Hinv as (edgeId & row & Hid & _ & _).
  rewrite Hid in Hall. simpl in Hall.
  destruct (upsertEdge_persisted id edge dA dA1 dB edgeId HA1 Hrel Hid)
    as [dB1 HB1]; [apply Hall; by left|].
  rewrite HB1. simpl.
  destruct (upsertEdge_content _ _ _ _ _ _ HA1 HB1)
    as (j & rA & rB & Hj & HdA1 & HdB1 & Hcontent).
  rewrite Hid in Hj. injection Hj as <-.
  destruct (IH dA1 dA' dB1 HA) as (dB' & HB & Hrest).
  { by rewrite HdA1, HdB1. }
  { intros k Hk. rewrite HdB1. simpl.
    destruct (decide (edgeId = k)) as [->|Hne].
    - rewrite lookup_insert_eq. eauto.
    - rewrite lookup_insert_ne by done. apply Hall. by right. }
  exists dB'. split; [done|]. intros k Hk.
  rewrite Hid in Hk. simpl in Hk.
  destruct (decide (k ∈ omap ClientEdge.id es)) as [Hin|Hout]; [by apply Hrest|].
  apply elem_of_cons in Hk as [->|Hk]; [|done].
  rewrite (upsertEdges_unlisted _ _ _ _ _ HA Hout).
  rewrite (upsertEdges_unlisted _ _ _ _ _ HB Hout).
  exists rA, rB. rewrite HdA1, HdB1. simpl. rewrite !lookup_insert_eq. done.
Qed.

(** The edge steps, run again on their own result, change nothing. *)
Lemma upsertEdges_again id es d0 d :
  upsertEdges id es d0 = inr d → upsertEdges id es d = inr d.
Proof.
  intros H0.
  destruct (upsertEdges_rerun id es d0 d d H0) as (d' & Hd & Hcontent).
  { rewrite (upsertEdges_set_edges _ _ _ _ H0). done. }
  { intros k Hk. by eapply upsertEdges_present. }
  rewrite Hd. f_equal.
  rewrite (upsertEdges_set_edges _ _ _ _ Hd).
  assert (Heq : edges d' = edges d); [|rewrite Heq; by destruct d].
  apply map_eq. intros k.
  destruct (decide (k ∈ omap ClientEdge.id es)) as [Hin|Hout].
  - destruct (Hcontent k Hin) as (rA & rB & HrA & HrB & Hsame).
    destruct (upsertEdges_identity _ _ _ _ _ _ Hd HrA) as (e' & He' & Hident).
    rewrite HrB in He'. injection He' as <-.
    rewrite HrA, HrB. f_equal. by apply edge_eq.
  - by apply (upsertEdges_unlisted _ _ _ _ _ Hd).
Qed.

(** X1.  Saving is idempotent.  When a save succeeds, the same request
    sent again right after succeeds too and leaves the database exactly as
    the first save left it: no node or edge is deleted, created or
    changed by the repetition. *)
Theorem saveGraph_idempotent id body db db' :
  saveGraph id body db = (db', Json tt) →
  saveGraph id body db' = (db', Json tt).
Proof.
  intros Hsave.
  apply saveGraph_Json in Hsave
    as (ns & es & db2 & Hns & Hes & Hvn & Hve & Hdag & Hnodes & Hedges).
  remember (omap ClientNode.id ns) as sentNodeIds eqn:HsentN.
  remember (omap ClientEdge.id es) as sentEdgeIds eqn:HsentE.
  remember (if 0 <? Z.of_nat (length sentNodeIds)
            then deleteManyNodes (nodeDeleteWhere id sentNodeIds) db
            else db) as db1 eqn:Hdb1def.
  remember (if 0 <? Z.of_nat (length sentEdgeIds)
            then set_edges (filter (λ ke,
                   edgeDeleteWhere id sentEdgeIds ke.1 ke.2 = false)) db2
            else db2) as db3 eqn:Hdb3def.
  pose proof (upsertNodes_set_nodes _ _ _ _ Hnodes) as Hdb2.
  pose proof (upsertEdges_set_edges _ _ _ _ Hedges) as Hdb'.
  assert (Hdb3 : db3 = set_edges (λ _, edges db3) db2).
  { rewrite Hdb3def.
    destruct (Z.ltb 0 (Z.of_nat (length sentEdgeIds)));
      [reflexivity|apply set_edges_id]. }
  assert (Hdb1 : db1 = set_edges (λ _, edges db1) (set_nodes (λ _, nodes db1) db)).
  { rewrite Hdb1def.
    destruct (Z.ltb 0 (Z.of_nat (length sentNodeIds))); [reflexivity|].
    rewrite <- set_nodes_id. apply set_edges_id. }
  assert (Hn' : nodes db' = nodes db2).
  { rewrite Hdb', Hdb3. done. }
  assert (Hstatic : entities db' = entities db1 ∧ roles db' = roles db1
                    ∧ dags db' = dags db).
  { rewrite Hdb', Hdb3, Hdb2, Hdb1. done. }
  destruct Hstatic as (Hents & Hroles & Hdags).
  (* the deletion of nodes finds nothing to delete *)
  assert (Hdel : (if 0 <? Z.of_nat (length sentNodeIds)
                  then deleteManyNodes (nodeDeleteWhere id sentNodeIds) db'
                  else db') = db').
  { destruct (0 <? Z.of_nat (length sentNodeIds)) eqn:Hguard; [|done].
    apply deleteManyNodes_none. intros k n Hk.
    destruct (decide (k ∈ sentNodeIds)) as [Hin|Hout].
    - unfold nodeDeleteWhere.
      rewrite (bool_decide_eq_false_2 (k ∉ _)) by (by intros ?).
      by rewrite andb_false_r.
    - rewrite HsentN in Hout.
      rewrite Hn', (upsertNodes_unlisted _ _ _ _ _ Hnodes Hout) in Hk.
      rewrite Hdb1def, nodes_deleteManyNodes in Hk.
      destruct (nodes db !! k) as [m|]; [|done].
      destruct (nodeDeleteWhere id sentNodeIds k m) eqn:Hw; [done|].
      by injection Hk as <-. }
  (* the deletion of edges finds nothing to delete *)
  assert (Hdel' : (if 0 <? Z.of_nat (length sentEdgeIds)
                   then set_edges (filter (λ ke,
                          edgeDeleteWhere id sentEdgeIds ke.1 ke.2 = false)) db'
                   else db') = db').
  { destruct (0 <? Z.of_nat (length sentEdgeIds)) eqn:Hguard; [|done].
    assert (Hid : filter (λ ke, edgeDeleteWhere id sentEdgeIds ke.1 ke.2 = false)
                    (edges db') = edges db').
    2: { unfold set_edges. rewrite Hid. symmetry. apply set_edges_id. }
    apply map_filter_id. intros k e Hk. simpl.
    destruct (decide (k ∈ sentEdgeIds)) as [Hin|Hout].
    - unfold edgeDeleteWhere.
      rewrite (bool_decide_eq_false_2 (k ∉ _)) by (by intros ?).
      by rewrite andb_false_r.
    - rewrite HsentE in Hout.
      rewrite (upsertEdges_unlisted _ _ _ _ _ Hedges Hout) in Hk.
      rewrite Hdb3def in Hk. simpl in Hk.
      by apply map_lookup_filter_Some in Hk as [_ Hw]. }
  unfold saveGraph. rewrite Hns, Hes, Hvn, Hve, Hdags.
  destruct Hdag as [dag ->].
  unfold saveTransaction. rewrite <- HsentN, <- HsentE.
  rewrite Hdel.
  rewrite (upsertNodes_again id ns db1 db2 db' Hnodes Hn' Hents Hroles). simpl.
  rewrite Hdel'.
  by rewrite (upsertEdges_again id es db3 db' Hedges).
Qed.

(** *** No edge is left dangling *)

Lemma edgesResolve_deleteManyNodes where_ db :
  edgesResolve db → edgesResolve (deleteManyNodes where_ db).
Proof.
  intros Hres k e Hk. unfold deleteManyNodes in *. simpl in *.
  apply map_lookup_filter_Some in Hk as (Hk & Hs & Ht). simpl in Hs, Ht.
  destruct (Hres k e Hk) as [Hs' Ht'].
  assert (Hkept : ∀ j, j ∈ dom (nodes db) →
            j ∉ dom (filter (λ kn, where_ kn.1 kn.2 = true) (nodes db)) →
            j ∈ dom (filter (λ kn, where_ kn.1 kn.2 = false) (nodes db))).
  { intros j Hj Hgone. apply elem_of_dom in Hj as [n Hn].
    apply elem_of_dom. exists n. apply map_lookup_filter_Some. split; [done|].
    simpl. destruct (where_ j n) eqn:Hw; [|done].
    exfalso. apply Hgone. apply elem_of_dom. exists n.
    by apply map_lookup_filter_Some. }
  split; by apply Hkept.
Qed.

Lemma edgesResolve_upsertNodes id ns db db' :
  upsertNodes id ns db = inr db' → edgesResolve db → edgesResolve db'.
Proof.
  intros Hup Hres k e Hk.
  pose proof (upsertNodes_others _ _ _ _ Hup) as (He & _).
  rewrite He in Hk. destruct (Hres k e Hk) as [Hs Ht].
  assert (Hgrow : ∀ j, j ∈ dom (nodes db) → j ∈ dom (nodes db')).
  { intros j Hj. apply elem_of_dom in Hj as [n Hn].
    destruct (upsertNodes_identity _ _ _ _ _ _ Hup Hn) as (n' & Hn' & _).
    apply elem_of_dom. eauto. }
  split; by apply Hgrow.
Qed.

Lemma edgesResolve_upsertEdge id edge db db' :
  upsertEdge id edge db = inr db' → edgesResolve db → edgesResolve db'.
Proof.
  unfold upsertEdge. intros Hup Hres.
  destruct (edgeShapeError edge); [done|].
  destruct (ClientEdge.id edge) as [edgeId|]; [|done].
  destruct (ClientEdge.source edge) as [source|]; [|done].
  destruct (ClientEdge.target edge) as [target|]; [|done].
  destruct (negb _); [done|].
  destruct (edges db !! edgeId) as [old|] eqn:Hold.
  - injection Hup as <-. intros k e Hk. simpl in *.
    destruct (decide (edgeId = k)) as [->|Hne].
    + rewrite lookup_insert_eq in Hk. injection Hk as <-. simpl.
      by apply (Hres k old).
    + rewrite lookup_insert_ne in Hk by done. by apply (Hres k e).
  - destruct (bool_decide (source ∈ dom (nodes db))) eqn:Hs; [|done].
    destruct (bool_decide (target ∈ dom (nodes db))) eqn:Ht; [|done].
    apply bool_decide_eq_true in Hs, Ht.
    injection Hup as <-. intros k e Hk. simpl in *.
    destruct (decide (edgeId = k)) as [->|Hne].
    + rewrite lookup_insert_eq in Hk. by injection Hk as <-.
    + rewrite lookup_insert_ne in Hk by done. by apply (Hres k e).
Qed.

Lemma edgesResolve_upsertEdges id es : ∀ db db',
  upsertEdges id es db = inr db' → edgesResolve db → edgesResolve db'.
Proof.
  induction es as [|edge es IH]; intros db db' Hup Hres; simpl in Hup.
  - by injection Hup as <-.
  - destruct (upsertEdge id edge db) as [e|db1] eqn:H1; [done|]. simpl in Hup.
    eapply IH; [done|]. by eapply edgesResolve_upsertEdge.
Qed.

(** X6.  A save leaves no edge dangling.  When every persisted edge joins
    two persisted nodes before a save, the same holds after it, whatever the
    request and whether it succeeds or fails: the edges of a deleted node go
    with it, and an edge is only created between nodes that are persisted
    once the node list has been applied. *)
Theorem saveGraph_edges_resolve id body db :
  edgesResolve db → edgesResolve (saveGraph id body db).1.
Proof.
  intros Hres.
  destruct (saveGraph id body db) as [db' [[]|status error]] eqn:Hsave; simpl.
  - apply saveGraph_Json in Hsave
      as (ns & es & db2 & _ & _ & _ & _ & _ & Hnodes & Hedges).
    eapply edgesResolve_upsertEdges; [exact Hedges|].
    assert (Hres2 : edgesResolve db2).
    { eapply edgesResolve_upsertNodes; [exact Hnodes|].
      destruct (Z.ltb 0 (Z.of_nat (length (omap ClientNode.id ns)))); [|done].
      by apply edgesResolve_deleteManyNodes. }
    destruct (Z.ltb 0 (Z.of_nat (length (omap ClientEdge.id es)))); [|done].
    intros k e Hk. simpl in *.
    apply map_lookup_filter_Some in Hk as [Hk _]. by apply (Hres2 k e).
  - destruct (saveGraph_inv id body db) as [Heq|(?&?&?&_&_&_&_&_&_&_&Hjson)].
    + rewrite Hsave in Heq. simpl in Heq. by subst.
    + rewrite Hsave in Hjson. done.
Qed.

(** *** The properties above on the example graph *)

(** The save that drops node b and re-creates the edge x1, sent twice. *)
Lemma saveGraph_idempotent_witness :
  saveGraph "g" Example.retargetEdge
    (saveGraph "g" Example.retargetEdge Example.db1).1
  = ((saveGraph "g" Example.retargetEdge Example.db1).1, Json tt).
Proof.
  apply (saveGraph_idempotent "g" Example.retargetEdge Example.db1).
  vm_compute; reflexivity.
Defined.

(** Node a, sent at (10,20) with another entity: it is stored at (10,20)
    and keeps its entity. *)
Lemma saveGraph_stores_sent_witness :
  ∃ row,
    nodes (saveGraph "g" Example.rewriteReferences Example.db1).1 !! "a" = Some row
    ∧ Node.x row = 10%float ∧ Node.y row = 20%float
    ∧ Node.entityId row = "e1".
Proof.
  destruct (saveGraph_stores_sent "g" Example.rewriteReferences Example.db1
              (saveGraph "g" Example.rewriteReferences Example.db1).1
              [Example.clientNode "r" "root" 0 0 "e0";
               Example.clientNode "a" "custom" 10 20 "e2";
               Example.clientNode "b" "custom" 600 300 "e2"]
              (Example.clientNode "a" "custom" 10 20 "e2") "a"
              ltac:(vm_compute; reflexivity) eq_refl
              ltac:(compute_done)
              ltac:(apply elem_of_cons; right; apply elem_of_cons; by left)
              eq_refl)
    as (px & py & entityId & entity & row & Hp & _ & _ & Hrow & Hx & Hy & _ & _
        & Hold).
  exists row. injection Hp as <- <-.
  split; [exact Hrow|]. split; [exact Hx|]. split; [exact Hy|].
  exact (proj2 Hold).
Defined.

(** A coordinate sent as -0 is kept as 0; any other number is kept as it
    is. *)
Example storedNumber_negative_zero :
  storedNumber neg_zero = 0%float ∧ storedNumber 12.5 = 12.5%float
  ∧ PrimFloat.Leibniz.eqb neg_zero 0 = false.
Proof. repeat split; vm_compute; reflexivity. Qed.

(** Node b is not sent and is deleted; the root of the other graph is not
    sent and stays. *)
Lemma saveGraph_unsent_nodes_witness :
  nodes (saveGraph "g" Example.retargetEdge Example.db2).1 !! "b" = None
  ∧ nodes (saveGraph "g" Example.retargetEdge Example.db2).1 !! "z"
    = Some (Node.mk "h" "e2" 0 0 None (Some "root")).
Proof.
  split.
  - apply (saveGraph_unsent_nodes "g" Example.retargetEdge Example.db2
             (saveGraph "g" Example.retargetEdge Example.db2).1
             [Example.clientNode "r" "root" 0 0 "e0";
              Example.clientNode "a" "custom" 300 150 "e1"] "b"
             ltac:(vm_compute; reflexivity) eq_refl ltac:(discriminate)
             ltac:(compute_done)).
    intros [Hd|[Ht|Ht]]; [by apply Hd|discriminate Ht|discriminate Ht].
  - apply (saveGraph_unsent_nodes "g" Example.retargetEdge Example.db2
             (saveGraph "g" Example.retargetEdge Example.db2).1
             [Example.clientNode "r" "root" 0 0 "e0";
              Example.clientNode "a" "custom" 300 150 "e1"] "z"
             ltac:(vm_compute; reflexivity) eq_refl ltac:(discriminate)
             ltac:(compute_done)).
    left. discriminate.
Defined.

(** After the save that sends the edge x1 only, x1 is persisted. *)
Lemma saveGraph_edges_of_graph_witness :
  is_Some (edges (saveGraph "g" Example.retargetEdge Example.db1).1 !! "x1").
Proof.
  apply (proj2 (saveGraph_edges_of_graph "g" Example.retargetEdge Example.db1
                  (saveGraph "g" Example.retargetEdge Example.db1).1
                  [Example.clientEdge "x1" "a" "r"]
                  ltac:(vm_compute; reflexivity) eq_refl ltac:(discriminate))).
  compute_done.
Defined.

(** A node that names the entity e9, which does not exist. *)
Lemma saveGraph_missing_entity_witness :
  saveGraph "g"
    (mkSaveBody (Some [Example.clientNode "r" "root" 0 0 "e0";
                       Example.clientNode "n1" "custom" 1 1 "e9"]) (Some []))
    Example.db1
  = (Example.db1, Failure 500 "Failed to save DAG").
Proof.
  apply (saveGraph_missing_entity "g"
           (mkSaveBody (Some [Example.clientNode "r" "root" 0 0 "e0";
                              Example.clientNode "n1" "custom" 1 1 "e9"])
                       (Some []))
           Example.db1
           [Example.clientNode "r" "root" 0 0 "e0";
            Example.clientNode "n1" "custom" 1 1 "e9"] []
           (Example.clientNode "n1" "custom" 1 1 "e9") "e9"
           eq_refl eq_refl ltac:(by eexists) eq_refl eq_refl
           ltac:(apply elem_of_cons; right; apply elem_of_cons; by left)
           eq_refl eq_refl).
Defined.

Lemma edgesResolve_db1 : edgesResolve Example.db1.
Proof.
  intros k e Hk.
  destruct (decide (k = "x1")) as [->|Hne].
  - vm_compute in Hk. injection Hk as <-. split; compute_done.
  - unfold Example.db1 in Hk. simpl in Hk.
    rewrite lookup_singleton_ne in Hk by done. done.
Qed.

(** The example graph has no dangling edge, and has none after the save
    that drops node b. *)
Lemma saveGraph_edges_resolve_witness :
  edgesResolve (saveGraph "g" Example.retargetEdge Example.db1).1.
Proof.
  apply (saveGraph_edges_resolve "g" Example.retargetEdge Example.db1).
  apply edgesResolve_db1.
Defined.

(** ** Events: what a creation stores *)

Lemma trimStart_clean s :
  match Js.trimStart s with
  | EmptyString => True
  | String c _ => Js.isWhiteSpace c = false
  end.
Proof.
  induction s as [|c s IH]; simpl; [done|].
  destruct (Js.isWhiteSpace c) eqn:Hc; [done|]. simpl. done.
Qed.

Lemma trimStart_id c s :
  Js.isWhiteSpace c = false → Js.trimStart (String c s) = String c s.
Proof. intros Hc. simpl. by rewrite Hc. Qed.

Lemma trimEnd_cons c s :
  Js.isWhiteSpace c = false → Js.trimEnd (String c s) = String c (Js.trimEnd s).
Proof. intros Hc. simpl. by rewrite Hc. Qed.

Lemma trimEnd_idemp s : Js.trimEnd (Js.trimEnd s) = Js.trimEnd s.
Proof.
  induction s as [|c s IH]; [done|].
  cbn [Js.trimEnd].
  destruct (Js.isWhiteSpace c && String.eqb (Js.trimEnd s) "") eqn:Hc; [done|].
  cbn [Js.trimEnd]. rewrite IH, Hc. done.
Qed.

(** [trim] leaves nothing to trim. *)
Lemma trim_trimmed s : trimmed (Js.trim s).
Proof.
  unfold trimmed, Js.trim.
  pose proof (trimStart_clean s) as Hclean.
  destruct (Js.trimStart s) as [|c t]; [done|].
  rewrite (trimEnd_cons c t Hclean), (trimStart_id c _ Hclean).
  rewrite (trimEnd_cons c _ Hclean). by rewrite trimEnd_idemp.
Qed.

Section EventsStored.

Context `{DateImpl}.

Lemma titleMissing_false title :
  titleMissing title = false →
  ∃ s, title = Some s ∧ Js.trim s ≠ "".
Proof.
  unfold titleMissing. intros Ht. apply orb_false_iff in Ht as [Ht1 Ht2].
  destruct title as [s|]; [|done]. exists s. split; [done|].
  simpl in Ht2. apply negb_false_iff, negb_true_iff in Ht2.
  by apply String.eqb_neq in Ht2.
Qed.

Lemma shapeError_title body :
  shapeError body = None → titleMissing (EventBody.title body) = false.
Proof. unfold shapeError. by destruct (titleMissing _). Qed.

(** The event row and the edge row after the storing step. *)
Lemma storeEvent_rows body eventData db db' r :
  storeEvent body eventData db = (db', r) →
  event r = eventData
  ∧ event_id r = fresh (dom (events db))
  ∧ match createdEdge r with
    | Some (k, e) =>
        edgeRequested body = true
        ∧ edges db !! k = None
        ∧ edges db' = <[k := e]> (edges db)
        ∧ e = Edge.mk (default "" (EventBody.dagId body))
                      (default "" (EventBody.sourceNodeId body))
                      (default "" (EventBody.targetNodeId body))
                      None (Some (Js.trim (default "" (EventBody.title body))))
                      None None (Some (event_id r))
        ∧ events db' = <[event_id r := withCreatedEdge (Some k) eventData]> (events db)
    | None =>
        edges db' = edges db
        ∧ events db' = <[event_id r := eventData]> (events db)
    end.
Proof.
  unfold storeEvent. intros Hs.
  destruct (edgeRequested body) eqn:Hreq.
  - unfold deriveEdge in Hs.
    destruct (findEdgeBetween _ _ _ _) as [found|].
    + injection Hs as <- <-. simpl. done.
    + injection Hs as <- <-. simpl.
      split; [done|]. split; [done|]. split; [done|].
      split; [apply fresh_edge_id|]. split; [done|]. split; [done|].
      apply map_eq. intros k.
      destruct (decide (k = fresh (dom (events db)))) as [->|Hne].
      * rewrite lookup_alter_eq, !lookup_insert_eq. done.
      * rewrite lookup_alter_ne, !lookup_insert_ne by done. done.
  - injection Hs as <- <-. simpl. done.
Qed.

(** X7.  The title a creation stores.  The event created by a successful
    createEvent carries the title of the request with the surrounding
    white space removed: the stored title is not empty and has no leading
    or trailing white space, and the description is either null or a
    non-empty string without surrounding white space.  The event is
    persisted under its new id with that title. *)
Theorem createEvent_stores_trimmed body db db' r :
  createEvent body db = (db', Json r) →
  Some (Event.title (event r)) = Js.trim <$> EventBody.title body
  ∧ Event.title (event r) ≠ ""
  ∧ trimmed (Event.title (event r))
  ∧ match Event.description (event r) with
    | Some d => d ≠ "" ∧ trimmed d
    | None => True
    end
  ∧ ∃ stored, events db' !! event_id r = Some stored
              ∧ Event.title stored = Event.title (event r)
              ∧ Event.description stored = Event.description (event r).
Proof.
  intros Hc.
  apply createEvent_Json in Hc
    as (db1 & eventTypeId & Hshape & _ & _ & _ & _ & _ & Hstore).
  apply shapeError_title, titleMissing_false in Hshape as (s & Hs & Hne).
  apply storeEvent_rows in Hstore as (Hev & Hid & Hrows).
  rewrite Hev. unfold eventDataOf at 1 2 3 4. simpl. rewrite Hs. simpl.
  split; [done|]. split; [done|]. split; [apply trim_trimmed|]. split.
  - unfold Js.orNull.
    destruct (EventBody.description body) as [d|]; simpl; [|done].
    destruct (negb (String.eqb (Js.trim d) "")) eqn:Hd; [|done].
    apply negb_true_iff, String.eqb_neq in Hd. split; [done|apply trim_trimmed].
  - destruct (createdEdge r) as [[k e]|].
    + destruct Hrows as (_ & _ & _ & _ & ->). eexists.
      rewrite lookup_insert_eq. split; [done|].
      simpl. rewrite Hs. done.
    + destruct Hrows as (_ & ->). eexists.
      rewrite lookup_insert_eq. split; [done|].
      simpl. rewrite Hs. done.
Qed.

Lemma edgeRequested_nodes body :
  edgeRequested body = true →
  Js.orNull (EventBody.sourceNodeId body)
  = Some (default "" (EventBody.sourceNodeId body))
  ∧ Js.orNull (EventBody.targetNodeId body)
    = Some (default "" (EventBody.targetNodeId body)).
Proof.
  unfold edgeRequested, Js.orNull. intros Hreq.
  apply andb_true_iff in Hreq as [Hreq Ht].
  apply andb_true_iff in Hreq as [_ Hs]. rewrite Hs, Ht.
  destruct (EventBody.sourceNodeId body), (EventBody.targetNodeId body); done.
Qed.

(** X8.  The edge of an event and the event point at each other.  When a
    successful createEvent creates an edge, the edge is new, it is
    persisted under the id returned, it carries the id of the event as its
    provenance and the title of the event as its label, it belongs to the
    graph of the event and runs from the source node of the event to its
    target node, the persisted event carries the id of the edge, and no
    other edge is touched.  When no edge is created, the edge table is
    left as it was and the persisted event carries no edge id. *)
Theorem createEvent_edge_link body db db' r :
  createEvent body db = (db', Json r) →
  match createdEdge r with
  | Some (k, e) =>
      edges db !! k = None
      ∧ edges db' !! k = Some e
      ∧ Edge.createdFromEventId e = Some (event_id r)
      ∧ Edge.label e = Some (Event.title (event r))
      ∧ Edge.dagId e = Event.dagId (event r)
      ∧ Event.sourceNodeId (event r) = Some (Edge.sourceId e)
      ∧ Event.targetNodeId (event r) = Some (Edge.targetId e)
      ∧ events db' !! event_id r = Some (withCreatedEdge (Some k) (event r))
      ∧ (∀ j, j ≠ k → edges db' !! j = edges db !! j)
  | None =>
      edges db' = edges db ∧ events db' !! event_id r = Some (event r)
  end.
Proof.
  intros Hc.
  apply createEvent_Json in Hc
    as (db1 & eventTypeId & _ & _ & _ & Hr & _ & _ & Hstore).
  apply resolveEventType_tables in Hr as (_ & He & _).
  apply storeEvent_rows in Hstore as (Hev & Hid & Hrows).
  destruct (createdEdge r) as [[k e]|].
  - destruct Hrows as (Hreq & Hnew & Hedges & -> & Hevents).
    apply edgeRequested_nodes in Hreq as [Hs Ht].
    rewrite Hedges, Hevents, <- He, Hev. simpl.
    rewrite !lookup_insert_eq. repeat split; try done.
    intros j Hj. by rewrite lookup_insert_ne.
  - destruct Hrows as (Hedges & Hevents).
    rewrite Hedges, Hevents, He, Hev. by rewrite lookup_insert_eq.
Qed.

Lemma resolveEventType_grows db eventTypeId customTypeName db1 k :
  resolveEventType db eventTypeId customTypeName = Some (db1, k) →
  eventTypes db ⊆ eventTypes db1 ∧ roles db1 = roles db
  ∧ entities db1 = entities db.
Proof.
  unfold resolveEventType. intros Hr.
  destruct (_ && _).
  - destruct (findEventTypeByName db _) as [[k' t']|].
    + by injection Hr as <- <-.
    + destruct (findEventTypeByName db _); [done|]. injection Hr as <- <-.
      simpl. split; [|done]. apply insert_subseteq, not_elem_of_dom, is_fresh.
  - by injection Hr as <- <-.
Qed.

(** X9.  A rejected createEvent stores no event.  Whenever createEvent
    answers with a failure, the node, edge, event and graph tables are
    left as they were, and no event type is removed or changed; the one
    thing a rejected request can leave behind is the event type of its
    customTypeName.  That does happen: a request that passes the checks on
    its fields and its nodes, names a custom type that is not registered,
    and carries a date that does not parse, is rejected with status 400
    "Invalid date format" after its type has been registered. *)
Theorem createEvent_failure_stores_no_event body db :
  (∀ status error,
     (createEvent body db).2 = Failure status error →
     nodes (createEvent body db).1 = nodes db
     ∧ edges (createEvent body db).1 = edges db
     ∧ events (createEvent body db).1 = events db
     ∧ dags (createEvent body db).1 = dags db
     ∧ eventTypes db ⊆ eventTypes (createEvent body db).1)
  ∧ (∀ name,
       shapeError body = None →
       nodeMissing db (EventBody.sourceNodeId body) (EventBody.dagId body) = false →
       nodeMissing db (EventBody.targetNodeId body) (EventBody.dagId body) = false →
       EventBody.customTypeName body = Some name →
       Js.truthy (EventBody.eventTypeId body) = false →
       findEventTypeByName db name = None →
       findEventTypeByName db (Js.trim name) = None →
       Js.truthy (EventBody.date body) = true →
       parseDate (default "" (EventBody.date body)) = None →
       createEvent body db
       = (set_eventTypes
            (insert (fresh (dom (eventTypes db)))
                    (EventType.mk (Js.trim name) (Some "HelpCircle")
                                  (Some "#6366f1"))) db,
          Failure 400 "Invalid date format")).
Proof.
  split.
  - intros status error Hc. unfold createEvent in *.
    destruct (shapeError body); [done|].
    destruct (nodeMissing db (EventBody.sourceNodeId body) _); [done|].
    destruct (nodeMissing db (EventBody.targetNodeId body) _); [done|].
    destruct (resolveEventType db _ _) as [[db1 eventTypeId]|] eqn:Hr; [|done].
    pose proof (resolveEventType_grows _ _ _ _ _ Hr) as (Hsub & _).
    apply resolveEventType_tables in Hr as (? & ? & ? & ? & _).
    destruct (eventDateOf body) as [[d|]|]; [| done |].
    + destruct (negb _); [done|]. by destruct (storeEvent _ _ _).
    + destruct (negb _); [done|]. by destruct (storeEvent _ _ _).
  - intros name Hshape Hsrc Htgt Hname Htype Hfind Hfind' Hdate Hparse.
    unfold createEvent. rewrite Hshape, Hsrc, Htgt.
    unfold resolveEventType. rewrite Hname, Htype. simpl.
    assert (Htruthy : negb (String.eqb name "") = true).
    { unfold shapeError in Hshape.
      destruct (titleMissing _); [done|].
      destruct (_ && negb (Js.truthy (EventBody.sourceDagId body))); [done|].
      rewrite Htype, Hname in Hshape. simpl in Hshape.
      by destruct (negb (String.eqb name "")). }
    rewrite Htruthy. simpl. rewrite Hfind, Hfind'.
    unfold eventDateOf. rewrite Hdate, Hparse. done.
Qed.

(** X10.  A custom event type is registered once.  When a request names
    its event type by customTypeName only, and the request succeeds twice
    in a row, the second call registers no event type: the event type
    table is the one the first call left, and both events carry the same
    event type, a registered one whose name is the customTypeName as sent
    or with its surrounding white space removed. *)
Theorem createEvent_custom_type_once body db db1 r1 db2 r2 name :
  EventBody.customTypeName body = Some name →
  Js.truthy (EventBody.eventTypeId body) = false →
  createEvent body db = (db1, Json r1) →
  createEvent body db1 = (db2, Json r2) →
  eventTypes db2 = eventTypes db1
  ∧ Event.eventTypeId (event r2) = Event.eventTypeId (event r1)
  ∧ ∃ t, eventTypes db1 !! Event.eventTypeId (event r1) = Some t
         ∧ (EventType.name t = name ∨ EventType.name t = Js.trim name).
Proof.
  intros Hname Htype Hc1 Hc2.
  apply createEvent_Json in Hc1
    as (dbA & typeA & Hshape & _ & _ & HrA & _ & _ & HstoreA).
  apply createEvent_Json in Hc2
    as (dbB & typeB & _ & _ & _ & HrB & _ & _ & HstoreB).
  pose proof (storeEvent_static _ _ _ _ _ HstoreA) as (HtA & _).
  pose proof (storeEvent_static _ _ _ _ _ HstoreB) as (HtB & _).
  apply storeEvent_rows in HstoreA as (HevA & _ & _).
  apply storeEvent_rows in HstoreB as (HevB & _ & _).
  rewrite HevA, HevB, HtB. unfold eventDataOf at 1 2 3. simpl.
  assert (Htruthy : Js.truthy (Some name) = true).
  { unfold shapeError in Hshape.
    destruct (titleMissing _); [done|].
    destruct (_ && negb (Js.truthy (EventBody.sourceDagId body))); [done|].
    rewrite Htype, Hname in Hshape. simpl in *.
    by destruct (negb (String.eqb name "")). }
  unfold resolveEventType in HrA, HrB.
  rewrite Hname, Htype, Htruthy in HrA, HrB. simpl in HrA, HrB.
  rewrite !(findEventTypeByName_ext db1 dbA) in HrB by done.
  destruct (findEventTypeByName db name) as [[k t]|] eqn:Hfound.
  - (* the name was registered before the first call *)
    injection HrA as <- <-. rewrite Hfound in HrB.
    injection HrB as <- <-. split; [done|]. split; [done|].
    apply findEventTypeByName_Some in Hfound as [Hk Hn].
    exists t. rewrite HtA. simpl. split; [done|]. by left.
  - (* the first call registered it under the trimmed name *)
    destruct (findEventTypeByName db (Js.trim name)) as [found|] eqn:Hfound';
      [done|].
    injection HrA as <- <-.
    assert (Hfresh : eventTypes db !! fresh (dom (eventTypes db)) = None)
      by apply not_elem_of_dom, is_fresh.
    rewrite !findEventTypeByName_insert_fresh in HrB by done.
    simpl in HrB.
    destruct (decide (Js.trim name = name)) as [Heq|Hne].
    + injection HrB as <- <-. split; [done|]. split; [done|].
      eexists. rewrite HtA. simpl. rewrite lookup_insert_eq.
      split; [done|]. by right.
    + rewrite decide_True in HrB by done. done.
Qed.

End EventsStored.

(** ** Events: updating and reordering *)

Section EventsUpdated.

Context `{DateImpl}.

(** X11.  What an update of an event leaves alone.  After a successful
    updateEvent the stored event has the sort order, the graph, the series
    day and the tags it had, whatever the new date and title are, and no
    other event is touched.  An event that had an edge of its own keeps its
    edge id; that edge stays in its graph, between the endpoints it had and
    with its provenance (only its label can change), and no other edge is
    touched: a new source or target of the event does not move the edge and
    creates no second one.  An event that had no edge of its own either
    still has none, with the edge table left as it was, or the update has
    created exactly one edge, for a pair that had none, from the source to
    the target of the request, and the stored event carries its id.  The
    event of the response is the stored one with the edge id it had before
    the update. *)
Theorem updateEvent_keeps_order_and_edge id body db db' updated old :
  updateEvent id body db = (db', Json updated) →
  events db !! id = Some old →
  ∃ stored,
    events db' !! id = Some stored
    ∧ (∀ j, j ≠ id → events db' !! j = events db !! j)
    ∧ Event.sortOrder stored = Event.sortOrder old
    ∧ Event.dagId stored = Event.dagId old
    ∧ Event.seriesDay stored = Event.seriesDay old
    ∧ Event.tags stored = Event.tags old
    ∧ updated = withCreatedEdge (Event.createdEdgeId old) stored
    ∧ match Event.createdEdgeId old with
      | Some k =>
          Event.createdEdgeId stored = Some k
          ∧ (∀ j, j ≠ k → edges db' !! j = edges db !! j)
          ∧ match edges db !! k with
            | Some e => ∃ e', edges db' !! k = Some e' ∧ sameEdgeIdentity e e'
            | None => edges db' !! k = None
            end
      | None =>
          (Event.createdEdgeId stored = None ∧ edges db' = edges db)
          ∨ ∃ k e,
              edges db !! k = None
              ∧ edges db' = <[k := e]> (edges db)
              ∧ Event.createdEdgeId stored = Some k
              ∧ Edge.dagId e = Event.dagId old
              ∧ EventBody.sourceNodeId body = Some (Edge.sourceId e)
              ∧ EventBody.targetNodeId body = Some (Edge.targetId e)
              ∧ Edge.createdFromEventId e = Some id
              ∧ edgeCount db (Event.dagId old) (Edge.sourceId e)
                          (Edge.targetId e) = 0%nat
      end.
Proof.
  unfold updateEvent. intros Hu Hold. rewrite Hold in Hu.
  destruct (updateShapeError body); [done|].
  destruct (_ && noParticipants _); [done|].
  destruct (nodeMissing db (EventBody.sourceNodeId body) _); [done|].
  destruct (nodeMissing db (EventBody.targetNodeId body) _); [done|].
  destruct (resolveEventType db _ _) as [[db1 eventTypeId]|] eqn:Hr; [|done].
  apply resolveEventType_tables in Hr as (_ & He & Hev & _).
  destruct (parseDate _) as [eventDate|]; [|done].
  destruct (negb _); [done|].
  assert (Hresponse :
    updatedEvent body eventTypeId eventDate old
    = withCreatedEdge (Event.createdEdgeId old)
        (updatedEvent body eventTypeId eventDate old)) by done.
  destruct (edgeRequested body) eqn:Hreq.
  - unfold updateEdge in Hu.
    destruct (Event.createdEdgeId old) as [edgeId|] eqn:Hown.
    + simpl in Hu. destruct (edges db1 !! edgeId) as [own|] eqn:Hedge; [|done].
      injection Hu as <- <-. eexists. simpl.
      rewrite lookup_insert_eq. split; [done|].
      split; [intros j Hj; by rewrite lookup_insert_ne, Hev|].
      do 4 (split; [done|]). split; [unfold withCreatedEdge, updatedEvent; simpl; by rewrite ?Hown|].
      split; [exact Hown|]. split.
      * intros j Hj. rewrite lookup_alter_ne by done. by rewrite He.
      * rewrite <- He, Hedge, lookup_alter_eq, Hedge. simpl.
        eexists. split; [done|]. by repeat split.
    + apply edgeRequested_nodes in Hreq as [Hsource Htarget].
      unfold deriveEdge in Hu.
      destruct (findEdgeBetween _ _ _ _) as [found|] eqn:Hfind.
      * injection Hu as <- <-. eexists. simpl.
        rewrite lookup_insert_eq. split; [done|].
        split; [intros j Hj; by rewrite lookup_insert_ne, Hev|].
        do 4 (split; [done|]). split; [unfold withCreatedEdge, updatedEvent; simpl; by rewrite ?Hown|].
        left. split; [exact Hown|done].
      * injection Hu as <- <-. eexists. simpl.
        rewrite lookup_alter_eq, lookup_insert_eq. simpl. split; [done|].
        split.
        { intros j Hj. rewrite lookup_alter_ne, lookup_insert_ne by done.
          by rewrite Hev. }
        do 4 (split; [done|]). split; [unfold withCreatedEdge, updatedEvent; simpl; by rewrite ?Hown|].
        right. eexists _, _. rewrite <- He.
        split; [apply fresh_edge_id|]. split; [done|]. split; [done|].
        simpl. split; [done|].
        unfold Js.orNull in Hsource, Htarget.
        destruct (EventBody.sourceNodeId body) as [source|] eqn:Hs;
          [|by destruct (Js.truthy None)].
        destruct (EventBody.targetNodeId body) as [target|] eqn:Ht;
          [|by destruct (Js.truthy None)].
        simpl. split; [done|]. split; [done|]. split; [done|].
        apply findEdgeBetween_None in Hfind.
        unfold edgeCount, edgesBetween in *. simpl in Hfind.
        rewrite <- He, Hfind. apply map_size_empty.
  - injection Hu as <- <-. eexists. simpl.
    rewrite lookup_insert_eq. split; [done|].
    split; [intros j Hj; by rewrite lookup_insert_ne, Hev|].
    do 4 (split; [done|]).
    destruct (Event.createdEdgeId old) as [edgeId|] eqn:Hown.
    + split; [unfold withCreatedEdge, updatedEvent; simpl; by rewrite ?Hown|].
      split; [exact Hown|]. split; [by rewrite He|].
      rewrite He. destruct (edges db !! edgeId) as [e|]; [|done].
      exists e. split; [done|]. by repeat split.
    + split; [unfold withCreatedEdge, updatedEvent; simpl; by rewrite ?Hown|].
      left. split; [exact Hown|done].
Qed.

Lemma reorderEvents_Json body db db' :
  reorderEvents body db = (db', Json tt) →
  ∃ g date d eventIds,
    ReorderBody.dagId body = Some g ∧ ReorderBody.date body = Some date
    ∧ ReorderBody.eventIds body = Some eventIds
    ∧ Js.truthy (Some g) = true ∧ Js.truthy (Some date) = true
    ∧ parseDate date = Some d
    ∧ listedOnDay db g d eventIds
    ∧ updateSortOrders 0 eventIds db = (db', true).
Proof.
  unfold reorderEvents. intros Hr.
  destruct (ReorderBody.eventIds body) as [eventIds|]; [|done].
  destruct (ReorderBody.dagId body) as [g|]; [|done].
  destruct (ReorderBody.date body) as [date|];
    [|simpl in Hr; by rewrite orb_true_r in Hr].
  destruct (Js.truthy (Some g)) eqn:Hg; [|done].
  destruct (Js.truthy (Some date)) eqn:Hdate; [|done].
  simpl in Hr.
  destruct (parseDate date) as [d|] eqn:Hparse; [|done].
  destruct (negb _) eqn:Hsize; [done|].
  apply negb_false_iff, Nat.eqb_eq, eventsToReorder_size in Hsize.
  destruct (updateSortOrders 0 eventIds db) as [db'' [|]] eqn:Hrun; [|done].
  injection Hr as <-. exists g, date, d, eventIds. done.
Qed.

(** X12.  Creating an event on a day that has just been reordered.  When
    a reordering of a day succeeds with a list that names every event of
    the graph on that day, a createEvent for the same graph and the same
    date that succeeds right after gives its event the sort order n, the
    length of the list: the new event comes after the n reordered ones,
    which hold the sort orders 0 to n-1. *)
Theorem createEvent_after_reorder rbody body db db1 db2 r g date d eventIds :
  ReorderBody.dagId rbody = Some g →
  ReorderBody.date rbody = Some date →
  ReorderBody.eventIds rbody = Some eventIds →
  parseDate date = Some d →
  reorderEvents rbody db = (db1, Json tt) →
  (∀ k e, events db !! k = Some e → Event.dagId e = g →
          onDayOf d (Event.date e) = true → k ∈ eventIds) →
  EventBody.dagId body = Some g →
  EventBody.date body = Some date →
  createEvent body db1 = (db2, Json r) →
  Event.sortOrder (event r) = Z.of_nat (length eventIds).
Proof.
  intros Hg Hdate Hids Hparse Hreorder Hcover Hg' Hdate' Hcreate.
  apply reorderEvents_Json in Hreorder
    as (g0 & date0 & d0 & ids0 & Hg0 & Hdate0 & Hids0 & _ & Htruthy & Hparse0
        & Hlisted & Hrun).
  rewrite Hg in Hg0. injection Hg0 as <-.
  rewrite Hdate in Hdate0. injection Hdate0 as <-.
  rewrite Hids in Hids0. injection Hids0 as <-.
  rewrite Hparse in Hparse0. injection Hparse0 as <-.
  destruct Hlisted as [Hnodup Hall].
  destruct (updateSortOrders_spec eventIds 0 db Hnodup)
    as (db1' & Hrun' & Hset & Hother & _).
  { intros k Hk. destruct (Hall k Hk) as (e & He & _). eauto. }
  rewrite Hrun in Hrun'. injection Hrun' as <-.
  apply createEvent_Json in Hcreate
    as (dbr & eventTypeId & _ & _ & _ & Hr & _ & _ & Hstore).
  apply resolveEventType_tables in Hr as (_ & _ & Hev & _).
  apply storeEvent_rows in Hstore as (-> & _).
  unfold eventDataOf, eventDateOf. simpl.
  rewrite Hdate', Hg', Htruthy. simpl. rewrite Hparse. simpl.
  set (slot := sameDayEvents dbr g d).
  (* the events of the day are the listed ones, each at its index *)
  assert (Hin : ∀ (j : nat) k, eventIds !! j = Some k →
            ∃ e, slot !! k = Some e ∧ Event.sortOrder e = Z.of_nat j).
  { intros j k Hj. destruct (Hset j k Hj) as (e & He & He').
    destruct (Hall k) as (e0 & He0 & Hd0 & Hday0);
      [by eapply list_elem_of_lookup_2|].
    rewrite He in He0. injection He0 as <-.
    exists (withSortOrder (0 + Z.of_nat j) e). split; [|done].
    apply map_lookup_filter_Some. by rewrite Hev. }
  assert (Hout : ∀ k e, slot !! k = Some e →
            ∃ j : nat, eventIds !! j = Some k ∧ Event.sortOrder e = Z.of_nat j).
  { intros k e Hk.
    destruct (decide (k ∈ eventIds)) as [Hlisted|Hunlisted].
    - apply list_elem_of_lookup_1 in Hlisted as [j Hj].
      destruct (Hin j k Hj) as (e' & He' & Hs). exists j.
      rewrite Hk in He'. injection He' as <-. done.
    - apply map_lookup_filter_Some in Hk as (Hk & Hd & Hday). simpl in Hd, Hday.
      rewrite Hev, (Hother k Hunlisted) in Hk.
      destruct Hunlisted. by eapply Hcover. }
  destruct (nextSortOrder_spec slot) as (Hlt & Hempty & Hsome).
  destruct (decide (slot = ∅)) as [Hslot|Hslot].
  - rewrite (Hempty Hslot).
    destruct eventIds as [|k ids]; [done|].
    destruct (Hin 0%nat k eq_refl) as (e & He & _).
    rewrite Hslot in He. by rewrite lookup_empty in He.
  - destruct (Hsome Hslot) as (k & e & Hk & Hnext).
    destruct (Hout k e Hk) as (j & Hj & Hs).
    pose proof (lookup_lt_Some _ _ _ Hj) as Hjlt.
    destruct (lookup_lt_is_Some_2 eventIds (length eventIds - 1)) as [k' Hk'];
      [lia|].
    destruct (Hin _ k' Hk') as (e' & He' & Hs').
    specialize (Hlt k' e' He'). lia.
Qed.

End EventsUpdated.

(** *** The properties above on the example graph *)

(** A title sent with white space around it. *)
Lemma createEvent_stores_trimmed_witness :
  ∃ db' r,
    @createEvent Example.utc
      (Example.eventBody "  Raid " "2024-03-01" (Some "a") None false)
      Example.db2 = (db', Json r)
    ∧ Event.title (event r) ≠ "" ∧ trimmed (Event.title (event r)).
Proof.
  eexists _, _. split; [vm_compute; reflexivity|].
  destruct (@createEvent_stores_trimmed Example.utc
              (Example.eventBody "  Raid " "2024-03-01" (Some "a") None false)
              Example.db2 _ _ ltac:(vm_compute; reflexivity))
    as (_ & Hne & Htrimmed & _).
  split; [exact Hne|exact Htrimmed].
Defined.

(** The first meeting of a and b: the edge names the event. *)
Lemma createEvent_edge_link_witness :
  ∃ db' r k e,
    @createEvent Example.utc Example.meeting Example.db2 = (db', Json r)
    ∧ createdEdge r = Some (k, e)
    ∧ Edge.createdFromEventId e = Some (event_id r)
    ∧ events db' !! event_id r = Some (withCreatedEdge (Some k) (event r)).
Proof.
  eexists _, _, _, _. split; [vm_compute; reflexivity|].
  split; [vm_compute; reflexivity|].
  pose proof (@createEvent_edge_link Example.utc Example.meeting Example.db2
                _ _ ltac:(vm_compute; reflexivity)) as Hlink.
  cbn [createdEdge] in Hlink.
  destruct Hlink as (_ & _ & Hprov & _ & _ & _ & _ & Hevent & _).
  split; [exact Hprov|exact Hevent].
Defined.

(** A new custom type and a date that does not parse: the request is
    rejected and the type stays registered. *)
Lemma createEvent_failure_stores_no_event_witness :
  @createEvent Example.utc (Sample.customBody "Raid" "yesterday" "Raid")
    Example.db2
  = (set_eventTypes
       (insert (fresh (dom (eventTypes Example.db2)))
               (EventType.mk "Raid" (Some "HelpCircle") (Some "#6366f1")))
       Example.db2,
     Failure 400 "Invalid date format").
Proof.
  apply (proj2 (@createEvent_failure_stores_no_event Example.utc
                  (Sample.customBody "Raid" "yesterday" "Raid") Example.db2)
           "Raid"); vm_compute; reflexivity.
Defined.

(** Two events of the custom type "Raid": one type is registered. *)
Lemma createEvent_custom_type_once_witness :
  ∃ db1 r1 db2 r2,
    @createEvent Example.utc (Sample.customBody "Raid" "2024-03-01" "Raid")
      Example.db2 = (db1, Json r1)
    ∧ @createEvent Example.utc (Sample.customBody "Raid" "2024-03-01" "Raid")
        db1 = (db2, Json r2)
    ∧ eventTypes db2 = eventTypes db1
    ∧ Event.eventTypeId (event r2) = Event.eventTypeId (event r1).
Proof.
  eexists _, _, _, _. split; [vm_compute; reflexivity|].
  split; [vm_compute; reflexivity|].
  destruct (@createEvent_custom_type_once Example.utc
              (Sample.customBody "Raid" "2024-03-01" "Raid") Example.db2
              _ _ _ _ "Raid" eq_refl eq_refl
              ltac:(vm_compute; reflexivity) ltac:(vm_compute; reflexivity))
    as (Htypes & Htype & _).
  split; [exact Htypes|exact Htype].
Defined.

(** The meeting of a and b is moved to b and the root: it keeps its sort
    order and its edge id, and its edge still runs from a to b. *)
Lemma updateEvent_keeps_order_and_edge_witness :
  ∃ db' updated stored,
    @updateEvent Example.utc Sample.meetingId Sample.retitled Sample.withMeeting
    = (db', Json updated)
    ∧ events db' !! Sample.meetingId = Some stored
    ∧ Event.sortOrder stored = 0
    ∧ Event.createdEdgeId stored = Some "0"
    ∧ ∃ e', edges db' !! "0" = Some e'
            ∧ Edge.sourceId e' = "a" ∧ Edge.targetId e' = "b".
Proof.
  destruct (@updateEvent_keeps_order_and_edge Example.utc Sample.meetingId
              Sample.retitled Sample.withMeeting _ _ _
              ltac:(vm_compute; reflexivity) ltac:(vm_compute; reflexivity))
    as (stored & Hstored & _ & Hsort & _ & _ & _ & _ & Hedge).
  eexists _, _, stored. split; [vm_compute; reflexivity|].
  split; [exact Hstored|]. split; [exact Hsort|].
  cbn [Event.createdEdgeId] in Hedge.
  destruct Hedge as (Hown & _ & Hkept).
  split; [exact Hown|].
  destruct (edges Sample.withMeeting !! "0") as [e|] eqn:He;
    [|vm_compute in He; discriminate].
  destruct Hkept as (e' & He' & _ & Hs & Ht & _).
  vm_compute in He. injection He as <-.
  exists e'. split; [exact He'|]. split; [exact Hs|exact Ht].
Defined.

(** The three events of 2024-03-01 are reordered; the next event of the
    day gets sort order 3. *)
Lemma createEvent_after_reorder_witness :
  ∃ db2 r,
    @createEvent Example.utc
      (Example.eventBody "Appeal" "2024-03-01" (Some "a") None false)
      (@reorderEvents Example.utc (Example.reorderBody ["ev3"; "ev1"; "ev2"])
         Example.db3).1
    = (db2, Json r)
    ∧ Event.sortOrder (event r) = 3.
Proof.
  eexists _, _. split; [vm_compute; reflexivity|].
  eapply (@createEvent_after_reorder Example.utc
           (Example.reorderBody ["ev3"; "ev1"; "ev2"])
           (Example.eventBody "Appeal" "2024-03-01" (Some "a") None false)
           Example.db3
           (@reorderEvents Example.utc
              (Example.reorderBody ["ev3"; "ev1"; "ev2"]) Example.db3).1
           _ _ "g" "2024-03-01" 1709251200000 ["ev3"; "ev1"; "ev2"]
           eq_refl eq_refl eq_refl eq_refl ltac:(vm_compute; reflexivity)).
  - change (map_Forall (λ k e, Event.dagId e = "g" →
              @onDayOf Example.utc 1709251200000 (Event.date e) = true →
              k ∈ ["ev3"; "ev1"; "ev2"]) (events Example.db3)).
    compute_done.
  - reflexivity.
  - reflexivity.
  - vm_compute; reflexivity.
Defined.

(** ** Fetching the graph *)

Lemma hasRoot_rooted id db : hasRoot (nodesOfDag db id) = true ↔ rooted id db.
Proof.
  unfold hasRoot, rooted, nodesOfDag. rewrite existsb_exists. split.
  - intros ([k n] & Hin & Hroot). apply list_elem_of_In in Hin.
    apply elem_of_map_to_list, map_lookup_filter_Some in Hin as [Hk Hd].
    apply bool_decide_eq_true in Hroot. eauto.
  - intros (k & n & Hk & Hd & Hroot). exists (k, n). split.
    + apply list_elem_of_In, elem_of_map_to_list, map_lookup_filter_Some. done.
    + by apply bool_decide_eq_true.
Qed.

Lemma rootRole_tables db :
  nodes (rootRole db).1 = nodes db ∧ dags (rootRole db).1 = dags db
  ∧ entities (rootRole db).1 = entities db ∧ edges (rootRole db).1 = edges db
  ∧ events (rootRole db).1 = events db.
Proof. unfold rootRole. by destruct (findRoleByName db "Root") as [[k r]|]. Qed.

(** What the creation of a missing root does to nodes and graphs. *)
Lemma createMissingRoot_tables id dag db :
  ∃ k entityId,
    nodes db !! k = None
    ∧ nodes (createMissingRoot id dag db)
      = <[k := Node.mk id entityId 0 0 None (Some "root")]> (nodes db)
    ∧ dags (createMissingRoot id dag db) = dags db
    ∧ edges (createMissingRoot id dag db) = edges db
    ∧ events (createMissingRoot id dag db) = events db.
Proof.
  unfold createMissingRoot.
  pose proof (rootRole_tables db) as (Hn & Hd & _ & He & Hev).
  destruct (rootRole db) as [db1 roleId]. simpl in *.
  exists (fresh (dom (nodes db1))), (fresh (dom (entities db1))).
  split; [rewrite <- Hn; apply not_elem_of_dom, is_fresh|].
  by rewrite Hn, Hd, He, Hev.
Qed.

Lemma createSeedDag_tables id db :
  ∃ k entityId,
    nodes db !! k = None
    ∧ nodes (createSeedDag id db).1
      = <[k := Node.mk id entityId 0 0 None (Some "root")]> (nodes db)
    ∧ dags (createSeedDag id db).1 = <[id := (createSeedDag id db).2]> (dags db)
    ∧ edges (createSeedDag id db).1 = edges db
    ∧ events (createSeedDag id db).1 = events db.
Proof.
  unfold createSeedDag.
  pose proof (rootRole_tables db) as (Hn & Hd & _ & He & Hev).
  destruct (rootRole db) as [db1 roleId]. simpl in *.
  exists (fresh (dom (nodes db1))), (fresh (dom (entities db1))).
  split; [rewrite <- Hn; apply not_elem_of_dom, is_fresh|].
  by rewrite Hn, Hd, He, Hev.
Qed.

Lemma rooted_insert id db db' k entityId :
  nodes db' = <[k := Node.mk id entityId 0 0 None (Some "root")]> (nodes db) →
  rooted id db'.
Proof.
  intros Hn. exists k. eexists. rewrite Hn, lookup_insert_eq. done.
Qed.

(** The database after the handler has made sure of the graph. *)
Lemma ensureGraph_cases id db :
  (is_Some (dags db !! id) ∧ rooted id db ∧ ensureGraph id db = db)
  ∨ ∃ k entityId,
      nodes db !! k = None
      ∧ nodes (ensureGraph id db)
        = <[k := Node.mk id entityId 0 0 None (Some "root")]> (nodes db)
      ∧ is_Some (dags (ensureGraph id db) !! id)
      ∧ (∀ j, j ≠ id → dags (ensureGraph id db) !! j = dags db !! j)
      ∧ (∀ dag, dags db !! id = Some dag → dags (ensureGraph id db) = dags db)
      ∧ edges (ensureGraph id db) = edges db
      ∧ events (ensureGraph id db) = events db.
Proof.
  unfold ensureGraph.
  destruct (dags db !! id) as [dag|] eqn:Hdag.
  - destruct (hasRoot (nodesOfDag db id)) eqn:Hroot.
    + left. apply hasRoot_rooted in Hroot. eauto.
    + right. destruct (createMissingRoot_tables id dag db)
        as (k & entityId & Hk & Hn & Hd & He & Hev).
      exists k, entityId. rewrite Hd, Hdag. eauto 10.
  - right. destruct (createSeedDag_tables id db)
      as (k & entityId & Hk & Hn & Hd & He & Hev).
    destruct (createSeedDag id db) as [db1 dag]. simpl in *.
    rewrite (proj2 (hasRoot_rooted id db1)) by (by eapply rooted_insert).
    exists k, entityId. rewrite Hd.
    split; [done|]. split; [done|].
    split; [rewrite lookup_insert_eq; eauto|].
    split; [intros j Hj; by rewrite lookup_insert_ne|]. done.
Qed.

Lemma ensureGraph_keeps_nodes id db k n :
  nodes db !! k = Some n → nodes (ensureGraph id db) !! k = Some n.
Proof.
  intros Hk.
  destruct (ensureGraph_cases id db)
    as [(_ & _ & ->)|(j & entityId & Hj & Hn & _)]; [done|].
  rewrite Hn, lookup_insert_ne; [done|]. intros ->. by rewrite Hj in Hk.
Qed.

(** X13.  Fetching a graph makes sure it has a root.  After the handler
    of GET /api/dag/[id] has run, whatever it answers, the graph is in the
    graph table and has a root node; every node that was persisted is
    still there, unchanged, and at most one node has been added, a root at
    (0,0) of the fetched graph; no edge and no event is touched.  When the
    graph was there with a root already, the fetch writes nothing; so a
    second fetch never writes. *)
Theorem fetchGraph_ensures_root catalog id db :
  let db' := (fetchGraph catalog id db).1 in
  is_Some (dags db' !! id)
  ∧ rooted id db'
  ∧ (∀ k n, nodes db !! k = Some n → nodes db' !! k = Some n)
  ∧ (nodes db' = nodes db
     ∨ ∃ k entityId,
         nodes db !! k = None
         ∧ nodes db' = <[k := Node.mk id entityId 0 0 None (Some "root")]> (nodes db))
  ∧ edges db' = edges db ∧ events db' = events db
  ∧ (is_Some (dags db !! id) → rooted id db → db' = db)
  ∧ (fetchGraph catalog id db').1 = db'.
Proof.
  assert (Hstate : ∀ d, (fetchGraph catalog id d).1 = ensureGraph id d).
  { intros d. unfold fetchGraph. by repeat case_match. }
  simpl. rewrite !Hstate.
  assert (Hfix : ∀ d, is_Some (dags d !! id) → rooted id d → ensureGraph id d = d).
  { intros d [dag Hdag] Hroot. unfold ensureGraph. rewrite Hdag.
    by rewrite (proj2 (hasRoot_rooted id d)). }
  destruct (ensureGraph_cases id db)
    as [(Hdag & Hroot & ->)|(k & entityId & Hk & Hn & Hdag & _ & _ & He & Hev)].
  - split; [done|]. split; [done|]. split; [done|]. split; [by left|].
    split; [done|]. split; [done|]. split; [done|]. by apply Hfix.
  - assert (Hroot : rooted id (ensureGraph id db)) by (by eapply rooted_insert).
    split; [done|]. split; [done|]. split.
    { intros j n Hj. rewrite Hn. rewrite lookup_insert_ne; [done|].
      intros ->. by rewrite Hk in Hj. }
    split; [right; eauto|]. split; [done|]. split; [done|].
    split; [apply Hfix|by apply Hfix].
Qed.

Lemma fetchGraph_Json catalog id db db' view :
  fetchGraph catalog id db = (db', Json view) →
  db' = ensureGraph id db
  ∧ mapM (λ kn, toNetworkNode (labelsOf catalog id db) db' kn.1 kn.2)
         (map_to_list (nodesOfDag db' id)) = Some (view_nodes view)
  ∧ length (view_nodes view) = size (nodesOfDag db' id).
Proof.
  unfold fetchGraph. intros Hf.
  destruct (mapM _ _) as [nodeViews|] eqn:Hmap; [|by injection Hf].
  destruct (dags (ensureGraph id db) !! id); [|by injection Hf].
  injection Hf as <- <-. simpl. split; [done|]. split; [done|].
  apply mapM_Some_1, Forall2_length in Hmap.
  by rewrite <- Hmap, length_map_to_list.
Qed.

Lemma nodeTypeOf_root isRootNode roleName :
  nodeTypeOf isRootNode roleName = "root" ↔ isRootNode = true.
Proof.
  destruct isRootNode; [done|]. split; [|done].
  intros Hroot. by apply nodeTypeOf_not_root in Hroot.
Qed.

(** X14.  What is saved is what is fetched.  After a successful save
    whose node ids are pairwise distinct, a fetch of the same graph that
    succeeds returns, for every node of the saved list whose id was free or
    belonged to a node of this graph, a node with that id at the position
    the client sent (with 0 for a coordinate -0), or at (0,0) when the
    client gave it kind root; and the fetched node has kind root exactly
    when the client's had. *)
Theorem saveGraph_then_fetchGraph catalog id body db db1 ns node k db2 view :
  saveGraph id body db = (db1, Json tt) →
  body_nodes body = Some ns →
  NoDup (omap ClientNode.id ns) →
  node ∈ ns → ClientNode.id node = Some k →
  (∀ old, nodes db !! k = Some old → Node.dagId old = id) →
  fetchGraph catalog id db1 = (db2, Json view) →
  ∃ v px py,
    v ∈ view_nodes view ∧ NodeView.id v = k
    ∧ ClientNode.position node = Some (px, py)
    ∧ NodeView.position v
      = (if bool_decide (ClientNode.type node = Some "root")
         then (0%float, 0%float) else (storedNumber px, storedNumber py))
    ∧ (NodeView.type v = "root" ↔ ClientNode.type node = Some "root").
Proof.
  intros Hsave Hns Hnodup Hin Hk Hown Hfetch.
  destruct (saveGraph_sent_row _ _ _ _ _ _ _ Hsave Hns Hnodup Hin Hk)
    as (px & py & entityId & entity & row & Hp & _ & _ & Hrow & Hx & Hy & _
        & Ht & Hold).
  assert (Hd : Node.dagId row = id).
  { destruct (nodes db !! k) as [old|] eqn:Ho; [|by destruct Hold].
    destruct Hold as [-> _]. by apply Hown. }
  apply fetchGraph_Json in Hfetch as (-> & Hmap & _).
  pose proof (ensureGraph_keeps_nodes id db1 k row Hrow) as Hrow2.
  apply mapM_Some_1 in Hmap.
  assert (Hlisted : (k, row) ∈ map_to_list (nodesOfDag (ensureGraph id db1) id)).
  { apply elem_of_map_to_list, map_lookup_filter_Some. done. }
  apply list_elem_of_lookup_1 in Hlisted as [i Hi].
  destruct (Forall2_lookup_l _ _ _ _ _ Hmap Hi) as (v & Hv & Hview).
  simpl in Hview. unfold toNetworkNode in Hview.
  destruct (entities _ !! Node.entityId row) as [ent|]; [|done].
  destruct (roles _ !! Entity.roleId ent) as [roleLink|]; [|done].
  injection Hview as <-.
  exists (NodeView.mk k
            (nodeTypeOf (bool_decide (Node.type row = Some "root"))
                        (roleNameOf (ensureGraph id db1) ent))
            (Node.x row, Node.y row) (Entity.name ent) (Entity.roleId ent)
            (Role.name roleLink)
            (if Js.truthy (Node.category row)
             then default "" (Node.category row) else Role.category roleLink)
            (Js.orNull (Entity.description ent)) (Js.orNull (Entity.avatar ent))
            (Node.entityId row)
            (directionLabelsOf
               (nodeTypeOf (bool_decide (Node.type row = Some "root"))
                           (roleNameOf (ensureGraph id db1) ent))
               (labelsOf catalog id db1))), px, py.
  split; [by eapply list_elem_of_lookup_2|]. split; [done|]. split; [done|].
  simpl. split.
  - rewrite Hx, Hy. by destruct (bool_decide _).
  - rewrite nodeTypeOf_root, bool_decide_eq_true, Ht.
    split.
    + intros [= Hroot]. apply nodeTypeOf_root in Hroot.
      by apply bool_decide_eq_true in Hroot.
    + intros Hroot. by rewrite (bool_decide_eq_true_2 _ Hroot).
Qed.

(** ** New graphs *)

(** A graph whose only node is a new root at the origin. *)
Lemma rootInvariant_new id r entityId db db' :
  nodes db' = <[r := Node.mk id entityId 0 0 None (Some "root")]> (nodes db) →
  (∀ k n, nodes db !! k = Some n → Node.dagId n ≠ id) →
  rootInvariant id r db'.
Proof.
  intros Hn Hnone. apply rootInvariant_lookup. split.
  - eexists. rewrite Hn, lookup_insert_eq. done.
  - intros k n Hk Hd _. destruct (decide (k = r)) as [|Hne]; [done|].
    rewrite Hn, lookup_insert_ne in Hk by done. by destruct (Hnone k n Hk).
Qed.

Lemma nodesInGraphs_none id db :
  nodesInGraphs db → dags db !! id = None →
  ∀ k n, nodes db !! k = Some n → Node.dagId n ≠ id.
Proof.
  intros Hfk Hnone k n Hk <-. destruct (Hfk k n Hk) as [dag Hdag]. congruence.
Qed.

(** X15.  The graph a fetch creates.  A fetch of an id that is not in
    the graph table creates the graph, named "Investigation " followed by
    the last six characters of the id, with exactly one root node, at
    (0,0), under a new node id.  From there on, every sequence of saves
    whose node lists mark that node, and no other, as root keeps the graph
    at exactly that one root at (0,0). *)
Theorem fetchGraph_seeds_graph catalog id db :
  dags db !! id = None → nodesInGraphs db →
  let db' := (fetchGraph catalog id db).1 in
  dags db' !! id = Some (Dag.mk ("Investigation " +:+ sliceLast 6 id) None)
  ∧ ∃ r, nodes db !! r = None
         ∧ rootInvariant id r db'
         ∧ ∀ bodies, forallb (marksRootOnly r) bodies = true →
                     rootInvariant id r (saveGraphs id bodies db').
Proof.
  intros Hnone Hfk. simpl.
  assert (Hstate : (fetchGraph catalog id db).1 = ensureGraph id db).
  { unfold fetchGraph. by repeat case_match. }
  rewrite Hstate. unfold ensureGraph. rewrite Hnone.
  destruct (createSeedDag_tables id db)
    as (r & entityId & Hr & Hn & Hd & _).
  assert (Hdag : (createSeedDag id db).2
                 = Dag.mk ("Investigation " +:+ sliceLast 6 id) None).
  { unfold createSeedDag. by destruct (rootRole db). }
  destruct (createSeedDag id db) as [db1 dag]. simpl in *. subst dag.
  rewrite (proj2 (hasRoot_rooted id db1)) by (by eapply rooted_insert).
  split; [by rewrite Hd, lookup_insert_eq|].
  assert (Hinv : rootInvariant id r db1).
  { eapply rootInvariant_new; [done|]. by apply nodesInGraphs_none. }
  exists r. split; [done|]. split; [done|].
  intros bodies Hall. by apply saveGraphs_root_invariant_lists.
Qed.

Lemma createDag_Json body db db' c :
  createDag body db = (db', Json c) →
  ∃ name entityId,
    DagBody.name body = Some name ∧ Js.trim name ≠ ""
    ∧ created_dag c
      = Dag.mk (Js.trim name) (Js.orNull (Js.trim <$> DagBody.description body))
    ∧ dags db !! created_id c = None
    ∧ dags db' = <[created_id c := created_dag c]> (dags db)
    ∧ nodes db !! created_root c = None
    ∧ nodes db'
      = <[created_root c :=
            Node.mk (created_id c) entityId 0 0 None (Some "root")]> (nodes db)
    ∧ edges db' = edges db ∧ events db' = events db.
Proof.
  unfold createDag. intros Hc.
  destruct (DagBody.name body) as [name|]; [|done]. simpl in Hc.
  destruct (negb (negb (String.eqb name ""))); [done|]. simpl in Hc.
  destruct (String.length (Js.trim name) =? 0)%nat eqn:Hlen; [done|].
  apply Nat.eqb_neq in Hlen.
  pose proof (rootRole_tables db) as (Hn & Hd & _ & He & Hev).
  destruct (rootRole db) as [db1 roleId]. simpl in *.
  injection Hc as <- <-. simpl.
  exists name, (fresh (dom (entities db1))).
  split; [done|]. split; [by intros Htrim; rewrite Htrim in Hlen|].
  split; [done|].
  rewrite Hn, Hd, He, Hev.
  split; [apply not_elem_of_dom, is_fresh|]. split; [done|].
  split; [apply not_elem_of_dom, is_fresh|]. done.
Qed.

(** X16.  Creating a graph.  A request without a name, or with a name of
    white space only, is rejected with status 400 and creates nothing.  A
    successful createDag stores the graph under a new id with the trimmed
    name, and gives it exactly one root node, at (0,0); the graphs and the
    nodes that were there are left as they were.  A fetch of the new graph
    writes nothing, and every sequence of saves whose node lists mark the
    new root, and no other node, as root keeps the graph at exactly that
    one root at (0,0). *)
Theorem createDag_creates_rooted_graph catalog body db :
  (Js.trim (default "" (DagBody.name body)) = "" →
   createDag body db = (db, Failure 400 "DAG name is required"))
  ∧ (∀ db' c,
       createDag body db = (db', Json c) → nodesInGraphs db →
       dags db !! created_id c = None
       ∧ dags db' = <[created_id c := created_dag c]> (dags db)
       ∧ Some (Dag.name (created_dag c)) = Js.trim <$> DagBody.name body
       ∧ rootInvariant (created_id c) (created_root c) db'
       ∧ (∀ k n, nodes db !! k = Some n → nodes db' !! k = Some n)
       ∧ (fetchGraph catalog (created_id c) db').1 = db'
       ∧ ∀ bodies,
           forallb (marksRootOnly (created_root c)) bodies = true →
           rootInvariant (created_id c) (created_root c)
                         (saveGraphs (created_id c) bodies db')).
Proof.
  split.
  - intros Hblank. unfold createDag. rewrite Hblank. simpl.
    by rewrite orb_true_r.
  - intros db' c Hc Hfk.
    apply createDag_Json in Hc
      as (name & entityId & Hname & Hne & Hdag & Hfresh & Hd & Hr & Hn & _).
    split; [done|]. split; [done|].
    split; [by rewrite Hdag, Hname|].
    assert (Hinv : rootInvariant (created_id c) (created_root c) db').
    { eapply rootInvariant_new; [done|]. by apply nodesInGraphs_none. }
    split; [done|]. split.
    { intros k n Hk. rewrite Hn, lookup_insert_ne; [done|].
      intros Heq. rewrite Heq in Hr. congruence. }
    split.
    + assert (Hstate : ∀ d, (fetchGraph catalog (created_id c) d).1
                            = ensureGraph (created_id c) d).
      { intros d. unfold fetchGraph. by repeat case_match. }
      rewrite Hstate. unfold ensureGraph. rewrite Hd, lookup_insert_eq.
      by rewrite (proj2 (hasRoot_rooted _ db')) by (by eapply rooted_insert).
    + intros bodies Hall. by apply saveGraphs_root_invariant_lists.
Qed.

(** ** Roles *)

Lemma findRoleByName_Some db name k r :
  findRoleByName db name = Some (k, r) →
  roles db !! k = Some r ∧ Role.name r = name.
Proof.
  unfold findRoleByName. intros Hfound.
  apply head_Some_elem_of, elem_of_map_to_list in Hfound.
  by apply map_lookup_filter_Some in Hfound.
Qed.

Lemma findRoleByName_None db name :
  findRoleByName db name = None →
  ∀ k r, roles db !! k = Some r → Role.name r ≠ name.
Proof.
  unfold findRoleByName. intros Hnone k r Hk Hname.
  apply head_map_to_list_None in Hnone.
  assert (Hin : filter (λ kr : string * Role.t, Role.name kr.2 = name)
                  (roles db) !! k = Some r)
    by (by apply map_lookup_filter_Some).
  rewrite Hnone in Hin. by rewrite lookup_empty in Hin.
Qed.

(** The lookup by name after a role has been stored under a new id. *)
Lemma findRoleByName_insert_fresh db name k r :
  findRoleByName db name = None → roles db !! k = None →
  findRoleByName (set_roles (insert k r) db) name
  = if decide (Role.name r = name) then Some (k, r) else None.
Proof.
  unfold findRoleByName. intros Hnone Hfresh. simpl.
  apply head_map_to_list_None in Hnone.
  destruct (decide (Role.name r = name)) as [Heq|Hne].
  - rewrite map_filter_insert_True by done.
    by rewrite Hnone, insert_empty, map_to_list_singleton.
  - rewrite map_filter_insert_not'; [| done |].
    + by rewrite Hnone, map_to_list_empty.
    + intros y Hy. by rewrite Hfresh in Hy.
Qed.

(** The three ways a well-formed request ends. *)
Lemma createRole_cases body db name category :
  parseCreateRole body = Some (name, category) →
  (∃ k r, findRoleByName db name = Some (k, r)
          ∧ createRole body db = (db, Json (k, r)))
  ∨ (findRoleByName db name = None
     ∧ is_Some (findRoleByName db (Js.trim name))
     ∧ createRole body db = (db, Failure 500 "Failed to create role"))
  ∨ (findRoleByName db name = None
     ∧ findRoleByName db (Js.trim name) = None
     ∧ createRole body db
       = (set_roles (insert (fresh (dom (roles db)))
                            (Role.mk (Js.trim name) category false)) db,
          Json (fresh (dom (roles db)), Role.mk (Js.trim name) category false))).
Proof.
  intros Hparse. unfold createRole. rewrite Hparse.
  destruct (findRoleByName db name) as [[k r]|]; [left; eauto|].
  destruct (findRoleByName db (Js.trim name)) as [found|]; right; [left|right];
    eauto.
Qed.

(** X17.  Creating a role never duplicates a name.  When no two roles
    have the same name, none have after createRole, whatever the request;
    every role that was there is still there, unchanged (so no system role
    is altered); and a role that the request creates is not a system role
    and carries the trimmed name of the request and its category. *)
Theorem createRole_keeps_names_unique body db :
  uniqueRoleNames db →
  uniqueRoleNames (createRole body db).1
  ∧ (∀ k r, roles db !! k = Some r → roles (createRole body db).1 !! k = Some r)
  ∧ (∀ k r, (createRole body db).2 = Json (k, r) →
       roles (createRole body db).1 !! k = Some r
       ∧ (roles db !! k = None →
          Role.isSystem r = false
          ∧ Some (Role.name r) = Js.trim <$> RoleBody.name body
          ∧ Some (Role.category r) = RoleBody.category body)).
Proof.
  intros Huniq.
  destruct (parseCreateRole body) as [[name category]|] eqn:Hparse.
  2: { unfold createRole. rewrite Hparse. simpl. done. }
  assert (Hbody : RoleBody.name body = Some name
                  ∧ RoleBody.category body = Some category).
  { unfold parseCreateRole in Hparse.
    destruct (RoleBody.name body), (RoleBody.category body); try done.
    destruct (_ <? _)%nat; [done|]. destruct (bool_decide _); [|done].
    by injection Hparse as <- <-. }
  destruct Hbody as [Hname Hcat].
  destruct (createRole_cases body db name category Hparse)
    as [(k & r & Hfound & ->)|[(_ & _ & ->)|(Hnone & Hnone' & ->)]]; simpl.
  - split; [done|]. split; [done|]. intros k' r' [= <- <-].
    apply findRoleByName_Some in Hfound as [Hk _]. split; [done|].
    intros Hfresh. congruence.
  - done.
  - assert (Hfresh : roles db !! fresh (dom (roles db)) = None)
      by apply not_elem_of_dom, is_fresh.
    split; [|split].
    + intros k1 k2 r1 r2 H1 H2 Heq. simpl in H1, H2.
      destruct (decide (k1 = fresh (dom (roles db)))) as [->|Hne1],
               (decide (k2 = fresh (dom (roles db)))) as [->|Hne2]; [done| | |].
      * rewrite lookup_insert_eq in H1. injection H1 as <-.
        rewrite lookup_insert_ne in H2 by done.
        by destruct (findRoleByName_None _ _ Hnone' k2 r2 H2).
      * rewrite lookup_insert_eq in H2. injection H2 as <-.
        rewrite lookup_insert_ne in H1 by done.
        by destruct (findRoleByName_None _ _ Hnone' k1 r1 H1).
      * rewrite lookup_insert_ne in H1, H2 by done. by eapply Huniq.
    + intros k r Hk. rewrite lookup_insert_ne; [done|].
      intros Heq. rewrite Heq in Hfresh. congruence.
    + intros k r [= <- <-]. rewrite lookup_insert_eq. split; [done|].
      intros _. simpl. by rewrite Hname, Hcat.
Qed.

(** X18.  Asking for the same role again.  When createRole answers
    with a role, the same request sent again leaves the database as it is.
    It answers with the same role when the name of the role is the name as
    sent; when the name was sent with surrounding white space, the role
    was stored under the trimmed name, the repeated request does not find
    it by the name as sent, and fails with status 500. *)
Theorem createRole_again body db db1 k r name :
  RoleBody.name body = Some name →
  createRole body db = (db1, Json (k, r)) →
  createRole body db1
  = (db1, if decide (Role.name r = name)
          then Json (k, r) else Failure 500 "Failed to create role").
Proof.
  intros Hname Hc.
  destruct (parseCreateRole body) as [[name' category]|] eqn:Hparse.
  2: { unfold createRole in Hc. by rewrite Hparse in Hc. }
  assert (name' = name) as ->.
  { unfold parseCreateRole in Hparse. rewrite Hname in Hparse.
    destruct (RoleBody.category body); [|done].
    destruct (_ <? _)%nat; [done|]. destruct (bool_decide _); [|done].
    by injection Hparse as <- <-. }
  destruct (createRole_cases body db name category Hparse)
    as [(k' & r' & Hfound & Hc')|[(_ & _ & Hc')|(Hnone & Hnone' & Hc')]];
    rewrite Hc' in Hc; [| done |].
  - injection Hc as <- <- <-.
    rewrite Hc'. apply findRoleByName_Some in Hfound as [_ Hn].
    by rewrite decide_True.
  - injection Hc as <- <- <-. simpl.
    assert (Hfresh : roles db !! fresh (dom (roles db)) = None)
      by apply not_elem_of_dom, is_fresh.
    unfold createRole. rewrite Hparse.
    rewrite !findRoleByName_insert_fresh by done. simpl.
    destruct (decide (Js.trim name = name)) as [Heq|Hne]; [done|].
    by rewrite decide_True.
Qed.

Lemma groupRoles_spec roles : ∀ acc,
  (∀ role, role ∈ roles → Role.category role.2 ∉ inheritedKeys) →
  ∃ groups,
    groupRoles acc roles = Some groups
    ∧ ∀ category,
        groups !! category
        = if decide (filter (λ role : string * Role.t,
                       Role.category role.2 = category) roles = [])
          then acc !! category
          else Some (default [] (acc !! category)
                     ++ filter (λ role : string * Role.t,
                          Role.category role.2 = category) roles).
Proof.
  induction roles as [|role rest IH]; intros acc Hsafe; simpl.
  { exists acc. split; [done|]. intros category. by repeat case_match. }
  unfold groupStep.
  rewrite bool_decide_eq_false_2 by (apply Hsafe; by left).
  destruct (IH (<[Role.category role.2 :=
                   default [] (acc !! Role.category role.2) ++ [role]]> acc))
    as (groups & Hrun & Hgroups).
  { intros r Hr. apply Hsafe. by right. }
  exists groups. split; [done|]. intros category. rewrite Hgroups.
  destruct (decide (Role.category role.2 = category)) as [<-|Hne].
  - rewrite filter_cons_True by done. rewrite lookup_insert_eq. simpl.
    destruct (decide (filter _ rest = [])) as [->|_]; [done|].
    by rewrite <- app_assoc.
  - rewrite filter_cons_False by done. by rewrite lookup_insert_ne.
Qed.

(** X19.  The roles by category.  For a list of roles none of whose
    categories is a key that objects inherit, the grouping succeeds; the
    group of a category holds exactly the roles of that category, in the
    order of the list, and a category without a role has no group.  When
    some role has such a key as its category ("constructor", say), the
    grouping throws. *)
Theorem rolesByCategory_groups roles :
  ((∀ role, role ∈ roles → Role.category role.2 ∉ inheritedKeys) →
   ∃ groups,
     rolesByCategory roles = Some groups
     ∧ ∀ category,
         groups !! category
         = if decide (filter (λ role : string * Role.t,
                        Role.category role.2 = category) roles = [])
           then None
           else Some (filter (λ role : string * Role.t,
                        Role.category role.2 = category) roles))
  ∧ ((∃ role, role ∈ roles ∧ Role.category role.2 ∈ inheritedKeys) →
     rolesByCategory roles = None).
Proof.
  split.
  - intros Hsafe. destruct (groupRoles_spec roles ∅ Hsafe) as (groups & Hrun & Hg).
    exists groups. split; [done|]. intros category. rewrite Hg.
    by rewrite lookup_empty.
  - intros (role & Hin & Hkey). unfold rolesByCategory.
    generalize (∅ : gmap string (list (string * Role.t))).
    induction roles as [|head rest IH]; intros acc; [by apply elem_of_nil in Hin|].
    simpl. unfold groupStep.
    destruct (decide (Role.category head.2 ∈ inheritedKeys)) as [Hhead|Hhead].
    + by rewrite bool_decide_eq_true_2.
    + rewrite bool_decide_eq_false_2 by done.
      apply elem_of_cons in Hin as [->|Hin]; [done|]. by apply IH.
Qed.

(** ** The category of a role title *)

Lemma prefix_app_l (a b hay : string) :
  String.prefix (a +:+ b) hay = true → String.prefix a hay = true.
Proof.
  revert hay. induction a as [|c a IH]; intros hay; [by destruct hay|].
  change (String c a +:+ b) with (String c (a +:+ b)).
  destruct hay as [|h hay]; simpl; [done|].
  destruct (ascii_dec c h); [apply IH|done].
Qed.

(** A string that includes a key includes every beginning of the key. *)
Lemma includes_app_l (a b hay : string) :
  Js.includes hay (a +:+ b) = true → Js.includes hay a = true.
Proof.
  induction hay as [|h hay IH]; cbn [Js.includes].
  - intros [Hp|Hrest]%orb_true_iff; [|done]. apply orb_true_iff.
    left. by eapply prefix_app_l.
  - intros [Hp|Hrest]%orb_true_iff; apply orb_true_iff.
    + left. by eapply prefix_app_l.
    + right. by apply IH.
Qed.

Lemma lowerChar_idemp c : Js.lowerChar (Js.lowerChar c) = Js.lowerChar c.
Proof. destruct c as [[] [] [] [] [] [] [] []]; reflexivity. Qed.

Lemma toLowerCase_idemp s : Js.toLowerCase (Js.toLowerCase s) = Js.toLowerCase s.
Proof.
  induction s as [|c s IH]; [done|]. simpl. by rewrite lowerChar_idemp, IH.
Qed.

(** X20.  The order of the keyword lists decides.  getRoleCategory reads
    a title in lower case, so a title and its lower-case form get the same
    category; a title that includes a law-enforcement keyword is
    law_enforcement whatever else it includes; and since "crime" is such a
    keyword, every title that includes "crime boss" is classified as
    law_enforcement: the suspect keyword "crime boss" never decides. *)
Theorem getRoleCategory_keyword_order role :
  getRoleCategory (Js.toLowerCase role) = getRoleCategory role
  ∧ (∀ key, key ∈ ["police"; "crime"; "hawks"; "private investigator";
                   "informant"] →
            Js.includes (Js.toLowerCase role) key = true →
            getRoleCategory role = "law_enforcement")
  ∧ (Js.includes (Js.toLowerCase role) "crime boss" = true →
     getRoleCategory role = "law_enforcement"
     ∧ getRoleCategory role ≠ "suspect").
Proof.
  assert (Hlaw : ∀ key, key ∈ ["police"; "crime"; "hawks"; "private investigator";
                               "informant"] →
            Js.includes (Js.toLowerCase role) key = true →
            getRoleCategory role = "law_enforcement").
  { intros key Hkey Hinc. unfold getRoleCategory.
    assert (Hsome : includesSome (Js.toLowerCase role)
              ["police"; "crime"; "hawks"; "private investigator"; "informant"]
              = true).
    { unfold includesSome. apply existsb_exists. exists key.
      split; [by apply list_elem_of_In|done]. }
    by rewrite Hsome. }
  split; [|split; [exact Hlaw|]].
  - unfold getRoleCategory. by rewrite toLowerCase_idemp.
  - intros Hboss.
    assert (Hcat : getRoleCategory role = "law_enforcement").
    { apply (Hlaw "crime"); [apply elem_of_cons; right; by left|].
      by apply (includes_app_l "crime" " boss"). }
    by rewrite Hcat.
Qed.

(** The title "Crime Boss". *)
Lemma getRoleCategory_keyword_order_witness :
  getRoleCategory "Crime Boss" = "law_enforcement"
  ∧ getRoleCategory "Crime Boss" ≠ "suspect".
Proof.
  apply (proj2 (proj2 (getRoleCategory_keyword_order "Crime Boss"))).
  vm_compute; reflexivity.
Defined.

(** ** Listing events *)

Section EventsListed.

Context `{DateImpl}.

(** X21.  A created event is listed for each of its nodes.  After a
    successful createEvent, the listing of the events of its graph
    contains the event, and so does the listing of that graph filtered by
    the source node of the event, by its target node, or by any of its
    participant nodes; and a listing of a graph contains events of that
    graph only. *)
Theorem createEvent_then_listEvents body db db' r g :
  createEvent body db = (db', Json r) →
  EventBody.dagId body = Some g →
  (∃ listed, listEvents (Some g) None db' = Json listed
             ∧ is_Some (listed !! event_id r))
  ∧ (∀ nodeId,
       nodeId ≠ "" →
       EventBody.sourceNodeId body = Some nodeId
       ∨ EventBody.targetNodeId body = Some nodeId
       ∨ nodeId ∈ validIds (EventBody.participantNodeIds body) →
       ∃ listed, listEvents (Some g) (Some nodeId) db' = Json listed
                 ∧ is_Some (listed !! event_id r))
  ∧ (∀ nodeId listed k e,
       listEvents (Some g) nodeId db' = Json listed →
       listed !! k = Some e → Event.dagId e = g).
Proof.
  intros Hc Hg.
  apply createEvent_Json in Hc
    as (db1 & eventTypeId & Hshape & _ & _ & _ & _ & _ & Hstore).
  assert (Htruthy : Js.truthy (Some g) = true).
  { unfold shapeError in Hshape. rewrite Hg in Hshape.
    destruct (titleMissing _); [done|]. destruct (_ && _); [done|].
    destruct (_ && _); [done|]. by destruct (Js.truthy (Some g)). }
  apply storeEvent_rows in Hstore as (Hev & _ & Hrows).
  assert (Hstored : ∃ stored, events db' !! event_id r = Some stored
            ∧ Event.dagId stored = g
            ∧ Event.sourceNodeId stored = Js.orNull (EventBody.sourceNodeId body)
            ∧ Event.targetNodeId stored = Js.orNull (EventBody.targetNodeId body)
            ∧ Event.participantNodes stored
              = connected (validIds (EventBody.participantNodeIds body))).
  { destruct (createdEdge r) as [[k e]|].
    - destruct Hrows as (_ & _ & _ & _ & ->). eexists.
      rewrite lookup_insert_eq. split; [done|]. simpl. by rewrite Hg.
    - destruct Hrows as (_ & ->). eexists.
      rewrite lookup_insert_eq. split; [done|]. simpl. by rewrite Hg. }
  destruct Hstored as (stored & Hk & Hd & Hs & Ht & Hp).
  unfold listEvents. rewrite Htruthy. simpl.
  split; [|split].
  - eexists. split; [done|]. exists stored.
    apply map_lookup_filter_Some. split; [done|]. simpl.
    unfold eventWhere. by rewrite (bool_decide_eq_true_2 _ Hd).
  - intros nodeId Hne Hnode. eexists. split; [done|]. exists stored.
    apply map_lookup_filter_Some. split; [done|]. simpl.
    unfold eventWhere. rewrite (bool_decide_eq_true_2 _ Hd). simpl.
    assert (Hyes : negb (String.eqb nodeId "") = true)
      by (by apply negb_true_iff, String.eqb_neq).
    assert (HorNull : Js.orNull (Some nodeId) = Some nodeId)
      by (unfold Js.orNull; simpl; by rewrite Hyes).
    rewrite Hyes, Hs, Ht, Hp.
    destruct Hnode as [Hsrc|[Htgt|Hin]].
    + rewrite Hsrc, HorNull. by rewrite bool_decide_eq_true_2.
    + rewrite Htgt, HorNull.
      rewrite (bool_decide_eq_true_2 (Some nodeId = Some nodeId)) by done.
      by rewrite orb_true_r.
    + assert (Hin' : nodeId ∈ connected (validIds
                                 (EventBody.participantNodeIds body)))
        by (by apply elem_of_remove_dups).
      rewrite (bool_decide_eq_true_2 _ Hin'). by rewrite !orb_true_r.
  - intros nodeId listed k e [= <-] Hin.
    apply map_lookup_filter_Some in Hin as [_ Hw]. simpl in Hw.
    unfold eventWhere in Hw. apply andb_true_iff in Hw as [Hw _].
    by apply bool_decide_eq_true in Hw.
Qed.

End EventsListed.

(** The meeting of a and b is listed for b. *)
Lemma createEvent_then_listEvents_witness :
  ∃ db' r listed,
    @createEvent Example.utc Example.meeting Example.db2 = (db', Json r)
    ∧ listEvents (Some "g") (Some "b") db' = Json listed
    ∧ is_Some (listed !! event_id r).
Proof.
  destruct (proj1 (proj2 (@createEvent_then_listEvents Example.utc
                            Example.meeting Example.db2 _ _ "g"
                            ltac:(vm_compute; reflexivity) eq_refl))
              "b" ltac:(discriminate) ltac:(right; by left))
    as (listed & Hlisted & Hin).
  eexists _, _, listed. split; [vm_compute; reflexivity|].
  split; [exact Hlisted|exact Hin].
Defined.

(** ** Entities: renaming *)

Lemma createEntity_Json body db db' k e :
  createEntity body db = (db', Json (k, e)) →
  ∃ name roleId entityType,
    EntityBody.name body = Some name
    ∧ entities db !! k = None
    ∧ db' = set_entities (insert k
              (Entity.mk name roleId entityType (EntityBody.description body)
                         (Some (avatarUrl name)))) db.
Proof.
  unfold createEntity. intros Hc.
  destruct (parseCreateEntity body) as [[[[name roleId] entityType] description]|]
    eqn:Hparse; [|done].
  destruct (roles db !! roleId); [|done].
  injection Hc as <- <- <-.
  assert (Hbody : EntityBody.name body = Some name
                  ∧ description = EntityBody.description body).
  { unfold parseCreateEntity in Hparse.
    destruct (EntityBody.name body), (EntityBody.roleId body); try done.
    destruct (_ <? _)%nat; [done|].
    destruct (EntityBody.entityType body).
    - destruct (bool_decide _); [|done]. by injection Hparse as <- <- <- <-.
    - by injection Hparse as <- <- <- <-. }
  destruct Hbody as [Hname ->].
  eexists name, roleId, _. split; [done|].
  split; [apply not_elem_of_dom, is_fresh|done].
Qed.

(** X22.  Renaming an entity leaves its avatar.  An update of an entity
    writes the name, the role, the type and the description it is given
    and nothing else.  So when an entity is created and then renamed, the
    entity stored and returned carries the new name, and still the avatar
    URL that was built from the name it was created with, which is not the
    avatar URL of the new name. *)
Theorem updateEntity_keeps_avatar body db db1 k e patch db2 e2 name name' :
  createEntity body db = (db1, Json (k, e)) →
  EntityBody.name body = Some name →
  EntityPatch.name patch = Some name' → name' ≠ name →
  updateEntity k patch db1 = (db2, Json e2) →
  Entity.name e2 = name'
  ∧ Entity.avatar e2 = Some (avatarUrl name)
  ∧ Entity.avatar e2 ≠ Some (avatarUrl name')
  ∧ ∃ stored, entities db2 !! k = Some stored
              ∧ Entity.name stored = name'
              ∧ Entity.avatar stored = Some (avatarUrl name).
Proof.
  intros Hc Hname Hname' Hne Hu.
  apply createEntity_Json in Hc
    as (name0 & roleId & entityType & Hname0 & Hfresh & ->).
  rewrite Hname in Hname0. injection Hname0 as <-.
  unfold updateEntity in Hu.
  destruct (negb (validEntityPatch patch)) eqn:Hvalid; [done|].
  simpl in Hu. rewrite lookup_insert_eq in Hu.
  destruct (_ && _); [done|].
  assert (Htruthy : Js.truthy (EntityPatch.name patch) = true).
  { apply negb_false_iff in Hvalid. unfold validEntityPatch in Hvalid.
    rewrite Hname' in *. simpl.
    apply andb_true_iff in Hvalid as [Hlen _].
    destruct name' as [|c rest]; [done|done]. }
  injection Hu as <- <-. simpl. rewrite Htruthy, Hname'. simpl.
  split; [done|]. split; [done|]. split.
  - intros Heq. apply (f_equal (default "")) in Heq.
    change (avatarUrl name = avatarUrl name') in Heq.
    apply avatarUrl_inj in Heq. congruence.
  - eexists. rewrite lookup_insert_eq. split; [done|]. simpl.
    by rewrite Htruthy, Hname'.
Qed.

(** "Al Capone" renamed "Alphonse Capone". *)
Lemma updateEntity_keeps_avatar_witness :
  ∃ db1 k e db2 e2,
    createEntity (Example.entityBody "Al Capone" "role-witness") Example.db0
    = (db1, Json (k, e))
    ∧ updateEntity k (EntityPatch.mk (Some "Alphonse Capone") None None None) db1
      = (db2, Json e2)
    ∧ Entity.name e2 = "Alphonse Capone"
    ∧ Entity.avatar e2
      = Some "https://ui-avatars.com/api/?name=Al%20Capone&background=random".
Proof.
  eexists _, _, _, _, _. split; [vm_compute; reflexivity|].
  split; [vm_compute; reflexivity|].
  destruct (updateEntity_keeps_avatar
              (Example.entityBody "Al Capone" "role-witness") Example.db0
              _ _ _ (EntityPatch.mk (Some "Alphonse Capone") None None None)
              _ _ "Al Capone" "Alphonse Capone"
              ltac:(vm_compute; reflexivity) eq_refl eq_refl
              ltac:(discriminate) ltac:(vm_compute; reflexivity))
    as (Hn & Ha & _).
  split; [exact Hn|exact Ha].
Defined.

(** ** The avatar URL *)

Lemma list_ascii_of_string_app (a b : string) :
  list_ascii_of_string (a +:+ b)
  = list_ascii_of_string a ++ list_ascii_of_string b.
Proof.
  induction a as [|c a IH]; [done|].
  change (String c a +:+ b) with (String c (a +:+ b)). simpl. by rewrite IH.
Qed.

Lemma encodeChar_safe c :
  forallb urlSafe (list_ascii_of_string (Uri.encodeChar c)) = true.
Proof. destruct c as [[] [] [] [] [] [] [] []]; reflexivity. Qed.

(** X23.  The avatar URL is well formed for every name.  The encoded
    name that createEntity puts into the avatar URL consists of letters,
    digits, the marks - _ . ! ~ * ' ( ) and percent signs only; so
    whatever the name contains, the URL has the one query separator of the
    handler, and a name cannot add a parameter or a fragment to it. *)
Theorem avatarUrl_safe name :
  avatarUrl name
  = "https://ui-avatars.com/api/?name=" +:+ Uri.encodeURIComponent name
    +:+ "&background=random"
  ∧ forallb urlSafe (list_ascii_of_string (Uri.encodeURIComponent name)) = true
  ∧ (∀ c, c ∈ ["&"; "="; "#"; "?"; "/"; " "; "+"]%char →
          c ∉ list_ascii_of_string (Uri.encodeURIComponent name)).
Proof.
  assert (Hsafe : forallb urlSafe
            (list_ascii_of_string (Uri.encodeURIComponent name)) = true).
  { induction name as [|c name IH]; [done|].
    cbn [Uri.encodeURIComponent].
    rewrite list_ascii_of_string_app, forallb_app, encodeChar_safe. done. }
  split; [done|]. split; [done|].
  intros c Hc Hin.
  rewrite forallb_forall in Hsafe.
  apply list_elem_of_In, Hsafe in Hin.
  repeat (apply elem_of_cons in Hc as [->|Hc]; [discriminate Hin|]).
  by apply elem_of_nil in Hc.
Qed.

(** ** Placement: an occupied position *)

Section Occupied.

Import Positioning.

Context `{MathImpl}.

Lemma sub_self v : finiteNumber v → (v - v)%float = 0%float.
Proof.
  unfold finiteNumber. intros Hfinite.
  rewrite <- (SF2Prim_Prim2SF (v - v)), sub_spec.
  destruct (Prim2SF v) as [s|s| |s m e]; try done.
  - by destruct s.
  - unfold SF64sub, SFsub. rewrite Z.sub_diag. done.
Qed.

(** X24.  A place taken by a node is a conflict.  The position of a node
    of the list, when its coordinates are neither NaN nor infinite,
    conflicts with the list (the node is at distance 0 from it).  So when
    the desired position is the position of such a node and the counter
    values 0 .. n-1 are below maxAttempts and n is not (0 < n <= 1024), the
    loop of findNonConflictingPosition runs at least once: it ends with the
    counter at some k with 1 <= k <= n, and the answer is the candidate of
    iteration k, computed from the counter value k - 1; the candidates of
    the iterations before it conflict with the list, and the answer does
    not, unless k = n. *)
Theorem hasPositionConflict_occupied node allNodes maxAttempts :
  node ∈ allNodes →
  finiteNumber (x (position node)) → finiteNumber (y (position node)) →
  hasPositionConflict (position node) allNodes = true
  ∧ ∀ n, 0 < n ≤ counterBound → attemptsAllowed maxAttempts n →
      ∃ k, 1 ≤ k ≤ n
           ∧ spiralLoop (Z.to_nat n) (position node) allNodes maxAttempts
                        (position node) 0
             = Some (candidate (position node) (numberOf (k - 1)), numberOf k)
           ∧ findNonConflictingPosition (Z.to_nat n) (position node) allNodes
                                        maxAttempts
             = Some (candidate (position node) (numberOf (k - 1)))
           ∧ (∀ j, 1 ≤ j → j < k →
                hasPositionConflict
                  (candidate (position node) (numberOf (j - 1))) allNodes
                = true)
           ∧ (hasPositionConflict
                (candidate (position node) (numberOf (k - 1))) allNodes
              = false
              ∨ k = n).
Proof.
  intros Hin Hx Hy.
  assert (Hconflict : hasPositionConflict (position node) allNodes = true).
  { unfold hasPositionConflict, hasPositionConflictWithin.
    apply existsb_exists. exists node. split; [by apply list_elem_of_In|].
    rewrite (sub_self _ Hx), (sub_self _ Hy). reflexivity. }
  split; [done|]. intros n Hn Hallowed.
  destruct (spiralLoop_spec (position node) allNodes maxAttempts n
              (Z.to_nat n) ltac:(lia) Hallowed (position node) 0%Z)
    as (p & k & Hrun & Hle & Hsame & Hlater & Hexit & Htried); [lia..|].
  assert (Hpos : 0 < k).
  { destruct (decide (k = 0)) as [->|]; [|lia].
    rewrite (Hsame eq_refl), Hconflict in Hexit. destruct Hexit; [done|lia]. }
  destruct (Hlater Hpos) as [-> _].
  change (numberOf 0) with 0%float in Hrun.
  exists k. split; [lia|]. split; [exact Hrun|]. split.
  { unfold findNonConflictingPosition. by rewrite Hrun. }
  split; [|done]. intros j Hj Hjk. apply Htried; lia.
Qed.

End Occupied.

(** The desired position is the place of node a, with the ten attempts of
    the default: the first candidate, 150 to the right, is within 200 of
    node a, and so are the seven after it; the ninth, at 300, is free. *)
Lemma hasPositionConflict_occupied_witness :
  Positioning.hasPositionConflict (Positioning.mkPosition 100 50)
    [Example.placed "a" 100 50; Example.placed "b" 400 50] = true
  ∧ ∃ k, 1 ≤ k ≤ 10
      ∧ @Positioning.findNonConflictingPosition Example.taylor 10
          (Positioning.mkPosition 100 50)
          [Example.placed "a" 100 50; Example.placed "b" 400 50]
          Positioning.defaultMaxAttempts
        = Some (@Positioning.candidate Example.taylor
                  (Positioning.mkPosition 100 50) (numberOf (k - 1))).
Proof.
  assert (Hallowed : attemptsAllowed Positioning.defaultMaxAttempts 10).
  { split; [|reflexivity]. intros j Hj.
    assert (j = 0 ∨ j = 1 ∨ j = 2 ∨ j = 3 ∨ j = 4 ∨ j = 5 ∨ j = 6 ∨ j = 7
            ∨ j = 8 ∨ j = 9) as Hcases by lia.
    repeat (destruct Hcases as [->|Hcases]; [reflexivity|]).
    subst j. reflexivity. }
  destruct (@hasPositionConflict_occupied Example.taylor
              (Example.placed "a" 100 50)
              [Example.placed "a" 100 50; Example.placed "b" 400 50]
              Positioning.defaultMaxAttempts
              ltac:(by left) ltac:(vm_compute; exact I)
              ltac:(vm_compute; exact I)) as [Hconflict Hloop].
  split; [exact Hconflict|].
  destruct (Hloop 10 ltac:(unfold counterBound; lia) Hallowed)
    as (k & Hk & _ & Hanswer & _).
  exists k. split; [exact Hk|exact Hanswer].
Defined.

(** The answer can be the desired position all the same.  Around
    (2^1000, 2^1000) the doubles are further apart than the radius of the
    spiral, so adding the offset of a candidate changes nothing: every
    candidate is the desired position, and after the ten attempts that
    position is returned although a node is there. *)
Example findNonConflictingPosition_absorbed :
  @Positioning.findNonConflictingPosition Example.taylor 10
    (Positioning.mkPosition 0x1p1000 0x1p1000)
    [Example.placed "a" 0x1p1000 0x1p1000] Positioning.defaultMaxAttempts
  = Some (Positioning.mkPosition 0x1p1000 0x1p1000).
Proof. vm_compute. reflexivity. Qed.

(** ** The properties of fetching, of new graphs and of roles on the
    example data *)

Lemma nodesInGraphs_db2 : nodesInGraphs Example.db2.
Proof.
  change (map_Forall (λ (_ : string) n, is_Some (dags Example.db2 !! Node.dagId n))
            (nodes Example.db2)).
  compute_done.
Qed.

Lemma uniqueRoleNames_db0 : uniqueRoleNames Example.db0.
Proof.
  assert (Hall : map_Forall (λ k1 r1,
            map_Forall (λ k2 r2, Role.name r1 = Role.name r2 → k1 = k2)
                       (roles Example.db0)) (roles Example.db0))
    by compute_done.
  intros k1 k2 r1 r2 H1 H2. exact (Hall k1 r1 H1 k2 r2 H2).
Qed.

Lemma rooted_g_db1 : rooted "g" Example.db1.
Proof. exists "r". eexists. split; [vm_compute; reflexivity|done]. Qed.

(** A fetch of the example graph, which has its root, writes nothing. *)
Lemma fetchGraph_ensures_root_witness :
  (fetchGraph Sample.catalog "g" Example.db1).1 = Example.db1.
Proof.
  apply (proj1 (proj2 (proj2 (proj2 (proj2 (proj2 (proj2
           (fetchGraph_ensures_root Sample.catalog "g" Example.db1)))))))).
  - by eexists.
  - apply rooted_g_db1.
Defined.

(** Node a is saved at (10,20) and fetched at (10,20). *)
Lemma saveGraph_then_fetchGraph_witness :
  ∃ db2 view v,
    fetchGraph Sample.catalog "g"
      (saveGraph "g" Example.rewriteReferences Example.db1).1
    = (db2, Json view)
    ∧ v ∈ view_nodes view ∧ NodeView.id v = "a"
    ∧ NodeView.position v = (10%float, 20%float).
Proof.
  destruct (saveGraph_then_fetchGraph Sample.catalog "g"
              Example.rewriteReferences Example.db1
              (saveGraph "g" Example.rewriteReferences Example.db1).1
              [Example.clientNode "r" "root" 0 0 "e0";
               Example.clientNode "a" "custom" 10 20 "e2";
               Example.clientNode "b" "custom" 600 300 "e2"]
              (Example.clientNode "a" "custom" 10 20 "e2") "a" _ _
              ltac:(vm_compute; reflexivity) eq_refl ltac:(compute_done)
              ltac:(apply elem_of_cons; right; apply elem_of_cons; by left)
              eq_refl
              ltac:(intros old Hold; vm_compute in Hold; by injection Hold as <-)
              ltac:(vm_compute; reflexivity))
    as (v & px & py & Hin & Hid & Hp & Hpos & _).
  eexists _, _, v. split; [vm_compute; reflexivity|].
  split; [exact Hin|]. split; [exact Hid|].
  injection Hp as <- <-. exact Hpos.
Defined.

(** A fetch of the unknown id "case-2024-0042". *)
Lemma fetchGraph_seeds_graph_witness :
  dags (fetchGraph Sample.catalog "case-2024-0042" Example.db2).1
    !! "case-2024-0042"
  = Some (Dag.mk "Investigation 4-0042" None).
Proof.
  apply (proj1 (fetchGraph_seeds_graph Sample.catalog "case-2024-0042"
                  Example.db2 eq_refl nodesInGraphs_db2)).
Defined.

(** A graph named " Inquiry ". *)
Lemma createDag_creates_rooted_graph_witness :
  ∃ db' c,
    createDag (DagBody.mk (Some " Inquiry ") None) Example.db2 = (db', Json c)
    ∧ Dag.name (created_dag c) = "Inquiry"
    ∧ rootInvariant (created_id c) (created_root c) db'.
Proof.
  eexists _, _. split; [vm_compute; reflexivity|].
  destruct (proj2 (createDag_creates_rooted_graph Sample.catalog
                     (DagBody.mk (Some " Inquiry ") None) Example.db2)
              _ _ ltac:(vm_compute; reflexivity) nodesInGraphs_db2)
    as (_ & _ & Hname & Hroot & _).
  split; [exact (f_equal (default "") Hname)|exact Hroot].
Defined.

(** The role "Informant" is created on the example data. *)
Lemma createRole_keeps_names_unique_witness :
  uniqueRoleNames
    (createRole (RoleBody.mk (Some "Informant") (Some "law_enforcement"))
                Example.db0).1.
Proof.
  apply (proj1 (createRole_keeps_names_unique
                  (RoleBody.mk (Some "Informant") (Some "law_enforcement"))
                  Example.db0 uniqueRoleNames_db0)).
Defined.

(** The role " Informant " is created, and asked for again: the second
    request fails. *)
Lemma createRole_again_witness :
  ∃ db1 k r,
    createRole (RoleBody.mk (Some " Informant ") (Some "law_enforcement"))
               Example.db0 = (db1, Json (k, r))
    ∧ createRole (RoleBody.mk (Some " Informant ") (Some "law_enforcement")) db1
      = (db1, Failure 500 "Failed to create role").
Proof.
  eexists _, _, _. split; [vm_compute; reflexivity|].
  apply (createRole_again
           (RoleBody.mk (Some " Informant ") (Some "law_enforcement"))
           Example.db0 _ _ _ " Informant " eq_refl
           ltac:(vm_compute; reflexivity)).
Defined.

(** Three roles in two categories. *)
Lemma rolesByCategory_groups_witness :
  ∃ groups,
    rolesByCategory Sample.someRoles = Some groups
    ∧ groups !! "witness"
      = Some [("r1", Role.mk "Witness" "witness" true);
              ("r3", Role.mk "Whistleblower" "witness" false)]
    ∧ groups !! "victim" = None.
Proof.
  destruct (proj1 (rolesByCategory_groups Sample.someRoles)) as (groups & Hrun & Hg).
  - intros role Hrole.
    repeat (apply elem_of_cons in Hrole as [->|Hrole]; [compute_done|]).
    by apply elem_of_nil in Hrole.
  - exists groups. split; [exact Hrun|].
    split; [exact (Hg "witness")|exact (Hg "victim")].
Defined.

(** The name "R&D #1" adds no separator to the URL. *)
Lemma avatarUrl_safe_witness :
  "&"%char ∉ list_ascii_of_string (Uri.encodeURIComponent "R&D #1").
Proof.
  apply (proj2 (proj2 (avatarUrl_safe "R&D #1"))). by left.
Defined.

(** * The auto-save debouncer *)

Section AutoSaveFacts.
Import AutoSave.
Context {A : Type}.
Implicit Types (s : State A) (ev : Event A) (evs : list (Event A)).

(** ** One call of [onSave] at a time *)

Lemma flagCounts_scheduleSave opts s : flagCounts s → flagCounts (scheduleSave opts s).
Proof. done. Qed.

Lemma flagCounts_save opts s : flagCounts s → flagCounts (save opts s).
Proof.
  intros (Hu & Hs & Hc). unfold save.
  destruct (isSaving s) eqn:Hflag.
  - apply flagCounts_scheduleSave. unfold flagCounts. by rewrite Hflag.
  - unfold flagCounts, called in *. simpl in *. lia.
Qed.

Lemma flagCounts_step opts ev s s' :
  flagCounts s → step opts ev s = Some s' → flagCounts s'.
Proof.
  intros Hinv Hstep. destruct ev as [data now stored| | |id|fulfilled removed];
    simpl in Hstep.
  - injection Hstep as <-. unfold trigger.
    apply flagCounts_scheduleSave. by destruct data, (timeoutId s); simpl;
      repeat case_match.
  - injection Hstep as <-. unfold saveImmediate. apply flagCounts_save.
    by destruct (timeoutId s).
  - injection Hstep as <-. unfold cancel. by destruct (timeoutId s).
  - destruct (timers s !! id); [|done]. injection Hstep as <-.
    by apply flagCounts_save.
  - destruct Hinv as (Hu & Hs & Hc).
    destruct (unsettled s) as [|n] eqn:Hn; [done|]. injection Hstep as <-.
    unfold flagCounts, called in *. simpl.
    destruct (isSaving s); [|done].
    destruct fulfilled; simpl in *; lia.
Qed.

Lemma flagCounts_run opts evs s s' :
  flagCounts s → run opts evs s = Some s' → flagCounts s'.
Proof.
  revert s. induction evs as [|ev evs IH]; intros s Hinv Hrun; simpl in Hrun.
  - by injection Hrun as <-.
  - destruct (step opts ev s) as [s1|] eqn:Hstep; [|done].
    eapply IH; [|done]. by eapply flagCounts_step.
Qed.

(** X25.  One save at a time.  Whatever methods are called on a new
    AutoSave object, and whenever its timers run and its saves settle, at
    most one call of onSave is unsettled at any moment, and the flag
    isSaving is up exactly while one is; onSaveStart has been called once
    for every call of onSave, and every call of onSave that has settled has
    been answered by exactly one call of onSaveSuccess or onSaveError. *)
Theorem autoSave_single_flight opts stored evs s :
  run opts evs (new stored) = Some s →
  (unsettled s ≤ 1)%nat
  ∧ (isSaving s = true ↔ unsettled s = 1%nat)
  ∧ called OnSaveStart s = called OnSave s
  ∧ called OnSave s
    = (called OnSaveSuccess s + called OnSaveError s + unsettled s)%nat.
Proof.
  intros Hrun.
  assert (flagCounts s) as (Hu & Hs & Hc).
  { eapply flagCounts_run; [|done]. by unfold flagCounts, new. }
  destruct (isSaving s); repeat split; try done; try lia.
  all: intros; try congruence; try lia.
Qed.

(** ** A trigger is not forgotten *)

Lemma called_save opts s :
  (called OnSave s ≤ called OnSave (save opts s))%nat
  ∧ (timers (save opts s) ≠ ∅
     ∨ (called OnSave s < called OnSave (save opts s))%nat).
Proof.
  unfold save. destruct (isSaving s); unfold called; simpl.
  - split; [lia|]. left. apply insert_non_empty.
  - split; [lia|]. right. lia.
Qed.

Lemma pending_step opts ev s s' :
  ev ≠ Cancel → step opts ev s = Some s' →
  (called OnSave s ≤ called OnSave s')%nat
  ∧ (timers s ≠ ∅ →
     timers s' ≠ ∅ ∨ (called OnSave s < called OnSave s')%nat).
Proof.
  intros Hev Hstep.
  destruct ev as [data now stored| | |id|fulfilled removed]; simpl in Hstep.
  - injection Hstep as <-. unfold trigger, called.
    split; [by destruct data, (timeoutId s); simpl; repeat case_match|].
    intros _. left. apply insert_non_empty.
  - injection Hstep as <-. unfold saveImmediate.
    destruct (called_save opts
      (match timeoutId s with
       | Some id =>
           let s' := clearTimeout id s in
           mkState None (isSaving s') (pendingData s') (timers s')
                   (nextTimer s') (backup s') (unsettled s') (calls s')
       | None => s
       end)) as [Hle Hor].
    assert (called OnSave
      (match timeoutId s with
       | Some id =>
           let s' := clearTimeout id s in
           mkState None (isSaving s') (pendingData s') (timers s')
                   (nextTimer s') (backup s') (unsettled s') (calls s')
       | None => s
       end) = called OnSave s) as Heq by by destruct (timeoutId s).
    rewrite Heq in Hle, Hor. by split.
  - done.
  - destruct (timers s !! id); [|done]. injection Hstep as <-.
    destruct (called_save opts (clearTimeout id s)) as [Hle Hor].
    by split.
  - destruct (unsettled s); [done|]. injection Hstep as <-.
    unfold called. simpl. split.
    + destruct fulfilled; simpl; lia.
    + intros Hne. by left.
Qed.

Lemma pending_run opts evs s s' :
  Cancel ∉ evs → run opts evs s = Some s' →
  (called OnSave s ≤ called OnSave s')%nat
  ∧ (timers s ≠ ∅ →
     timers s' ≠ ∅ ∨ (called OnSave s < called OnSave s')%nat).
Proof.
  revert s. induction evs as [|ev evs IH]; intros s Hno Hrun; simpl in Hrun.
  - injection Hrun as <-. split; [lia|]. by left.
  - destruct (step opts ev s) as [s1|] eqn:Hstep; [|done].
    apply not_elem_of_cons in Hno as [Hev Hno].
    destruct (pending_step opts ev s s1) as [Hle1 Hor1]; [done..|].
    destruct (IH s1 Hno Hrun) as [Hle2 Hor2].
    split; [lia|]. intros Hne.
    destruct (Hor1 Hne) as [Hne1|Hlt]; [|right; lia].
    destruct (Hor2 Hne1) as [Hne2|Hlt]; [by left|right; lia].
Qed.

(** X26.  A trigger is not forgotten.  After a call of trigger, in
    whatever state the object was, and whatever happens next short of a
    call of cancel, a timer that will run save is scheduled for as long as
    onSave has not been called again: a timer that runs while a save is in
    flight schedules another, and a save that settles clears none. *)
Theorem autoSave_trigger_not_forgotten opts data now stored evs s s' :
  run opts evs (trigger opts data now stored s) = Some s' →
  Cancel ∉ evs →
  called OnSave s' = called OnSave s →
  timers s' ≠ ∅.
Proof.
  intros Hrun Hno Hsame.
  destruct (pending_run opts evs _ _ Hno Hrun) as [Hle Hor].
  assert (called OnSave (trigger opts data now stored s) = called OnSave s)
    as Heq.
  { unfold trigger, called.
    by destruct data, (timeoutId s); simpl; repeat case_match. }
  destruct Hor as [Hne|Hlt]; [apply insert_non_empty|done|lia].
Qed.

(** ** Debouncing *)

Lemma tracked_size s : tracked s → (size (timers s) ≤ 1)%nat.
Proof.
  intros Ht.
  destruct (map_to_list (timers s)) as [|[id1 d1] [|[id2 d2] l]] eqn:Hl.
  - apply map_to_list_empty_iff in Hl. rewrite Hl, map_size_empty. lia.
  - rewrite <- (list_to_map_to_list (timers s)), Hl. simpl.
    rewrite insert_empty, map_size_singleton. lia.
  - exfalso.
    pose proof (NoDup_fst_map_to_list (timers s)) as Hnd.
    rewrite Hl in Hnd. simpl in Hnd.
    assert (timers s !! id1 = Some d1) as H1.
    { apply elem_of_map_to_list. rewrite Hl. by left. }
    assert (timers s !! id2 = Some d2) as H2.
    { apply elem_of_map_to_list. rewrite Hl. right. by left. }
    pose proof (Ht id1 (mk_is_Some _ _ H1)) as E1.
    pose proof (Ht id2 (mk_is_Some _ _ H2)) as E2.
    rewrite E1 in E2. injection E2 as ->.
    apply NoDup_cons in Hnd as [Hnot _]. apply Hnot. by left.
Qed.

Lemma tracked_cleared s id :
  tracked s → timeoutId s = Some id → delete id (timers s) = ∅.
Proof.
  intros Ht Hid. apply map_empty. intros k.
  destruct (decide (k = id)) as [->|Hne]; [by rewrite lookup_delete_eq|].
  rewrite lookup_delete_ne by done.
  destruct (timers s !! k) eqn:Hk; [|done].
  pose proof (Ht k (mk_is_Some _ _ Hk)) as E. congruence.
Qed.

Lemma tracked_none s : tracked s → timeoutId s = None → timers s = ∅.
Proof.
  intros Ht Hid. apply map_empty. intros k.
  destruct (timers s !! k) eqn:Hk; [|done].
  pose proof (Ht k (mk_is_Some _ _ Hk)) as E. congruence.
Qed.

Lemma tracked_empty s : timers s = ∅ → tracked s.
Proof. intros He id [d Hd]. by rewrite He in Hd. Qed.

Lemma tracked_schedule opts s :
  timers s = ∅ →
  tracked (scheduleSave opts s)
  ∧ timers (scheduleSave opts s) = {[ nextTimer s := delay opts ]}.
Proof.
  intros He. unfold scheduleSave; simpl. rewrite He, insert_empty.
  split; [|done]. intros id [d Hd]. simpl in *.
  apply lookup_singleton_Some in Hd as [<- _]. done.
Qed.

Lemma tracked_save opts s : timers s = ∅ → tracked (save opts s).
Proof.
  intros He. unfold save. destruct (isSaving s).
  - by apply tracked_schedule.
  - by apply tracked_empty.
Qed.

(** X27.  Debouncing.  As long as every scheduled timer is the one the
    object holds the id of, which is so for a new object, at most one timer
    is scheduled; and every event keeps it so, a save that settles while
    a timer is scheduled apart.  A call of trigger then leaves exactly one
    timer, the new one with the delay of the options, whatever was
    scheduled before, and a call of cancel leaves none. *)
Theorem autoSave_debounce opts ev s s' :
  tracked s →
  step opts ev s = Some s' →
  (∀ fulfilled removed, ev = Settle fulfilled removed → timers s = ∅) →
  tracked s'
  ∧ (size (timers s') ≤ 1)%nat
  ∧ (∀ data now stored,
       ev = Trigger data now stored →
       timers s' = {[ nextTimer s := delay opts ]}
       ∧ timeoutId s' = Some (nextTimer s))
  ∧ (ev = Cancel → timers s' = ∅).
Proof.
  intros Ht Hstep Hsettle.
  assert (tracked s'
          ∧ (∀ data now stored,
               ev = Trigger data now stored →
               timers s' = {[ nextTimer s := delay opts ]}
               ∧ timeoutId s' = Some (nextTimer s))
          ∧ (ev = Cancel → timers s' = ∅)) as (Ht' & Htr & Hc).
  { destruct ev as [data now stored| | |id|fulfilled removed]; simpl in Hstep.
    - injection Hstep as <-.
      assert (∃ s3, trigger opts data now stored s = scheduleSave opts s3
                    ∧ timers s3 = ∅ ∧ nextTimer s3 = nextTimer s)
        as (s3 & -> & He & Hn).
      { unfold trigger. eexists. split; [done|].
        destruct (timeoutId s) as [id|] eqn:Hid.
        - pose proof (tracked_cleared s id Ht Hid) as Hd.
          by destruct data; simpl; repeat case_match.
        - pose proof (tracked_none s Ht Hid) as Hd.
          by destruct data; simpl; repeat case_match. }
      destruct (tracked_schedule opts s3 He) as [Hts Htimers].
      split; [done|]. split; [|done].
      intros ? ? ? _. rewrite Htimers, Hn. split; [done|]. simpl. by rewrite Hn.
    - injection Hstep as <-. split; [|by split].
      unfold saveImmediate. apply tracked_save.
      destruct (timeoutId s) as [id|] eqn:Hid; simpl.
      + by apply tracked_cleared.
      + by apply tracked_none.
    - injection Hstep as <-.
      assert (timers (cancel s) = ∅) as He.
      { unfold cancel. destruct (timeoutId s) as [id|] eqn:Hid; simpl.
        - by apply tracked_cleared.
        - by apply tracked_none. }
      split; [by apply tracked_empty|]. by split.
    - destruct (timers s !! id) as [d|] eqn:Hd; [|done].
      injection Hstep as <-. split; [|by split].
      apply tracked_save. simpl.
      apply tracked_cleared; [done|]. apply Ht. by eexists.
    - destruct (unsettled s); [done|]. injection Hstep as <-.
      split; [|by split]. apply tracked_empty. simpl. by eapply Hsettle. }
  split; [done|]. split; [by apply tracked_size|]. by split.
Qed.

(** ** A change made while a save is in flight *)

(** X28.  A change made while a save is in flight.  When trigger is called
    while a call of onSave is unsettled, and the save then settles, the
    object forgets the timer that trigger scheduled: a call of cancel after
    that cancels nothing, the timer is still scheduled, and when it runs it
    starts a save.  The data of the trigger is still pending then; and
    when the save was fulfilled and the backup could be removed, the backup
    that trigger had written for that data is gone. *)
Theorem autoSave_cancel_misses_timer opts data now stored fulfilled removed s :
  unsettled s ≠ 0%nat →
  ∃ s1 s2,
    run opts [Trigger data now stored; Settle fulfilled removed; Cancel] s
    = Some s1
    ∧ timeoutId s1 = None
    ∧ timers s1 !! nextTimer s = Some (delay opts)
    ∧ ¬ tracked s1
    ∧ (is_Some data → pendingData s1 = data)
    ∧ (fulfilled = true → enableLocalStorage opts = true → removed = true →
       hasBackup s1 = false)
    ∧ step opts (Fire (nextTimer s)) s1 = Some s2
    ∧ calls s2
      = OnSave :: OnSaveStart
        :: (if fulfilled then OnSaveSuccess else OnSaveError) :: calls s.
Proof.
  intros Hu.
  set (t := trigger opts data now stored s).
  assert (unsettled t = unsettled s) as Hut.
  { unfold t, trigger. by destruct data, (timeoutId s); simpl; repeat case_match. }
  assert (timers t !! nextTimer s = Some (delay opts)
          ∧ nextTimer t = Pos.succ (nextTimer s)
          ∧ calls t = calls s
          ∧ (is_Some data → pendingData t = data)) as (Htm & Hnt & Hct & Hpd).
  { unfold t, trigger.
    destruct data, (timeoutId s); simpl; repeat case_match; simpl;
      rewrite ?lookup_insert_eq; repeat split; try done;
      by intros [? [=]]. }
  set (r := resume opts fulfilled removed t).
  assert (run opts [Trigger data now stored; Settle fulfilled removed; Cancel] s
          = Some r) as Hrun.
  { cbn [run step]. fold t.
    destruct (unsettled t) eqn:Hn; [congruence|]. done. }
  exists r, (save opts (clearTimeout (nextTimer s) r)).
  split; [done|]. split; [done|]. split; [done|].
  split.
  { intros Htr. specialize (Htr (nextTimer s) (mk_is_Some _ _ Htm)). done. }
  split; [done|]. split.
  { intros -> He ->. unfold hasBackup, r, resume. simpl. rewrite He. done. }
  split.
  { cbn [step]. change (timers r) with (timers t). by rewrite Htm. }
  change (calls (save opts (clearTimeout (nextTimer s) r)))
    with (OnSave :: OnSaveStart
          :: (if fulfilled then OnSaveSuccess else OnSaveError) :: calls t).
  by rewrite Hct.
Qed.

End AutoSaveFacts.

(** ** The auto-save debouncer at work *)

Lemma autoSave_single_flight_witness :
  ∃ s, AutoSave.run AutoSave.defaults
         [AutoSave.Trigger (Some "graph") "t0" true; AutoSave.Fire 1;
          AutoSave.Trigger (Some "graph'") "t1" true; AutoSave.Fire 2;
          AutoSave.Settle true true]
         (AutoSave.new None) = Some s
       ∧ (AutoSave.unsettled s ≤ 1)%nat
       ∧ (AutoSave.isSaving s = true ↔ AutoSave.unsettled s = 1%nat).
Proof.
  eexists. split; [vm_compute; reflexivity|].
  destruct (autoSave_single_flight (A := string) AutoSave.defaults None
    [AutoSave.Trigger (Some "graph") "t0" true; AutoSave.Fire 1;
     AutoSave.Trigger (Some "graph'") "t1" true; AutoSave.Fire 2;
     AutoSave.Settle true true] _ eq_refl) as (H1 & H2 & _).
  by split.
Defined.

Lemma autoSave_trigger_not_forgotten_witness :
  ∃ s', AutoSave.run AutoSave.defaults
          [AutoSave.Fire 2; AutoSave.Settle false true]
          (AutoSave.trigger AutoSave.defaults (Some "graph'") "t1" true
             (AutoSave.mkState None true (Some "graph") ∅ 2 None 1
                [AutoSave.OnSave; AutoSave.OnSaveStart]))
        = Some s'
        ∧ AutoSave.timers s' ≠ ∅.
Proof.
  eexists. split; [vm_compute; reflexivity|].
  apply (autoSave_trigger_not_forgotten (A := string) AutoSave.defaults
           (Some "graph'") "t1" true
           [AutoSave.Fire 2; AutoSave.Settle false true]
           (AutoSave.mkState None true (Some "graph") ∅ 2 None 1
              [AutoSave.OnSave; AutoSave.OnSaveStart])).
  - vm_compute; reflexivity.
  - intros Hin. apply elem_of_cons in Hin as [Hin|Hin]; [done|].
    apply elem_of_cons in Hin as [Hin|Hin]; [done|].
    by apply elem_of_nil in Hin.
  - vm_compute; reflexivity.
Defined.

Lemma autoSave_debounce_witness :
  ∃ s', AutoSave.step AutoSave.defaults (AutoSave.Trigger (Some "graph") "t0" true)
          (AutoSave.new None) = Some s'
        ∧ AutoSave.tracked s' ∧ (size (AutoSave.timers s') ≤ 1)%nat.
Proof.
  exists (AutoSave.trigger AutoSave.defaults (Some "graph") "t0" true
            (AutoSave.new None)).
  split; [reflexivity|].
  destruct (autoSave_debounce (A := string) AutoSave.defaults
              (AutoSave.Trigger (Some "graph") "t0" true)
              (AutoSave.new None)
              (AutoSave.trigger AutoSave.defaults (Some "graph") "t0" true
                 (AutoSave.new None))) as (H1 & H2 & _).
  - intros id [d Hd]. vm_compute in Hd. discriminate.
  - reflexivity.
  - intros ? ? [=].
  - by split.
Defined.

Lemma autoSave_cancel_misses_timer_witness :
  ∃ s1, AutoSave.run AutoSave.defaults
          [AutoSave.Trigger (Some "graph'") "t1" true;
           AutoSave.Settle true true; AutoSave.Cancel]
          (AutoSave.mkState (Some 1%positive) true (Some "graph") ∅ 2 None 1
             [AutoSave.OnSave; AutoSave.OnSaveStart])
        = Some s1
        ∧ AutoSave.timers s1 !! 2%positive = Some 5000
        ∧ AutoSave.timeoutId s1 = None.
Proof.
  destruct (autoSave_cancel_misses_timer (A := string) AutoSave.defaults
              (Some "graph'") "t1" true true true
              (AutoSave.mkState (Some 1%positive) true (Some "graph") ∅ 2 None 1
                 [AutoSave.OnSave; AutoSave.OnSaveStart]))
    as (s1 & s2 & Hrun & Hid & Htm & _).
  - simpl. lia.
  - exists s1. by split.
Defined.
